(** * Route analysis and climb scoring of the PCS profiler pages

    A shallow embedding of the analysis engine found in the front-end pages
    of the repository: [src/pages/PCS profiler.jsx] and the earlier variant
    of the same page that also computes the TPV climb weighting.

    Numbers.  JavaScript numbers are modelled by exact rationals [Q]: every
    operation of the engine ([+], [-], [*], [/], comparisons, [Math.min],
    [Math.max], [Math.pow (_, 2)]) is taken without rounding, and the
    non-finite values ([NaN], infinities) are outside the model.  Equality of
    computed numbers is therefore [Qeq] (written [==]).  A division by zero
    would leave the model; the chunks ([chunks_ok]) and the climbs
    ([climbSpan_length]) of a track have positive lengths, and the other
    divisors are constants or guarded by the code.

    Rounding.  The numbers of the page are IEEE 754 doubles.  What is stated
    of the page is what the rounding leaves alone: the expressions the code
    computes, the comparisons between computed values, and bounds that
    monotone operations keep.  An identity between two ways of adding the
    same numbers holds in the exact model only; [Double] repeats the first
    two steps of the analysis on binary64 numbers, and shows on the gain of a
    climb how far the two models part.

    Arrays are lists.  A loop index [i] into [points] is represented by the
    suffix of the list that starts at [points[i]].  Objects are records;
    where the identity of the point objects matters (the laps), they live in
    a store ([Store]).

    The great-circle distance, which is built from trigonometric functions,
    is a parameter of the track building; the properties use of it only
    that it is never negative.

    The page.  The state of the component is a record, a handler is a
    function on states, and [update] runs a handler followed by the effect
    that analyses the route again when the base data or the laps changed;
    [reachable] collects the states this gives.  Of the chart
    ([ElevationChart]) the numbers are modelled (scaling, displayed points,
    overlays), not the strings they are printed into. *)

From Stdlib Require Import String.
From Stdlib Require Import ZArith QArith Qminmax Qabs Lqa List Lia Bool Arith.
From Stdlib Require Import Sorted.
From Stdlib Require PrimFloat.
From Equations Require Import Equations.
From Equations.Prop Require Import Logic.
Import ListNotations.
Open Scope Q_scope.

(** ** Number comparisons as the code writes them *)

(** [x < y] *)
Definition Qltb (x y : Q) : bool := negb (Qle_bool y x).

(** [x > y] *)
Definition Qgtb (x y : Q) : bool := Qltb y x.

(** [x <= y] *)
Definition Qleb (x y : Q) : bool := Qle_bool x y.

(** [x >= y] *)
Definition Qgeb (x y : Q) : bool := Qle_bool y x.

(** A loop counter or a lap count used as a number. *)
Definition ofNat (n : nat) : Q := inject_Z (Z.of_nat n).

(** ** Data *)

(** [{ lat, lon, ele }], one parsed [trkpt]. *)
Record RawPoint : Type := mkRawPoint {
  rawLat : Q;
  rawLon : Q;
  rawEle : Q
}.

(** [{ lat, lon, ele, dist }]: a track point with its cumulative distance
    in km. *)
Record Point : Type := mkPoint {
  lat : Q;
  lon : Q;
  ele : Q;
  dist : Q
}.

(** The objects pushed on [chunks]. *)
Module Chunk.
Record t : Type := mk {
  startDist : Q;
  endDist : Q;
  gradient : Q;
  gain : Q;
  startEle : Q;
  endEle : Q
}.
End Chunk.

(** The object held in [currentClimb] and pushed on [climbs]. *)
Module Climb.
Record t : Type := mk {
  startDist : Q;
  endDist : Q;
  gain : Q;
  chunks : list Chunk.t
}.
End Climb.

(** ** analyzeRoute, step 1: distance chunks

    The three copies of [analyzeRoute] share steps 1 and 2 verbatim. *)

Definition CHUNK_SIZE : Q := 0.2.

(** The inner loop
    [while (j < points.length && points[j].dist - start.dist < CHUNK_SIZE) j++].
    [rest] is the suffix that starts at [points[j]]; the result is the suffix
    at which the loop stops, [[]] when [j] reached [points.length]. *)
Fixpoint scan (start : Point) (rest : list Point) : list Point :=
  match rest with
  | [] => []
  | p :: rest' =>
      if Qltb (dist p - dist start) CHUNK_SIZE then scan start rest' else rest
  end.

(** The object literal pushed for [start = points[i]] and [end = points[j]]. *)
Definition mkChunk (start end_ : Point) : Chunk.t :=
  let dist_ := dist end_ - dist start in
  let gain := ele end_ - ele start in
  let gradient := (gain / (dist_ * 1000)) * 100 in
  Chunk.mk (dist start) (dist end_) gradient gain (ele start) (ele end_).

(** The outer loop [for (let i = 0; i < points.length; i++)].  When the inner
    loop stops inside the array a chunk is pushed and [i = j - 1] followed by
    [i++] resumes at [points[j]]; when it runs off the array nothing is
    pushed and [i++] resumes at [points[i + 1]]. *)
Equations chunkLoop (pts : list Point) : list Chunk.t
  by wf (List.length pts) lt :=
  chunkLoop [] := [];
  chunkLoop (start :: rest) with inspect (scan start rest) := {
    | exist _ [] _ := chunkLoop rest;
    | exist _ (end_ :: rest') _ :=
        mkChunk start end_ :: chunkLoop (end_ :: rest')
  }.
Next Obligation.
  assert (H : forall l, (List.length (scan start l) <= List.length l)%nat).
  { induction l as [|p l IH]; simpl; [lia|].
    destruct (Qltb _ _); simpl; lia. }
  specialize (H rest). rewrite e in H. simpl in *. lia.
Qed.

Definition chunks (points : list Point) : list Chunk.t := chunkLoop points.

(** ** analyzeRoute, step 2: climbs *)

(** [chunk.gradient > 1.5] *)
Definition isUphill (chunk : Chunk.t) : bool :=
  Qgtb (Chunk.gradient chunk) 1.5.

(** The pair of [climbs] and [currentClimb] ([None] is [null]). *)
Definition AggState : Type := (list Climb.t * option Climb.t)%type.

(** The body of [chunks.forEach]. *)
Definition aggStep (st : AggState) (chunk : Chunk.t) : AggState :=
  let '(climbs, currentClimb) := st in
  if isUphill chunk then
    match currentClimb with
    | None =>
        (climbs,
         Some (Climb.mk (Chunk.startDist chunk) (Chunk.endDist chunk)
                        (Chunk.gain chunk) [chunk]))
    | Some c =>
        (climbs,
         Some (Climb.mk (Climb.startDist c) (Chunk.endDist chunk)
                        (Climb.gain c + Chunk.gain chunk)
                        (Climb.chunks c ++ [chunk])))
    end
  else
    match currentClimb with
    | Some c => (climbs ++ [c], None)
    | None => (climbs, None)
    end.

(** [if (currentClimb) climbs.push(currentClimb)] after the loop. *)
Definition flush (st : AggState) : list Climb.t :=
  match snd st with
  | Some c => fst st ++ [c]
  | None => fst st
  end.

Definition aggregate (chunks : list Chunk.t) : list Climb.t :=
  flush (fold_left aggStep chunks ([], None)).

Definition climbs (points : list Point) : list Climb.t :=
  aggregate (chunks points).

(** ** analyzeRoute, step 3: scoring *)

(** The positional multiplier
    [let multiplier = 0.2;
     if (distFromFinish <= 10) multiplier = 1.0;
     else if (distFromFinish <= 25) multiplier = 0.8;
     else if (distFromFinish <= 50) multiplier = 0.6;
     else if (distFromFinish <= 75) multiplier = 0.4;]
    (the earlier page ends the cascade with a redundant
    [else multiplier = 0.2]). *)
Definition multiplierFor (distFromFinish : Q) : Q :=
  if Qleb distFromFinish 10 then 1.0
  else if Qleb distFromFinish 25 then 0.8
  else if Qleb distFromFinish 50 then 0.6
  else if Qleb distFromFinish 75 then 0.4
  else 0.2.

(** [Math.max(...xs)]; [None] stands for the [-Infinity] of an empty
    argument list. *)
Definition mathMax (xs : list Q) : option Q :=
  match xs with
  | [] => None
  | x :: xs' => Some (fold_left Qmax xs' x)
  end.

(** [Math.min(...xs)]; [None] stands for [Infinity]. *)
Definition mathMin (xs : list Q) : option Q :=
  match xs with
  | [] => None
  | x :: xs' => Some (fold_left Qmin xs' x)
  end.

(** [xs.map((x, index) => f(index, x))], counting from [index]. *)
Fixpoint mapiFrom {A B : Type} (f : nat -> A -> B) (index : nat) (xs : list A)
  : list B :=
  match xs with
  | [] => []
  | x :: xs' => f index x :: mapiFrom f (S index) xs'
  end.

Definition mapi {A B : Type} (f : nat -> A -> B) (xs : list A) : list B :=
  mapiFrom f 0%nat xs.

(** [xs.sort(cmp)].  The sort of the language is stable, so for a comparator
    that is a consistent ordering its result is the stable sorted
    arrangement, whatever algorithm the engine runs: the model is the
    insertion sort, where an element moves right past those it compares
    greater than ([cmp(x, y) > 0]). *)
Fixpoint insertBy {A : Type} (cmp : A -> A -> Q) (x : A) (sorted : list A)
  : list A :=
  match sorted with
  | [] => [x]
  | y :: sorted' =>
      if Qgtb (cmp x y) 0 then y :: insertBy cmp x sorted' else x :: sorted
  end.

Definition sortBy {A : Type} (cmp : A -> A -> Q) (xs : list A) : list A :=
  fold_right (insertBy cmp) [] xs.

(** The gross climbing loop
    [for (let i = 1; i < points.length; i++)]: [prev] is [points[i - 1]]. *)
Fixpoint climbingFrom (prev : Point) (rest : list Point) (totalClimbing : Q)
  : Q :=
  match rest with
  | [] => totalClimbing
  | p :: rest' =>
      let elevationChange := ele p - ele prev in
      climbingFrom p rest'
        (if Qgtb elevationChange 0 then totalClimbing + elevationChange
         else totalClimbing)
  end.

Definition totalClimbing (points : list Point) : Q :=
  match points with
  | [] => 0
  | p0 :: rest => climbingFrom p0 rest 0
  end.

(** *** The page [src/pages/PCS profiler.jsx] *)

Module Profiler.

(** A climb after [map]: the fields of the climb ([...c]) and the scores. *)
Module Scored.
Record t : Type := mk {
  startDist : Q;
  endDist : Q;
  gain : Q;
  chunks : list Chunk.t;
  id : nat;
  name : String.string;
  lengthKm : Q;
  gradientAvg : Q;
  maxGradient : option Q;
  rawScore : Q;
  multiplier : Q;
  finalScore : Q;
  distFromFinish : Q
}.
End Scored.

(** The callback of [.map((c, index) => ...)]. *)
Definition scoreClimb (totalDistance : Q) (index : nat) (c : Climb.t)
  : Scored.t :=
  let lengthKm := Climb.endDist c - Climb.startDist c in
  let gradientAvg :=
    if Qgtb lengthKm 0 then (Climb.gain c / (lengthKm * 1000)) * 100 else 0 in
  let maxGradient := mathMax (map Chunk.gradient (Climb.chunks c)) in
  let rawScore := Qpower (gradientAvg / 2) 2 * lengthKm in
  let distFromFinish := totalDistance - Climb.endDist c in
  let multiplier := multiplierFor distFromFinish in
  Scored.mk (Climb.startDist c) (Climb.endDist c) (Climb.gain c)
            (Climb.chunks c)
            (index + 1) String.EmptyString
            lengthKm gradientAvg maxGradient rawScore multiplier
            (rawScore * multiplier) distFromFinish.

(** [climbs.filter(c => c.gain > 20).map(...).sort((a, b) => a.startDist - b.startDist)] *)
Definition validClimbs (points : list Point) (totalDistance : Q)
  : list Scored.t :=
  sortBy (fun a b => Scored.startDist a - Scored.startDist b)
    (mapi (scoreClimb totalDistance)
       (filter (fun c => Qgtb (Climb.gain c) 20) (climbs points))).

(** [cs.reduce((acc, c) => acc + c.finalScore, 0)] *)
Definition sumFinalScore (cs : list Scored.t) : Q :=
  fold_left (fun acc c => acc + Scored.finalScore c) cs 0.

Definition totalScore (points : list Point) (totalDistance : Q) : Q :=
  sumFinalScore (validClimbs points totalDistance).

Definition finalClimbs (points : list Point) (totalDistance : Q)
  : list Scored.t :=
  let finalZoneStart := totalDistance - 25 in
  filter (fun c => Qgeb (Scored.endDist c) finalZoneStart)
    (validClimbs points totalDistance).

Definition finalProfileScore (points : list Point) (totalDistance : Q) : Q :=
  sumFinalScore (finalClimbs points totalDistance).

(** The object given to [setFileData]. *)
Module FileData.
Record t : Type := mk {
  points : list Point;
  totalDistance : Q;
  totalClimbing : Q;
  totalGain : Q;
  maxEle : option Q;
  minEle : option Q;
  climbs : list Scored.t;
  totalScore : Q;
  finalProfileScore : Q
}.
End FileData.

(** [analyzeRoute(points, totalDistance)]: the value it passes to
    [setFileData].  On an empty array [points[points.length - 1].ele] throws
    a [TypeError] before [setFileData] is reached: [None]. *)
Definition analyzeRoute (points : list Point) (totalDistance : Q)
  : option FileData.t :=
  match points with
  | [] => None
  | p0 :: _ =>
      Some (FileData.mk
              points
              totalDistance
              (totalClimbing points)
              (ele (last points p0) - ele p0)
              (mathMax (map ele points))
              (mathMin (map ele points))
              (validClimbs points totalDistance)
              (totalScore points totalDistance)
              (finalProfileScore points totalDistance))
  end.

End Profiler.

(** *** The earlier page, with the TPV climb weighting *)

Module Tpv.

Module Scored.
Record t : Type := mk {
  startDist : Q;
  endDist : Q;
  gain : Q;
  chunks : list Chunk.t;
  lengthKm : Q;
  gradientAvg : Q;
  rawScore : Q;
  multiplier : Q;
  finalScore : Q;
  distFromFinish : Q
}.
End Scored.

(** The callback of [.map(c => ...)].  This page divides by [lengthKm]
    without a guard. *)
Definition scoreClimb (totalDistance : Q) (c : Climb.t) : Scored.t :=
  let lengthKm := Climb.endDist c - Climb.startDist c in
  let gradientAvg := (Climb.gain c / (lengthKm * 1000)) * 100 in
  let rawScore := Qpower (gradientAvg / 2) 2 * lengthKm in
  let distFromFinish := totalDistance - Climb.endDist c in
  let multiplier := multiplierFor distFromFinish in
  Scored.mk (Climb.startDist c) (Climb.endDist c) (Climb.gain c)
            (Climb.chunks c)
            lengthKm gradientAvg rawScore multiplier
            (rawScore * multiplier) distFromFinish.

(** [climbs.filter(c => c.gain > 20).map(...)] *)
Definition validClimbs (points : list Point) (totalDistance : Q)
  : list Scored.t :=
  map (scoreClimb totalDistance)
    (filter (fun c => Qgtb (Climb.gain c) 20) (climbs points)).

Definition sumFinalScore (cs : list Scored.t) : Q :=
  fold_left (fun acc c => acc + Scored.finalScore c) cs 0.

Definition totalScore (points : list Point) (totalDistance : Q) : Q :=
  sumFinalScore (validClimbs points totalDistance).

Definition finalClimbs (points : list Point) (totalDistance : Q)
  : list Scored.t :=
  let finalZoneStart := totalDistance - 25 in
  filter (fun c => Qgeb (Scored.endDist c) finalZoneStart)
    (validClimbs points totalDistance).

Definition finalProfileScore (points : list Point) (totalDistance : Q) : Q :=
  sumFinalScore (finalClimbs points totalDistance).

(** The block "TPV Climb Weighting Logic", as a function of the two scores
    and of the course length. *)
Definition overallMetric (totalScore : Q) : Q := totalScore / 100.

Definition finalZoneRatioUncapped (finalProfileScore totalDistance : Q) : Q :=
  if Qgtb totalDistance 0 then finalProfileScore / 25 else 0.

Definition finalZoneMetricCapped (finalProfileScore totalDistance : Q) : Q :=
  Qmin (finalZoneRatioUncapped finalProfileScore totalDistance) 0.8.

Definition tpvClimbWeightingRatio (totalScore finalProfileScore totalDistance : Q)
  : Q :=
  if Qgtb totalDistance 0 && Qltb totalDistance 20 then
    totalScore / totalDistance
  else
    Qmax (overallMetric totalScore)
         (finalZoneMetricCapped finalProfileScore totalDistance).

Definition tpvClimbWeighting (totalScore finalProfileScore totalDistance : Q)
  : Q :=
  Qmin (tpvClimbWeightingRatio totalScore finalProfileScore totalDistance * 100)
       100.

Module FileData.
Record t : Type := mk {
  points : list Point;
  totalDistance : Q;
  totalClimbing : Q;
  totalGain : Q;
  maxEle : option Q;
  minEle : option Q;
  climbs : list Scored.t;
  totalScore : Q;
  finalProfileScore : Q;
  tpvClimbWeighting : Q;
  overallMetric : Q;
  finalZoneMetric : Q
}.
End FileData.

Definition analyzeRoute (points : list Point) (totalDistance : Q)
  : option FileData.t :=
  match points with
  | [] => None
  | p0 :: _ =>
      let totalScore := totalScore points totalDistance in
      let finalProfileScore := finalProfileScore points totalDistance in
      Some (FileData.mk
              points
              totalDistance
              (totalClimbing points)
              (ele (last points p0) - ele p0)
              (mathMax (map ele points))
              (mathMin (map ele points))
              (validClimbs points totalDistance)
              totalScore
              finalProfileScore
              (tpvClimbWeighting totalScore finalProfileScore totalDistance)
              (overallMetric totalScore)
              (finalZoneMetricCapped finalProfileScore totalDistance))
  end.

End Tpv.

(** ** The page component: track building, laps and the effect *)

(** [{ points, distance }], the single-lap data kept in [baseData]. *)
Module BaseData.
Record t : Type := mk {
  points : list Point;
  distance : Q
}.
End BaseData.

(** [smoothElevation(points, windowSize)]: each elevation becomes the mean of
    the elevations at the indices [Math.max(0, i - windowSize)] to
    [Math.min(points.length - 1, i + windowSize)]. *)
Definition smoothElevation (points : list Point) (windowSize : nat)
  : list Point :=
  mapi (fun i point =>
          let lo := Nat.max 0 (i - windowSize) in
          let hi := Nat.min (List.length points - 1) (i + windowSize) in
          let window := firstn (hi + 1 - lo) (skipn lo points) in
          let sum := fold_left (fun sum p => sum + ele p) window 0 in
          let count := List.length window in
          mkPoint (lat point) (lon point) (sum / ofNat count) (dist point))
       points.

(** [points.map(p => ({ ...p, dist: p.dist + lapOffset }))] *)
Definition lapPoints (lapOffset : Q) (points : list Point) : list Point :=
  map (fun p => mkPoint (lat p) (lon p) (ele p) (dist p + lapOffset)) points.

(** The loop [for (let i = 0; i < laps; i++)] of the effect, with [n] turns
    left to run. *)
Fixpoint lapLoop (n i : nat) (baseData : BaseData.t) (fullPoints : list Point)
  : list Point :=
  match n with
  | O => fullPoints
  | S n' =>
      let lapOffset := ofNat i * BaseData.distance baseData in
      lapLoop n' (S i) baseData
        (fullPoints ++ lapPoints lapOffset (BaseData.points baseData))
  end.

(** The two arguments the effect passes to [analyzeRoute]. *)
Definition fullPoints (baseData : BaseData.t) (laps : nat) : list Point :=
  lapLoop laps 0%nat baseData [].

Definition totalDistance (baseData : BaseData.t) (laps : nat) : Q :=
  BaseData.distance baseData * ofNat laps.

(** Why [processGPX] stops early. *)
Inductive GpxError : Type :=
| NoTrackPoints.

Definition errorMessage (e : GpxError) : String.string :=
  match e with
  | NoTrackPoints => "No track points found in GPX file."%string
  end.

Section Page.

(** The great-circle distance is built from [Math.sin], [Math.cos],
    [Math.atan2] and [Math.sqrt]; it is a parameter of the model. *)
Variable haversineDistance : Q -> Q -> Q -> Q -> Q.

(** The analysis result and the [analyzeRoute] of the page at hand. *)
Variable FD : Type.
Variable analyzeRoute : list Point -> Q -> option FD.

(** [rawPoints.map((p, i) => ...)] from index 1 on: [prev] is
    [rawPoints[i - 1]], [totalDist] the captured running total, which the
    callback updates; the final total is returned with the points. *)
Fixpoint withDistFrom (prev : RawPoint) (totalDist : Q) (rest : list RawPoint)
  : list Point * Q :=
  match rest with
  | [] => ([], totalDist)
  | p :: rest' =>
      let totalDist' :=
        totalDist + haversineDistance (rawLat prev) (rawLon prev)
                                      (rawLat p) (rawLon p) in
      let '(ps, final) := withDistFrom p totalDist' rest' in
      (mkPoint (rawLat p) (rawLon p) (rawEle p) totalDist' :: ps, final)
  end.

Definition pointsWithDist (rawPoints : list RawPoint) : list Point * Q :=
  match rawPoints with
  | [] => ([], 0)
  | p0 :: rest =>
      let '(ps, final) := withDistFrom p0 0 rest in
      (mkPoint (rawLat p0) (rawLon p0) (rawEle p0) 0 :: ps, final)
  end.

(** The [try] block of [processGPX] up to [setBaseData]: the track points of
    the document arrive with their attributes read as numbers (a missing
    [ele] as 0). *)
Definition buildTrack (trkpts : list RawPoint) : GpxError + BaseData.t :=
  match trkpts with
  | [] => inl NoTrackPoints
  | _ :: _ =>
      let '(withDist, totalDist) := pointsWithDist trkpts in
      let smoothedPoints := smoothElevation withDist 3 in
      inr (BaseData.mk smoothedPoints totalDist)
  end.

(** The state of the component.  [baseDataId] counts the calls of
    [setBaseData]: each call stores a new object, and the effect compares its
    dependencies by identity. *)
Record AppState : Type := mkAppState {
  fileData : option FD;
  baseData : option BaseData.t;
  baseDataId : nat;
  laps : nat;
  isProcessing : bool;
  console : list String.string
}.

(** [useState(null)], [useState(null)], [useState(1)], [useState(false)]. *)
Definition initialState : AppState :=
  mkAppState None None 0%nat 1%nat false [].

(** [processGPX(text)]: on a document without track points it logs the error
    and returns, otherwise it resets the laps and stores the base data; its
    [finally] clears the processing flag.  (A document that does not parse
    is the business of the parser and is not modelled.) *)
Definition processGPX (trkpts : list RawPoint) (st : AppState) : AppState :=
  match buildTrack trkpts with
  | inl e =>
      mkAppState (fileData st) (baseData st) (baseDataId st) (laps st)
                 false (console st ++ [errorMessage e])
  | inr bd =>
      mkAppState (fileData st) (Some bd) (S (baseDataId st)) 1%nat
                 false (console st)
  end.

(** The buttons: [setLaps(Math.max(1, laps - 1))] and
    [setLaps(Math.max(1, laps + 1))] (the later pages write [setLaps(laps + 1)]). *)
Definition decrementLaps (st : AppState) : AppState :=
  mkAppState (fileData st) (baseData st) (baseDataId st)
             (Nat.max 1 (laps st - 1)) (isProcessing st) (console st).

Definition incrementLaps (st : AppState) : AppState :=
  mkAppState (fileData st) (baseData st) (baseDataId st)
             (Nat.max 1 (laps st + 1)) (isProcessing st) (console st).

(** The body of the effect "Recalculate when base data or laps change". *)
Definition recalculate (st : AppState) : AppState :=
  match baseData st with
  | None => st
  | Some bd =>
      match analyzeRoute (fullPoints bd (laps st)) (totalDistance bd (laps st))
      with
      | Some fd =>
          mkAppState (Some fd) (baseData st) (baseDataId st) (laps st)
                     (isProcessing st) (console st)
      | None => st
      end
  end.

(** [useEffect(..., [baseData, laps])]: after an update from [prev] to [cur]
    the effect runs when one of its dependencies changed. *)
Definition useEffect (prev cur : AppState) : AppState :=
  if Nat.eqb (baseDataId prev) (baseDataId cur)
     && Nat.eqb (laps prev) (laps cur)
  then cur
  else recalculate cur.

(** An update of the state followed by the effects it triggers. *)
Definition update (f : AppState -> AppState) (st : AppState) : AppState :=
  useEffect st (f st).

End Page.

Arguments fileData {FD} _.
Arguments baseData {FD} _.
Arguments baseDataId {FD} _.
Arguments laps {FD} _.
Arguments isProcessing {FD} _.
Arguments console {FD} _.
Arguments mkAppState {FD} _ _ _ _ _ _.
Arguments initialState {FD}.
Arguments processGPX haversineDistance {FD} _ _.
Arguments decrementLaps {FD} _.
Arguments incrementLaps {FD} _.
Arguments recalculate {FD} _ _.
Arguments useEffect {FD} _ _ _.
Arguments update {FD} _ _ _.

(** *** The point objects of the effect, with their identities

    [baseData.points] and [fullPoints] are arrays of references to point
    objects.  The store lists the objects by address; an object literal
    allocates the next address. *)
Module Store.

Definition Ref : Type := nat.
Definition Heap : Type := list Point.

Definition read (h : Heap) (r : Ref) : option Point := nth_error h r.

Definition alloc (h : Heap) (p : Point) : Heap * Ref :=
  (h ++ [p], List.length h).

(** The array read through the store. *)
Fixpoint deref (h : Heap) (refs : list Ref) : option (list Point) :=
  match refs with
  | [] => Some []
  | r :: refs' =>
      match read h r, deref h refs' with
      | Some p, Some ps => Some (p :: ps)
      | _, _ => None
      end
  end.

(** [points.map(p => ({ ...p, dist: p.dist + lapOffset }))]: one new object
    for each element.  Reading through a reference that holds no object
    throws. *)
Fixpoint lapPoints (lapOffset : Q) (points : list Ref) (h : Heap)
  : option (Heap * list Ref) :=
  match points with
  | [] => Some (h, [])
  | r :: points' =>
      match read h r with
      | None => None
      | Some p =>
          let '(h1, r1) :=
            alloc h (mkPoint (lat p) (lon p) (ele p) (dist p + lapOffset)) in
          match lapPoints lapOffset points' h1 with
          | None => None
          | Some (h2, rs) => Some (h2, r1 :: rs)
          end
      end
  end.

Fixpoint lapLoop (n i : nat) (points : list Ref) (distance : Q) (h : Heap)
  (fullPoints : list Ref) : option (Heap * list Ref) :=
  match n with
  | O => Some (h, fullPoints)
  | S n' =>
      let lapOffset := ofNat i * distance in
      match lapPoints lapOffset points h with
      | None => None
      | Some (h1, lap) =>
          lapLoop n' (S i) points distance h1 (fullPoints ++ lap)
      end
  end.

(** The store after the effect built its points, the array [fullPoints] and
    [totalDistance]. *)
Definition expand (points : list Ref) (distance : Q) (laps : nat) (h : Heap)
  : option (Heap * list Ref * Q) :=
  match lapLoop laps 0%nat points distance h [] with
  | None => None
  | Some (h', full) => Some (h', full, distance * ofNat laps)
  end.

End Store.

(** ** Vocabulary of the properties *)

(** The cumulative distance never decreases along [points]. *)
Fixpoint nondecreasingb (points : list Point) : bool :=
  match points with
  | [] => true
  | p :: rest =>
      match rest with
      | [] => true
      | q :: _ => Qleb (dist p) (dist q) && nondecreasingb rest
      end
  end.

Definition nondecreasing (points : list Point) : Prop :=
  nondecreasingb points = true.

(** The points lie on a course of length [totalDistance], in order. *)
Definition onCourse (points : list Point) (totalDistance : Q) : Prop :=
  nondecreasing points /\
  Forall (fun p => 0 <= dist p /\ dist p <= totalDistance) points.

(** The distance at which the last of [cs] ends, [d] when there is none. *)
Definition coveredEnd (d : Q) (cs : list Chunk.t) : Q :=
  fold_left (fun _ c => Chunk.endDist c) cs d.

(** Chunks laid end to end from the point at distance [d] and elevation
    [e]: each starts at the very point where the one before it ends. *)
Fixpoint chained (d e : Q) (cs : list Chunk.t) : Prop :=
  match cs with
  | [] => True
  | c :: cs' =>
      Chunk.startDist c = d /\ Chunk.startEle c = e /\
      chained (Chunk.endDist c) (Chunk.endEle c) cs'
  end.

(** The chunk runs between two points of the track. *)
Definition betweenPoints (points : list Point) (c : Chunk.t) : Prop :=
  exists p q,
    In p points /\ In q points /\
    Chunk.startDist c = dist p /\ Chunk.startEle c = ele p /\
    Chunk.endDist c = dist q /\ Chunk.endEle c = ele q.

(** What step 1 guarantees of each chunk. *)
Definition chunkOk (points : list Point) (c : Chunk.t) : Prop :=
  CHUNK_SIZE <= Chunk.endDist c - Chunk.startDist c /\
  Chunk.gain c = Chunk.endEle c - Chunk.startEle c /\
  betweenPoints points c.

(** [xs.reduce((acc, x) => acc + x, 0)] *)
Definition sumQ (xs : list Q) : Q := fold_left Qplus xs 0.

(** What step 2 guarantees of every climb, whatever the chunks: it is a
    non-empty run of uphill chunks, it starts where its first chunk starts,
    ends where its last chunk ends, and its gain is the sum of their gains. *)
Definition climbShape (c : Climb.t) : Prop :=
  exists f tl,
    Climb.chunks c = f :: tl /\
    Climb.startDist c = Chunk.startDist f /\
    Climb.endDist c = Chunk.endDist (last tl f) /\
    Climb.gain c == sumQ (map Chunk.gain (f :: tl)) /\
    Forall (fun k => isUphill k = true) (f :: tl).

(** What it guarantees in addition when the chunks are laid end to end: the
    gain is the elevation at the end of the last chunk less the elevation at
    the start of the first, the climb is at least one chunk long, and its
    own chunks are laid end to end.  The last chunk ends at distance [d] and
    elevation [e]. *)
Definition climbSpanAt (c : Climb.t) (d e : Q) : Prop :=
  exists f tl,
    Climb.chunks c = f :: tl /\
    Climb.startDist c = Chunk.startDist f /\
    Climb.endDist c = d /\
    Chunk.endDist (last tl f) = d /\
    Chunk.endEle (last tl f) = e /\
    Climb.gain c == e - Chunk.startEle f /\
    Climb.startDist c + CHUNK_SIZE <= Climb.endDist c /\
    chained (Chunk.startDist f) (Chunk.startEle f) (f :: tl).

Definition climbSpan (c : Climb.t) : Prop :=
  exists d e, climbSpanAt c d e.

(** The climb [a] is over before the climb [b] begins. *)
Definition before (a b : Climb.t) : Prop :=
  Climb.endDist a <= Climb.startDist b.

(** The state of the aggregation over chunks taken from [all]. *)
Definition shapeInv (all : list Chunk.t) (st : AggState) : Prop :=
  Forall (fun c => climbShape c /\ incl (Climb.chunks c) all) (fst st) /\
  (forall c, snd st = Some c -> climbShape c /\ incl (Climb.chunks c) all).

(** The state of the aggregation over chunks laid end to end, when the
    chunk taken last ended at distance [d] and elevation [e]. *)
Definition spanInv (d e : Q) (st : AggState) : Prop :=
  Forall climbSpan (fst st) /\
  StronglySorted before (fst st) /\
  match snd st with
  | None => Forall (fun c => Climb.endDist c <= d) (fst st)
  | Some c =>
      climbSpanAt c d e /\
      Forall (fun c' => Climb.endDist c' <= Climb.startDist c) (fst st)
  end.

(** Two points are the same sample: same coordinates and elevation, equal
    distances. *)
Definition samePoint (p q : Point) : Prop :=
  lat p = lat q /\ lon p = lon q /\ ele p = ele q /\ dist p == dist q.

(** The states the page goes through keep at least one lap and hold base
    data only as [processGPX] builds them. *)
Definition stateOk (haversineDistance : Q -> Q -> Q -> Q -> Q) {FD : Type}
  (st : AppState FD) : Prop :=
  (1 <= laps st)%nat /\
  forall bd, baseData st = Some bd ->
             exists trkpts, buildTrack haversineDistance trkpts = inr bd.

(** ** Example tracks *)

Definition trackPoint (d e : Q) : Point := mkPoint 0 0 e d.

(** Scenario A: ten points at the same elevation, a km apart. *)
Definition scenarioA : list Point :=
  map (fun k => trackPoint (ofNat k) 120) (seq 0 10).

(** Scenario B: a course of 50 km with a point at every km, flat at 0 m up
    to km 45, then rising 50 m per km (5 %) to finish at 250 m. *)
Definition scenarioB : list Point :=
  map (fun k =>
         trackPoint (ofNat k)
                    (if Nat.leb k 45 then 0 else ofNat (k - 45) * 50))
      (seq 0 51).

(** Its one climb, as [analyzeRoute] detects it. *)
Definition scenarioBClimb : Climb.t :=
  Eval vm_compute in
    match climbs scenarioB with
    | c :: _ => c
    | [] => Climb.mk 0 0 0 []
    end.

(** An ordered track whose last 50 m do not make a chunk. *)
Definition shortTrack : list Point :=
  [trackPoint 0 100; trackPoint 0.1 101; trackPoint 0.25 110;
   trackPoint 0.3 111; trackPoint 0.5 120; trackPoint 0.55 119].

(** A point array whose distances fall back, which no track of the page
    does. *)
Definition unorderedTrack : list Point :=
  [trackPoint 10 0; trackPoint 10.2 100; trackPoint 0 50; trackPoint 0.2 150].

(** A stand-in for the great-circle distance on the examples: degrees read
    as km, along the axes. *)
Definition axisDistance (lat1 lon1 lat2 lon2 : Q) : Q :=
  Qabs (lat2 - lat1) + Qabs (lon2 - lon1).

(** A lap of 3 km sampled every 250 m: 80 m up in the first km, then
    level. *)
Definition sampleTrkpts : list RawPoint :=
  map (fun k =>
         mkRawPoint (ofNat k * 0.25) 0
                    (if Nat.leb k 4 then ofNat k * 20 else 80))
      (seq 0 13).

Definition sampleBase : BaseData.t :=
  Eval vm_compute in
    match buildTrack axisDistance sampleTrkpts with
    | inr bd => bd
    | inl _ => BaseData.mk [] 0
    end.

(** A store that holds the two points of a lap of 5 km. *)
Definition sampleHeap : Store.Heap := [trackPoint 0 10; trackPoint 5 20].

Definition sampleRefs : list Store.Ref := [0%nat; 1%nat].

(** A chunk whose gradient is exactly 1.5, and an open climb. *)
Definition thresholdChunk : Chunk.t := Chunk.mk 1 1.2 1.5 3 100 103.

Definition openClimb : Climb.t :=
  Climb.mk 0.8 1 10 [Chunk.mk 0.8 1 5 10 90 100].

(** ** The rest of the page [src/pages/PCS profiler.jsx] *)

(** [{ ...climb, name: value }] *)
Definition withName (value : String.string) (c : Profiler.Scored.t)
  : Profiler.Scored.t :=
  Profiler.Scored.mk
    (Profiler.Scored.startDist c) (Profiler.Scored.endDist c)
    (Profiler.Scored.gain c) (Profiler.Scored.chunks c)
    (Profiler.Scored.id c) value
    (Profiler.Scored.lengthKm c) (Profiler.Scored.gradientAvg c)
    (Profiler.Scored.maxGradient c) (Profiler.Scored.rawScore c)
    (Profiler.Scored.multiplier c) (Profiler.Scored.finalScore c)
    (Profiler.Scored.distFromFinish c).

(** [xs[index] = f(xs[index])], for an index inside the array. *)
Fixpoint updateAt {A : Type} (index : nat) (f : A -> A) (xs : list A)
  : list A :=
  match xs with
  | [] => []
  | x :: xs' =>
      match index with
      | O => f x :: xs'
      | S index' => x :: updateAt index' f xs'
      end
  end.

(** The updater that [updateClimbName(index, value)] gives to [setFileData]:
    [null] stays [null]; the climbs are copied and the one at [index], when
    [index >= 0 && index < newClimbs.length], gets the name. *)
Definition updateClimbName (index : Z) (value : String.string)
  (prev : option Profiler.FileData.t) : option Profiler.FileData.t :=
  match prev with
  | None => None
  | Some prev =>
      let climbs := Profiler.FileData.climbs prev in
      let newClimbs :=
        if ((0 <=? index)%Z && (index <? Z.of_nat (List.length climbs))%Z)%bool
        then updateAt (Z.to_nat index) (withName value) climbs
        else climbs in
      Some (Profiler.FileData.mk
              (Profiler.FileData.points prev)
              (Profiler.FileData.totalDistance prev)
              (Profiler.FileData.totalClimbing prev)
              (Profiler.FileData.totalGain prev)
              (Profiler.FileData.maxEle prev)
              (Profiler.FileData.minEle prev)
              newClimbs
              (Profiler.FileData.totalScore prev)
              (Profiler.FileData.finalProfileScore prev))
  end.

(** The state after [updateClimbName(index, value)]. *)
Definition renameClimb (index : Z) (value : String.string)
  (st : AppState Profiler.FileData.t) : AppState Profiler.FileData.t :=
  mkAppState (updateClimbName index value (fileData st)) (baseData st)
             (baseDataId st) (laps st) (isProcessing st) (console st).

(** The button "New Analysis": [setFileData(null)]. *)
Definition newAnalysis (st : AppState Profiler.FileData.t)
  : AppState Profiler.FileData.t :=
  mkAppState None (baseData st) (baseDataId st) (laps st)
             (isProcessing st) (console st).

(** The states the page goes through, from the initial one, by its
    handlers, each followed by the effect it triggers. *)
Inductive reachable (haversineDistance : Q -> Q -> Q -> Q -> Q)
  : AppState Profiler.FileData.t -> Prop :=
| reach_initial : reachable haversineDistance initialState
| reach_processGPX trkpts st :
    reachable haversineDistance st ->
    reachable haversineDistance
      (update Profiler.analyzeRoute (processGPX haversineDistance trkpts) st)
| reach_decrementLaps st :
    reachable haversineDistance st ->
    reachable haversineDistance (update Profiler.analyzeRoute decrementLaps st)
| reach_incrementLaps st :
    reachable haversineDistance st ->
    reachable haversineDistance (update Profiler.analyzeRoute incrementLaps st)
| reach_renameClimb index value st :
    reachable haversineDistance st ->
    reachable haversineDistance
      (update Profiler.analyzeRoute (renameClimb index value) st)
| reach_newAnalysis st :
    reachable haversineDistance st ->
    reachable haversineDistance (update Profiler.analyzeRoute newAnalysis st).

(** Two results that differ in the names of their climbs at most. *)
Definition sameButNames (a b : Profiler.FileData.t) : Prop :=
  Profiler.FileData.points a = Profiler.FileData.points b /\
  Profiler.FileData.totalDistance a = Profiler.FileData.totalDistance b /\
  Profiler.FileData.totalClimbing a = Profiler.FileData.totalClimbing b /\
  Profiler.FileData.totalGain a = Profiler.FileData.totalGain b /\
  Profiler.FileData.maxEle a = Profiler.FileData.maxEle b /\
  Profiler.FileData.minEle a = Profiler.FileData.minEle b /\
  Profiler.FileData.totalScore a = Profiler.FileData.totalScore b /\
  Profiler.FileData.finalProfileScore a = Profiler.FileData.finalProfileScore b /\
  Forall2 (fun c d => c = withName (Profiler.Scored.name c) d)
          (Profiler.FileData.climbs a) (Profiler.FileData.climbs b).

(** *** The component [ElevationChart]

    The numbers of the chart: the scaling, the points kept for display
    and, for each climb, the points of its overlay and the place of its
    number.  The grid, the axis labels and the strings that the component
    prints these numbers into (the path data) are not modelled. *)
Module ElevationChart.

Definition height : Q := 250.
Definition width : Q := 800.
Definition vPadding : Q := 20.
Definition hPadding : Q := 5.

(** [xs.filter((_, i) => keep(i))], counting from [index]. *)
Fixpoint filteriFrom {A : Type} (keep : nat -> bool) (index : nat)
  (xs : list A) : list A :=
  match xs with
  | [] => []
  | x :: xs' =>
      if keep index then x :: filteriFrom keep (S index) xs'
      else filteriFrom keep (S index) xs'
  end.

Definition filteri {A : Type} (keep : nat -> bool) (xs : list A) : list A :=
  filteriFrom keep 0%nat xs.

(** [displayPoints]: all the points when there are fewer than 500, else
    every [factor]-th one, [factor = Math.floor(points.length / 500)]. *)
Definition displayPoints (points : list Point) : list Point :=
  if (List.length points <? 500)%nat then points
  else
    let factor := (List.length points / 500)%nat in
    filteri (fun i => (i mod factor =? 0)%nat) points.

Definition safeTotalDistance (totalDistance : Q) : Q :=
  if Qgtb totalDistance 0 then totalDistance else 1.

Definition safeEleRange (minEle maxEle : Q) : Q :=
  if Qgtb (maxEle - minEle) 0 then maxEle - minEle else 1.

Definition getX (totalDistance : Q) (dist : Q) : Q :=
  hPadding + (dist / safeTotalDistance totalDistance) * (width - hPadding * 2).

Definition getY (minEle maxEle : Q) (ele : Q) : Q :=
  height - vPadding
  - ((ele - minEle) / safeEleRange minEle maxEle * (height - vPadding * 2)).

(** [Math.abs] *)
Definition mathAbs (x : Q) : Q := Qabs x.

(** [points.reduce((prev, curr) => ... ? curr : prev, points[0])]: the point
    nearest to [midDist], the earlier one on a tie; [None] is the
    [undefined] of an empty array. *)
Definition midPoint (points : list Point) (midDist : Q) : option Point :=
  match points with
  | [] => None
  | p0 :: _ =>
      Some (fold_left
              (fun prev curr =>
                 if Qltb (mathAbs (dist curr - midDist))
                         (mathAbs (dist prev - midDist))
                 then curr else prev)
              points p0)
  end.

(** [points.filter(p => p.dist >= climb.startDist && p.dist <= climb.endDist)] *)
Definition climbPoints (points : list Point) (climb : Profiler.Scored.t)
  : list Point :=
  filter (fun p => Qgeb (dist p) (Profiler.Scored.startDist climb)
                   && Qleb (dist p) (Profiler.Scored.endDist climb))
         points.

(** [Math.max(1, Math.floor(climbPoints.length / 50))] *)
Definition step (climbPoints : list Point) : nat :=
  Nat.max 1 (List.length climbPoints / 50).

(** [climbPoints.filter((_, idx) => idx % step === 0)] *)
Definition pts (climbPoints : list Point) : list Point :=
  filteri (fun idx => (idx mod step climbPoints =? 0)%nat) climbPoints.

(** The colours of the overlays. *)
Inductive Color : Type :=
| Red      (* '#ef4444' *)
| Orange   (* '#f97316' *)
| Green.   (* '#10b981' *)

Definition color (climb : Profiler.Scored.t) : Color :=
  if Qgtb (Profiler.Scored.gradientAvg climb) 8 then Red
  else if Qgtb (Profiler.Scored.gradientAvg climb) 5 then Orange
  else Green.

(** An element of [climbData].  [line] holds the points of [topPath]
    scaled to the chart, in the order in which the path visits them. *)
Module Overlay.
Record t : Type := mk {
  line : list (Q * Q);
  color : Color;
  id : nat;
  key : Q;
  numberCoords : Q * Q * Q
}.
End Overlay.

(** The callback of [climbs.map((climb, index) => ...)]: [None] is the
    [null] returned for fewer than 2 points (and stands for the
    [TypeError] on an empty [points], which no climb can come from). *)
Definition overlay (points : list Point) (totalDistance minEle maxEle : Q)
  (climb : Profiler.Scored.t) : option Overlay.t :=
  let climbPoints := climbPoints points climb in
  let midDist :=
    Profiler.Scored.startDist climb + (Profiler.Scored.lengthKm climb / 2) in
  let ps := pts climbPoints in
  if (List.length ps <? 2)%nat then None
  else
    match midPoint points midDist with
    | None => None
    | Some midPoint =>
        let numberX := getX totalDistance (dist midPoint) in
        let numberY := getY minEle maxEle (ele midPoint) - 25 in
        Some (Overlay.mk
                (map (fun p => (getX totalDistance (dist p),
                                getY minEle maxEle (ele p))) ps)
                (color climb)
                (Profiler.Scored.id climb)
                (Profiler.Scored.startDist climb + Profiler.Scored.endDist climb)
                (numberX, numberY, ele midPoint))
    end.

(** [climbData]: [climbs.map(...).filter(c => c !== null)] *)
Fixpoint dropNull {A : Type} (xs : list (option A)) : list A :=
  match xs with
  | [] => []
  | Some x :: xs' => x :: dropNull xs'
  | None :: xs' => dropNull xs'
  end.

Definition climbData (points : list Point)
  (climbs : list Profiler.Scored.t) (totalDistance minEle maxEle : Q)
  : list Overlay.t :=
  dropNull (map (overlay points totalDistance minEle maxEle) climbs).

End ElevationChart.

(** ** Vocabulary for the pages *)

(** The two pages give a climb the same measures and scores. *)
Definition sameScores (a : Tpv.Scored.t) (b : Profiler.Scored.t) : Prop :=
  Tpv.Scored.startDist a = Profiler.Scored.startDist b /\
  Tpv.Scored.endDist a = Profiler.Scored.endDist b /\
  Tpv.Scored.gain a = Profiler.Scored.gain b /\
  Tpv.Scored.chunks a = Profiler.Scored.chunks b /\
  Tpv.Scored.lengthKm a = Profiler.Scored.lengthKm b /\
  Tpv.Scored.gradientAvg a = Profiler.Scored.gradientAvg b /\
  Tpv.Scored.rawScore a = Profiler.Scored.rawScore b /\
  Tpv.Scored.multiplier a = Profiler.Scored.multiplier b /\
  Tpv.Scored.finalScore a = Profiler.Scored.finalScore b /\
  Tpv.Scored.distFromFinish a = Profiler.Scored.distFromFinish b.

(** The result on display, if any, is the analysis of the base data at the
    current number of laps, up to the names given to its climbs. *)
Definition upToDate (st : AppState Profiler.FileData.t) : Prop :=
  forall fd,
    fileData st = Some fd ->
    exists bd fd0,
      baseData st = Some bd /\
      Profiler.analyzeRoute (fullPoints bd (laps st))
                            (totalDistance bd (laps st)) = Some fd0 /\
      sameButNames fd fd0.

(** The chunks taken into climbs so far, in order. *)
Definition collected (st : AggState) : list Chunk.t :=
  concat (map Climb.chunks (fst st))
  ++ match snd st with
     | Some c => Climb.chunks c
     | None => []
     end.

(** No point of the track is higher than a point before it. *)
Definition neverRises (points : list Point) : Prop :=
  StronglySorted (fun p q => ele q <= ele p) points.

(** ** Steps 1 and 2 in double precision

    The numbers of the page are IEEE 754 binary64 values.  The module
    repeats the two first steps of [analyzeRoute] on them, operation by
    operation, to tell what the rounding of the additions does to the gain of
    a climb. *)
Module Double.

Import PrimFloat.
Local Open Scope float_scope.
#[local] Set Warnings "-inexact-float".

(** [{ lat, lon, ele, dist }] *)
Record Point : Type := mkPoint {
  lat : float;
  lon : float;
  ele : float;
  dist : float
}.

Module Chunk.
Record t : Type := mk {
  startDist : float;
  endDist : float;
  gradient : float;
  gain : float;
  startEle : float;
  endEle : float
}.
End Chunk.

Module Climb.
Record t : Type := mk {
  startDist : float;
  endDist : float;
  gain : float;
  chunks : list Chunk.t
}.
End Climb.

Definition CHUNK_SIZE : float := 0.2.

(** [while (j < points.length && points[j].dist - start.dist < CHUNK_SIZE) j++] *)
Fixpoint scan (start : Point) (rest : list Point) : list Point :=
  match rest with
  | [] => []
  | p :: rest' =>
      if dist p - dist start <? CHUNK_SIZE then scan start rest' else rest
  end.

Definition mkChunk (start end_ : Point) : Chunk.t :=
  let dist_ := dist end_ - dist start in
  let gain := ele end_ - ele start in
  let gradient := (gain / (dist_ * 1000)) * 100 in
  Chunk.mk (dist start) (dist end_) gradient gain (ele start) (ele end_).

(** [for (let i = 0; i < points.length; i++)] *)
Equations chunkLoop (pts : list Point) : list Chunk.t
  by wf (List.length pts) lt :=
  chunkLoop [] := [];
  chunkLoop (start :: rest) with inspect (scan start rest) := {
    | exist _ [] _ := chunkLoop rest;
    | exist _ (end_ :: rest') _ :=
        mkChunk start end_ :: chunkLoop (end_ :: rest')
  }.
Next Obligation.
  assert (H : forall l, (List.length (scan start l) <= List.length l)%nat).
  { induction l as [|p l IH]; simpl; [lia|].
    destruct (_ <? _); simpl; lia. }
  specialize (H rest). rewrite e in H. simpl in *. lia.
Qed.

Definition chunks (points : list Point) : list Chunk.t := chunkLoop points.

(** [chunk.gradient > 1.5] *)
Definition isUphill (chunk : Chunk.t) : bool := 1.5 <? Chunk.gradient chunk.

Definition AggState : Type := (list Climb.t * option Climb.t)%type.

(** The body of [chunks.forEach]; [currentClimb.gain += chunk.gain] is an
    addition of doubles. *)
Definition aggStep (st : AggState) (chunk : Chunk.t) : AggState :=
  let '(climbs, currentClimb) := st in
  if isUphill chunk then
    match currentClimb with
    | None =>
        (climbs,
         Some (Climb.mk (Chunk.startDist chunk) (Chunk.endDist chunk)
                        (Chunk.gain chunk) [chunk]))
    | Some c =>
        (climbs,
         Some (Climb.mk (Climb.startDist c) (Chunk.endDist chunk)
                        (Climb.gain c + Chunk.gain chunk)
                        (Climb.chunks c ++ [chunk])))
    end
  else
    match currentClimb with
    | Some c => (climbs ++ [c], None)
    | None => (climbs, None)
    end.

Definition flush (st : AggState) : list Climb.t :=
  match snd st with
  | Some c => fst st ++ [c]
  | None => fst st
  end.

Definition aggregate (chunks : list Chunk.t) : list Climb.t :=
  flush (fold_left aggStep chunks ([], None)).

Definition climbs (points : list Point) : list Climb.t :=
  aggregate (chunks points).

(** The sum [(g1 + g2) + ... + gn] as the loop forms it. *)
Definition sumInOrder (f : Chunk.t) (tl : list Chunk.t) : float :=
  fold_left add (map Chunk.gain tl) (Chunk.gain f).


(** What the aggregation keeps of a climb: a non-empty run of uphill
    chunks of [all], whose gains it has added up in order. *)
Definition climbShape (all : list Chunk.t) (c : Climb.t) : Prop :=
  exists f tl,
    Climb.chunks c = f :: tl /\
    Climb.startDist c = Chunk.startDist f /\
    Climb.endDist c = Chunk.endDist (last tl f) /\
    Climb.gain c = sumInOrder f tl /\
    Forall (fun k => isUphill k = true /\ In k all) (f :: tl).

Definition shapeInv (all : list Chunk.t) (st : AggState) : Prop :=
  Forall (climbShape all) (fst st) /\
  (forall c, snd st = Some c -> climbShape all c).

(** Three points 500 m apart, at 1 m, 11.1 m and 31.3 m. *)
Definition roundingTrack : list Point :=
  [mkPoint 0 0 1 0; mkPoint 0 0 11.1 0.5; mkPoint 0 0 31.3 1].

End Double.

(** * Properties *)

(** ** Comparisons *)

Lemma Qltb_lt (x y : Q) : Qltb x y = true <-> x < y.
Proof.
  unfold Qltb. rewrite negb_true_iff.
  split; intros H.
  - apply Qnot_le_lt. intros Hle. apply Qle_bool_iff in Hle. congruence.
  - destruct (Qle_bool y x) eqn:E; [|reflexivity].
    apply Qle_bool_iff in E. lra.
Qed.

Lemma Qltb_ge (x y : Q) : Qltb x y = false <-> y <= x.
Proof.
  unfold Qltb. rewrite negb_false_iff. apply Qle_bool_iff.
Qed.

Lemma Qgtb_gt (x y : Q) : Qgtb x y = true <-> y < x.
Proof. apply Qltb_lt. Qed.

Lemma Qgtb_le (x y : Q) : Qgtb x y = false <-> x <= y.
Proof. apply Qltb_ge. Qed.

Lemma Qleb_le (x y : Q) : Qleb x y = true <-> x <= y.
Proof. apply Qle_bool_iff. Qed.

Lemma Qleb_gt (x y : Q) : Qleb x y = false <-> y < x.
Proof.
  unfold Qleb. split; intros H.
  - apply Qnot_le_lt. intros Hle. apply Qle_bool_iff in Hle. congruence.
  - destruct (Qle_bool x y) eqn:E; [|reflexivity].
    apply Qle_bool_iff in E. lra.
Qed.

Lemma Qgeb_ge (x y : Q) : Qgeb x y = true <-> y <= x.
Proof. apply Qle_bool_iff. Qed.

(** The outcome of the comparisons of the code, as propositions. *)
Ltac qprop :=
  repeat match goal with
         | H : Qltb _ _ = true |- _ => apply Qltb_lt in H
         | H : Qltb _ _ = false |- _ => apply Qltb_ge in H
         | H : Qgtb _ _ = true |- _ => apply Qgtb_gt in H
         | H : Qgtb _ _ = false |- _ => apply Qgtb_le in H
         | H : Qleb _ _ = true |- _ => apply Qleb_le in H
         | H : Qleb _ _ = false |- _ => apply Qleb_gt in H
         | H : Qgeb _ _ = true |- _ => apply Qgeb_ge in H
         end.

Lemma CHUNK_SIZE_pos : 0 < CHUNK_SIZE.
Proof. reflexivity. Qed.

(** ** Step 1: the chunks *)

Lemma chunkLoop_cons (start : Point) (rest : list Point) :
  chunkLoop (start :: rest) =
  match scan start rest with
  | [] => chunkLoop rest
  | end_ :: rest' => mkChunk start end_ :: chunkLoop (end_ :: rest')
  end.
Proof.
  rewrite chunkLoop_equation_2.
  change (scan start rest) with (proj1_sig (inspect (scan start rest))) at 2.
  destruct (inspect (scan start rest)) as [[|e r] H]; reflexivity.
Qed.

Lemma scan_none (start : Point) (rest : list Point) :
  scan start rest = [] ->
  Forall (fun p => dist p - dist start < CHUNK_SIZE) rest.
Proof.
  induction rest as [|p rest IH]; simpl; intros H; [constructor|].
  destruct (Qltb (dist p - dist start) CHUNK_SIZE) eqn:E; [|discriminate].
  constructor; [now apply Qltb_lt|auto].
Qed.

Lemma scan_some (start : Point) (rest : list Point) (end_ : Point)
  (rest' : list Point) :
  scan start rest = end_ :: rest' ->
  CHUNK_SIZE <= dist end_ - dist start /\
  exists skipped,
    rest = skipped ++ end_ :: rest' /\
    Forall (fun p => dist p - dist start < CHUNK_SIZE) skipped.
Proof.
  induction rest as [|p rest IH]; simpl; intros H; [discriminate|].
  destruct (Qltb (dist p - dist start) CHUNK_SIZE) eqn:E.
  - destruct (IH H) as [Hsz [skipped [-> Hsk]]].
    split; [exact Hsz|]. exists (p :: skipped). split; [reflexivity|].
    constructor; [now apply Qltb_lt|exact Hsk].
  - injection H as -> ->. apply Qltb_ge in E.
    split; [exact E|]. exists []. split; [reflexivity|constructor].
Qed.

Lemma nondecreasing_tail (p : Point) (rest : list Point) :
  nondecreasing (p :: rest) -> nondecreasing rest.
Proof.
  unfold nondecreasing. destruct rest as [|q rest]; [reflexivity|].
  simpl. intros H. apply andb_true_iff in H. apply H.
Qed.

Lemma nondecreasing_suffix (skipped rest : list Point) :
  nondecreasing (skipped ++ rest) -> nondecreasing rest.
Proof.
  induction skipped as [|p skipped IH]; simpl; [auto|].
  intros H. apply IH. exact (nondecreasing_tail _ _ H).
Qed.

Lemma nondecreasing_head (p : Point) (rest : list Point) :
  nondecreasing (p :: rest) -> Forall (fun q => dist p <= dist q) rest.
Proof.
  revert p. induction rest as [|q rest IH]; intros p H; [constructor|].
  pose proof (nondecreasing_tail _ _ H) as Ht.
  unfold nondecreasing in H. simpl in H. apply andb_true_iff in H.
  destruct H as [Hpq _]. apply Qleb_le in Hpq.
  constructor; [exact Hpq|].
  eapply Forall_impl; [|exact (IH q Ht)].
  simpl. intros r Hr. lra.
Qed.

(** Induction along the runs of the outer loop. *)
Lemma chunkLoop_runs (P : list Point -> list Chunk.t -> Prop) :
  P [] [] ->
  (forall start rest,
      scan start rest = [] ->
      P rest (chunkLoop rest) ->
      P (start :: rest) (chunkLoop rest)) ->
  (forall start rest end_ rest',
      scan start rest = end_ :: rest' ->
      P (end_ :: rest') (chunkLoop (end_ :: rest')) ->
      P (start :: rest) (mkChunk start end_ :: chunkLoop (end_ :: rest'))) ->
  forall pts, P pts (chunkLoop pts).
Proof.
  intros Hnil Hstop Hpush pts.
  remember (List.length pts) as n eqn:Hn.
  revert pts Hn. induction n as [n IH] using lt_wf_ind. intros pts Hn.
  destruct pts as [|start rest].
  - rewrite chunkLoop_equation_1. exact Hnil.
  - rewrite chunkLoop_cons.
    destruct (scan start rest) as [|end_ rest'] eqn:E.
    + apply Hstop; [exact E|].
      apply (IH (List.length rest)); [subst n; simpl; lia|reflexivity].
    + apply Hpush; [exact E|].
      destruct (scan_some _ _ _ _ E) as [_ [skipped [Hrest _]]].
      apply (IH (List.length (end_ :: rest'))); [|reflexivity].
      subst n rest. simpl. rewrite length_app. simpl. lia.
Qed.

Lemma scan_short (start : Point) (rest : list Point) :
  Forall (fun p => dist p - dist start < CHUNK_SIZE) rest ->
  scan start rest = [].
Proof.
  induction 1 as [|p rest Hp _ IH]; simpl; [reflexivity|].
  apply Qltb_lt in Hp. rewrite Hp. exact IH.
Qed.

(** Points that all lie less than a chunk apart yield no chunk. *)
Lemma chunkLoop_short (d : Q) (pts : list Point) :
  Forall (fun p => d <= dist p /\ dist p - d < CHUNK_SIZE) pts ->
  chunkLoop pts = [].
Proof.
  induction 1 as [|start rest Hs Hrest IH].
  - apply chunkLoop_equation_1.
  - rewrite chunkLoop_cons, scan_short; [exact IH|].
    eapply Forall_impl; [|exact Hrest]. simpl. intros p Hp. lra.
Qed.

(** Every pushed chunk spans at least [CHUNK_SIZE], carries the elevation
    difference of its two end points as its gain, and runs between two
    points of the track; this needs no assumption on the track. *)
Lemma chunks_ok (points : list Point) :
  Forall (chunkOk points) (chunks points).
Proof.
  unfold chunks.
  enough (H : forall all, incl points all ->
                          Forall (chunkOk all) (chunkLoop points))
    by (apply H, incl_refl).
  apply (chunkLoop_runs
           (fun pts cs => forall all, incl pts all -> Forall (chunkOk all) cs)).
  - constructor.
  - intros start rest _ IH all Hincl. apply IH.
    intros p Hp. apply Hincl. now right.
  - intros start rest end_ rest' E IH all Hincl.
    destruct (scan_some _ _ _ _ E) as [Hsz [skipped [Hrest _]]].
    assert (Hend : In end_ (start :: rest)).
    { right. rewrite Hrest. apply in_or_app. right. now left. }
    constructor.
    + repeat split; simpl; [exact Hsz|].
      exists start, end_. repeat split; auto. apply Hincl. now left.
    + apply IH. intros p Hp. apply Hincl. right. rewrite Hrest.
      apply in_or_app. right. exact Hp.
Qed.

(** On an ordered track the chunks are laid end to end from the first
    point. *)
Lemma chunks_chained (p0 : Point) (rest : list Point) :
  nondecreasing (p0 :: rest) ->
  chained (dist p0) (ele p0) (chunks (p0 :: rest)).
Proof.
  unfold chunks.
  enough (H : forall pts,
             nondecreasing pts ->
             match pts with
             | [] => True
             | p :: _ => chained (dist p) (ele p) (chunkLoop pts)
             end) by (exact (H (p0 :: rest))).
  clear p0 rest. intros pts.
  apply (chunkLoop_runs
           (fun pts cs => nondecreasing pts ->
                          match pts with
                          | [] => True
                          | p :: _ => chained (dist p) (ele p) cs
                          end)).
  - trivial.
  - intros start rest E _ Hnd.
    rewrite (chunkLoop_short (dist start) rest); [exact I|].
    pose proof (nondecreasing_head _ _ Hnd) as Hge.
    pose proof (scan_none _ _ E) as Hlt.
    rewrite Forall_forall in *. intros p Hp. split; auto.
  - intros start rest end_ rest' E IH Hnd. simpl.
    repeat split.
    apply IH.
    destruct (scan_some _ _ _ _ E) as [_ [skipped [Hrest _]]].
    apply nondecreasing_tail in Hnd. rewrite Hrest in Hnd.
    exact (nondecreasing_suffix _ _ Hnd).
Qed.

Lemma last_app_cons {A : Type} (xs : list A) (y : A) (ys : list A) (d : A) :
  last (xs ++ y :: ys) d = last (y :: ys) d.
Proof.
  induction xs as [|x xs IH]; [reflexivity|].
  simpl app. rewrite <- IH.
  destruct (xs ++ y :: ys) eqn:E; [destruct xs; discriminate|reflexivity].
Qed.

Lemma last_cons_default {A : Type} (x : A) (xs : list A) (d d' : A) :
  last (x :: xs) d = last (x :: xs) d'.
Proof.
  revert x. induction xs as [|y xs IH]; intros x; [reflexivity|].
  change (last (x :: y :: xs) d) with (last (y :: xs) d).
  change (last (x :: y :: xs) d') with (last (y :: xs) d').
  apply IH.
Qed.

Lemma last_cons_shift {A : Type} (x : A) (xs : list A) (d : A) :
  last (x :: xs) d = last xs x.
Proof.
  destruct xs as [|y xs]; [reflexivity|].
  change (last (x :: y :: xs) d) with (last (y :: xs) d).
  apply last_cons_default.
Qed.

Lemma last_In {A : Type} (xs : list A) :
  forall x, In (last xs x) (x :: xs).
Proof.
  induction xs as [|y xs IH]; intros x; [now left|].
  right. rewrite last_cons_shift. apply IH.
Qed.

(** On an ordered track the chunks stop less than [CHUNK_SIZE] short of the
    last point: what is left of the course after the last chunk is too short
    to be a chunk, and it is not pushed. *)
Lemma chunks_remainder (p0 : Point) (rest : list Point) :
  nondecreasing (p0 :: rest) ->
  let stop := coveredEnd (dist p0) (chunks (p0 :: rest)) in
  let finish := dist (last (p0 :: rest) p0) in
  stop <= finish /\ finish - stop < CHUNK_SIZE.
Proof.
  unfold chunks.
  enough (H : forall pts,
             nondecreasing pts ->
             match pts with
             | [] => True
             | p :: _ =>
                 coveredEnd (dist p) (chunkLoop pts) <= dist (last pts p) /\
                 dist (last pts p) - coveredEnd (dist p) (chunkLoop pts)
                 < CHUNK_SIZE
             end) by (exact (H (p0 :: rest))).
  clear p0 rest. intros pts.
  apply (chunkLoop_runs
           (fun pts cs => nondecreasing pts ->
              match pts with
              | [] => True
              | p :: _ =>
                  coveredEnd (dist p) cs <= dist (last pts p) /\
                  dist (last pts p) - coveredEnd (dist p) cs < CHUNK_SIZE
              end)).
  - trivial.
  - intros start rest E _ Hnd.
    pose proof (nondecreasing_head _ _ Hnd) as Hge.
    pose proof (scan_none _ _ E) as Hlt.
    rewrite (chunkLoop_short (dist start) rest).
    2:{ rewrite Forall_forall in *. intros p Hp. split; auto. }
    unfold coveredEnd. simpl fold_left.
    destruct rest as [|q rest]; [simpl; pose proof CHUNK_SIZE_pos; lra|].
    assert (Hin : In (last (q :: rest) start) (q :: rest)).
    { destruct (exists_last (l := q :: rest)) as [l' [a Hl]]; [discriminate|].
      rewrite Hl. rewrite last_last. apply in_or_app. right. now left. }
    change (last (start :: q :: rest) start) with (last (q :: rest) start).
    rewrite Forall_forall in *. split; [apply Hge, Hin|apply Hlt, Hin].
  - intros start rest end_ rest' E IH Hnd.
    destruct (scan_some _ _ _ _ E) as [_ [skipped [Hrest _]]].
    assert (Hnd' : nondecreasing (end_ :: rest')).
    { apply nondecreasing_tail in Hnd. rewrite Hrest in Hnd.
      exact (nondecreasing_suffix _ _ Hnd). }
    specialize (IH Hnd').
    assert (Hlast : last (start :: rest) start = last (end_ :: rest') end_).
    { rewrite Hrest.
      change (start :: skipped ++ end_ :: rest')
        with ((start :: skipped) ++ end_ :: rest').
      rewrite last_app_cons. apply last_cons_default. }
    rewrite Hlast. unfold coveredEnd in *. simpl fold_left. exact IH.
Qed.

Lemma chained_adjacent (cs : list Chunk.t) :
  forall d e k c1 c2,
    chained d e cs ->
    nth_error cs k = Some c1 ->
    nth_error cs (S k) = Some c2 ->
    Chunk.endDist c1 = Chunk.startDist c2 /\
    Chunk.endEle c1 = Chunk.startEle c2.
Proof.
  induction cs as [|c cs IH]; intros d e k c1 c2 Hch H1 H2.
  - destruct k; discriminate.
  - destruct Hch as (_ & _ & Hch). destruct k as [|k].
    + injection H1 as <-. destruct cs as [|c' cs]; [discriminate|].
      injection H2 as <-. destruct Hch as (Hd & He & _). auto.
    + exact (IH _ _ k c1 c2 Hch H1 H2).
Qed.

Lemma chained_later (cs : list Chunk.t) :
  forall d e j c,
    chained d e cs ->
    Forall (fun c => CHUNK_SIZE <= Chunk.endDist c - Chunk.startDist c) cs ->
    nth_error cs j = Some c ->
    d <= Chunk.startDist c.
Proof.
  pose proof CHUNK_SIZE_pos as Hpos.
  induction cs as [|c0 cs IH]; intros d e j c Hch Hsz Hj.
  - destruct j; discriminate.
  - destruct Hch as (Hd & _ & Hch). inversion Hsz as [|? ? Hc0 Hsz']; subst.
    destruct j as [|j].
    + injection Hj as <-. lra.
    + specialize (IH _ _ j c Hch Hsz' Hj). lra.
Qed.

Lemma chained_disjoint (cs : list Chunk.t) :
  forall d e i j ci cj,
    chained d e cs ->
    Forall (fun c => CHUNK_SIZE <= Chunk.endDist c - Chunk.startDist c) cs ->
    (i < j)%nat ->
    nth_error cs i = Some ci ->
    nth_error cs j = Some cj ->
    Chunk.endDist ci <= Chunk.startDist cj.
Proof.
  induction cs as [|c0 cs IH]; intros d e i j ci cj Hch Hsz Hij Hi Hj.
  - destruct i; discriminate.
  - destruct Hch as (_ & _ & Hch). inversion Hsz as [|? ? _ Hsz']; subst.
    destruct j as [|j]; [lia|]. destruct i as [|i].
    + injection Hi as <-. exact (chained_later _ _ _ j cj Hch Hsz' Hj).
    + apply (IH _ _ i j ci cj Hch Hsz'); [lia|exact Hi|exact Hj].
Qed.

(** C4. For every point sequence with non-decreasing cumulative distance the
    chunking pass pushes chunks that are back to back (each chunk starts at
    the distance at which the chunk before it ends) and do not overlap,
    every pushed chunk spans at least 0.2 km, the first chunk starts at the
    first point, and the chunks stop less than 0.2 km before the last point:
    the trailing part of the course shorter than 0.2 km is dropped, not
    pushed. *)
Theorem chunking_back_to_back (points : list Point) :
  nondecreasing points ->
  (forall k c1 c2,
      nth_error (chunks points) k = Some c1 ->
      nth_error (chunks points) (S k) = Some c2 ->
      Chunk.endDist c1 = Chunk.startDist c2) /\
  (forall i j ci cj,
      (i < j)%nat ->
      nth_error (chunks points) i = Some ci ->
      nth_error (chunks points) j = Some cj ->
      Chunk.endDist ci <= Chunk.startDist cj) /\
  Forall (fun c => CHUNK_SIZE <= Chunk.endDist c - Chunk.startDist c)
         (chunks points) /\
  (forall p0 rest,
      points = p0 :: rest ->
      (forall c cs, chunks points = c :: cs -> Chunk.startDist c = dist p0) /\
      coveredEnd (dist p0) (chunks points) <= dist (last points p0) /\
      dist (last points p0) - coveredEnd (dist p0) (chunks points)
      < CHUNK_SIZE).
Proof.
  intros Hnd.
  assert (Hsz : Forall (fun c => CHUNK_SIZE <= Chunk.endDist c - Chunk.startDist c)
                       (chunks points)).
  { eapply Forall_impl; [|apply chunks_ok]. intros c Hc. apply Hc. }
  destruct points as [|p0 rest].
  - unfold chunks in *. rewrite chunkLoop_equation_1.
    repeat split; try constructor; try discriminate;
      intros [|?] ?; discriminate.
  - pose proof (chunks_chained p0 rest Hnd) as Hch.
    split; [|split; [|split; [exact Hsz|]]].
    + intros k c1 c2 H1 H2.
      exact (proj1 (chained_adjacent _ _ _ k c1 c2 Hch H1 H2)).
    + intros i j ci cj. exact (chained_disjoint _ _ _ i j ci cj Hch Hsz).
    + intros q0 rest0 E. injection E as <- <-. split.
      * intros c cs E. rewrite E in Hch. apply Hch.
      * exact (chunks_remainder p0 rest Hnd).
Qed.

(** ** Step 2: the climbs *)

Lemma isUphill_gt (chunk : Chunk.t) :
  isUphill chunk = true <-> 1.5 < Chunk.gradient chunk.
Proof. apply Qgtb_gt. Qed.

Lemma isUphill_le (chunk : Chunk.t) :
  isUphill chunk = false <-> Chunk.gradient chunk <= 1.5.
Proof. apply Qgtb_le. Qed.

Lemma last_snoc_cons {A : Type} (tl : list A) (k f : A) :
  last (tl ++ [k]) f = k.
Proof. apply last_last. Qed.

Lemma aggStep_shape (all : list Chunk.t) (st : AggState) (k : Chunk.t) :
  shapeInv all st -> In k all -> shapeInv all (aggStep st k).
Proof.
  destruct st as [acc cur]. unfold shapeInv, aggStep. simpl.
  intros [Hacc Hcur] Hk.
  destruct (isUphill k) eqn:Hup; destruct cur as [c|]; simpl.
  - split; [exact Hacc|]. intros c' E. injection E as <-.
    destruct (Hcur c eq_refl) as [(f & tl & Hck & Hs & He & Hg & Hu) Hincl].
    split.
    + exists f, (tl ++ [k]). simpl. rewrite Hck.
      repeat split; auto.
      * now rewrite last_snoc_cons.
      * rewrite Hg. unfold sumQ. simpl.
        rewrite map_app, fold_left_app. reflexivity.
      * change (f :: tl ++ [k]) with ((f :: tl) ++ [k]).
        apply Forall_app. split; [exact Hu|]. constructor; [exact Hup|constructor].
    + simpl. intros x Hx. apply in_app_or in Hx. destruct Hx as [Hx|[<-|[]]]; auto.
  - split; [exact Hacc|]. intros c' E. injection E as <-. split.
    + exists k, []. simpl. repeat split; auto.
      unfold sumQ. simpl. lra.
    + simpl. intros x [<-|[]]. exact Hk.
  - split; [|discriminate]. apply Forall_app. split; [exact Hacc|].
    constructor; [|constructor]. exact (Hcur c eq_refl).
  - split; [exact Hacc|discriminate].
Qed.

Lemma fold_aggStep_shape (all ks : list Chunk.t) :
  forall st, shapeInv all st -> incl ks all ->
             shapeInv all (fold_left aggStep ks st).
Proof.
  induction ks as [|k ks IH]; intros st Hst Hincl; [exact Hst|].
  simpl. apply IH.
  - apply aggStep_shape; [exact Hst|]. apply Hincl. now left.
  - intros x Hx. apply Hincl. now right.
Qed.

(** Every climb is a non-empty run of uphill chunks of the list. *)
Lemma aggregate_shape (cs : list Chunk.t) :
  Forall (fun c => climbShape c /\ incl (Climb.chunks c) cs) (aggregate cs).
Proof.
  unfold aggregate.
  assert (H0 : shapeInv cs ([], None)) by (split; [constructor|discriminate]).
  pose proof (fold_aggStep_shape cs cs _ H0 (incl_refl _)) as [Hacc Hcur].
  unfold flush. destruct (fold_left aggStep cs ([], None)) as [acc [c|]];
    simpl in *; [|exact Hacc].
  apply Forall_app. split; [exact Hacc|].
  constructor; [exact (Hcur c eq_refl)|constructor].
Qed.

Lemma StronglySorted_snoc {A : Type} (R : A -> A -> Prop) (xs : list A)
  (x : A) :
  StronglySorted R xs -> Forall (fun y => R y x) xs ->
  StronglySorted R (xs ++ [x]).
Proof.
  induction 1 as [|y xs Hs IH Hy]; intros Hall; simpl.
  - constructor; constructor.
  - inversion Hall as [|? ? Hyx Hall']; subst.
    constructor; [exact (IH Hall')|].
    apply Forall_app. split; [exact Hy|]. constructor; [exact Hyx|constructor].
Qed.

Lemma chained_snoc (tl : list Chunk.t) :
  forall d e f k,
    chained d e (f :: tl) ->
    Chunk.startDist k = Chunk.endDist (last tl f) ->
    Chunk.startEle k = Chunk.endEle (last tl f) ->
    chained d e (f :: tl ++ [k]).
Proof.
  induction tl as [|g tl IH]; intros d e f k (Hd & He & Hch) Hkd Hke.
  - simpl in *. auto.
  - split; [exact Hd|]. split; [exact He|].
    change (chained (Chunk.endDist f) (Chunk.endEle f) (g :: tl ++ [k])).
    apply IH; [exact Hch| |].
    + rewrite Hkd, last_cons_shift. reflexivity.
    + rewrite Hke, last_cons_shift. reflexivity.
Qed.

Lemma aggStep_span (d e : Q) (st : AggState) (k : Chunk.t) :
  spanInv d e st ->
  Chunk.startDist k = d -> Chunk.startEle k = e ->
  CHUNK_SIZE <= Chunk.endDist k - Chunk.startDist k ->
  Chunk.gain k = Chunk.endEle k - Chunk.startEle k ->
  spanInv (Chunk.endDist k) (Chunk.endEle k) (aggStep st k).
Proof.
  pose proof CHUNK_SIZE_pos as Hpos.
  destruct st as [acc cur]. unfold spanInv, aggStep. simpl.
  intros (Hacc & Hsorted & Hcur) Hd He Hsz Hgain. subst d e.
  destruct (isUphill k); destruct cur as [c|]; simpl.
  - destruct Hcur as [(f & tl & Hck & Hs & Hed & Hld & Hle & Hg & Hlen & Hch)
                        Hbefore].
    repeat split; auto.
    exists f, (tl ++ [k]). simpl Climb.chunks. simpl Climb.startDist.
    simpl Climb.endDist. simpl Climb.gain.
    rewrite Hck, !last_snoc_cons.
    rewrite Hed in Hlen.
    split; [reflexivity|]. split; [exact Hs|]. split; [reflexivity|].
    split; [reflexivity|]. split; [reflexivity|].
    split; [rewrite Hg, Hgain; lra|]. split; [lra|].
    apply chained_snoc; [exact Hch|now rewrite Hld|now rewrite Hle].
  - repeat split; auto.
    exists k, []. simpl. repeat split; auto.
    + rewrite Hgain. lra.
    + lra.
  - destruct Hcur as [Hc Hbefore].
    assert (Hc' := Hc).
    destruct Hc' as (f & tl & Hck & Hs & Hed & Hld & Hle & Hg & Hlen & Hch).
    rewrite Hed in Hlen.
    repeat split.
    + apply Forall_app. split; [exact Hacc|].
      constructor; [eexists; eexists; exact Hc|constructor].
    + apply StronglySorted_snoc; [exact Hsorted|exact Hbefore].
    + apply Forall_app. split.
      * eapply Forall_impl; [|exact Hbefore]. simpl. intros c' Hc'. lra.
      * constructor; [rewrite Hed; lra|constructor].
  - repeat split; auto.
    eapply Forall_impl; [|exact Hcur]. simpl. intros c' Hc'. lra.
Qed.

Lemma fold_aggStep_span (ks : list Chunk.t) :
  forall d e st,
    spanInv d e st ->
    chained d e ks ->
    Forall (fun k => CHUNK_SIZE <= Chunk.endDist k - Chunk.startDist k /\
                     Chunk.gain k = Chunk.endEle k - Chunk.startEle k) ks ->
    exists d' e', spanInv d' e' (fold_left aggStep ks st).
Proof.
  induction ks as [|k ks IH]; intros d e st Hst Hch Hok.
  - exists d, e. exact Hst.
  - destruct Hch as (Hd & He & Hch). inversion Hok as [|? ? [Hsz Hg] Hok']; subst.
    simpl. apply (IH _ _ _ (aggStep_span _ _ st k Hst eq_refl eq_refl Hsz Hg) Hch Hok').
Qed.

(** On chunks laid end to end the climbs follow one another without
    overlap, each at least one chunk long, each with the gain of its two
    ends. *)
Lemma aggregate_span (d e : Q) (cs : list Chunk.t) :
  chained d e cs ->
  Forall (fun k => CHUNK_SIZE <= Chunk.endDist k - Chunk.startDist k /\
                   Chunk.gain k = Chunk.endEle k - Chunk.startEle k) cs ->
  Forall climbSpan (aggregate cs) /\ StronglySorted before (aggregate cs).
Proof.
  intros Hch Hok. unfold aggregate.
  assert (H0 : spanInv d e ([], None)).
  { repeat split; constructor. }
  destruct (fold_aggStep_span cs d e _ H0 Hch Hok) as (d' & e' & Hacc & Hs & Hcur).
  unfold flush. destruct (fold_left aggStep cs ([], None)) as [acc [c|]];
    simpl in *; [|split; assumption].
  destruct Hcur as [Hc Hbefore]. split.
  - apply Forall_app. split; [exact Hacc|].
    constructor; [exists d', e'; exact Hc|constructor].
  - apply StronglySorted_snoc; assumption.
Qed.

(** The climbs of an ordered track. *)
Lemma climbs_ordered (points : list Point) :
  nondecreasing points ->
  Forall climbSpan (climbs points) /\ StronglySorted before (climbs points).
Proof.
  intros Hnd. unfold climbs.
  assert (Hok : Forall (fun k => CHUNK_SIZE <= Chunk.endDist k - Chunk.startDist k /\
                                 Chunk.gain k = Chunk.endEle k - Chunk.startEle k)
                       (chunks points)).
  { eapply Forall_impl; [|apply chunks_ok]. intros c (H1 & H2 & _). auto. }
  destruct points as [|p0 rest].
  - unfold chunks. rewrite chunkLoop_equation_1. split; constructor.
  - exact (aggregate_span _ _ _ (chunks_chained p0 rest Hnd) Hok).
Qed.

(** C5. A chunk counts as uphill exactly when its gradient is strictly
    greater than 1.5.  A chunk whose gradient is at most 1.5, and in
    particular one whose gradient is exactly 1.5, is flat: it opens no climb,
    it extends no climb, and it closes the climb that is open; an uphill
    chunk opens a climb or extends the open one.  No climb ever holds a
    chunk whose gradient is not above 1.5. *)
Theorem uphill_threshold_is_strict (chunk : Chunk.t) (done : list Climb.t)
  (c : Climb.t) :
  (isUphill chunk = true <-> 1.5 < Chunk.gradient chunk) /\
  (1.5 < Chunk.gradient chunk ->
   aggStep (done, None) chunk =
   (done, Some (Climb.mk (Chunk.startDist chunk) (Chunk.endDist chunk)
                         (Chunk.gain chunk) [chunk])) /\
   aggStep (done, Some c) chunk =
   (done, Some (Climb.mk (Climb.startDist c) (Chunk.endDist chunk)
                         (Climb.gain c + Chunk.gain chunk)
                         (Climb.chunks c ++ [chunk])))) /\
  (Chunk.gradient chunk <= 1.5 ->
   isUphill chunk = false /\
   aggStep (done, None) chunk = (done, None) /\
   aggStep (done, Some c) chunk = (done ++ [c], None)) /\
  (Chunk.gradient chunk == 1.5 ->
   isUphill chunk = false /\
   aggStep (done, None) chunk = (done, None) /\
   aggStep (done, Some c) chunk = (done ++ [c], None)) /\
  (forall cs c' k,
      In c' (aggregate cs) -> In k (Climb.chunks c') ->
      1.5 < Chunk.gradient k).
Proof.
  assert (Hflat : Chunk.gradient chunk <= 1.5 ->
                  isUphill chunk = false /\
                  aggStep (done, None) chunk = (done, None) /\
                  aggStep (done, Some c) chunk = (done ++ [c], None)).
  { intros H. apply isUphill_le in H. unfold aggStep. rewrite H. auto. }
  split; [apply isUphill_gt|].
  split.
  { intros H. apply isUphill_gt in H. unfold aggStep. rewrite H. auto. }
  split; [exact Hflat|].
  split.
  { intros H. apply Hflat. rewrite H. apply Qle_refl. }
  intros cs c' k Hc' Hk.
  pose proof (aggregate_shape cs) as Hall. rewrite Forall_forall in Hall.
  destruct (Hall c' Hc') as [(f & tl & Hck & _ & _ & _ & Hup) _].
  rewrite Hck in Hk. rewrite Forall_forall in Hup.
  apply isUphill_gt. exact (Hup k Hk).
Qed.

(** ** Step 3: the scores *)

Lemma In_insertBy {A : Type} (cmp : A -> A -> Q) (a x : A) (l : list A) :
  In x (insertBy cmp a l) <-> x = a \/ In x l.
Proof.
  induction l as [|y l IH]; simpl.
  - intuition.
  - destruct (Qgtb (cmp a y) 0); simpl; rewrite ?IH; intuition.
Qed.

Lemma In_sortBy {A : Type} (cmp : A -> A -> Q) (x : A) (l : list A) :
  In x (sortBy cmp l) <-> In x l.
Proof.
  induction l as [|y l IH]; simpl; [tauto|].
  rewrite In_insertBy, IH. intuition.
Qed.

Lemma In_mapiFrom {A B : Type} (f : nat -> A -> B) (l : list A) :
  forall i y, In y (mapiFrom f i l) -> exists j x, In x l /\ y = f j x.
Proof.
  induction l as [|x l IH]; simpl; intros i y H; [contradiction|].
  destruct H as [<-|H].
  - exists i, x. auto.
  - destruct (IH _ _ H) as (j & x' & Hx' & ->). exists j, x'. auto.
Qed.

(** A list already in order is left as it is by the sort. *)
Lemma sortBy_sorted {A : Type} (cmp : A -> A -> Q) (l : list A) :
  StronglySorted (fun a b => cmp a b <= 0) l -> sortBy cmp l = l.
Proof.
  induction 1 as [|x l Hs IH Hx]; [reflexivity|].
  simpl. rewrite IH. destruct l as [|y l]; [reflexivity|].
  simpl. inversion Hx as [|? ? Hxy _]; subst.
  apply Qgtb_le in Hxy. rewrite Hxy. reflexivity.
Qed.

Lemma multiplierFor_cases (d : Q) :
  (d <= 10 -> multiplierFor d = 1.0) /\
  (10 < d -> d <= 25 -> multiplierFor d = 0.8) /\
  (25 < d -> d <= 50 -> multiplierFor d = 0.6) /\
  (50 < d -> d <= 75 -> multiplierFor d = 0.4) /\
  (75 < d -> multiplierFor d = 0.2).
Proof.
  unfold multiplierFor.
  destruct (Qleb d 10) eqn:E10, (Qleb d 25) eqn:E25,
           (Qleb d 50) eqn:E50, (Qleb d 75) eqn:E75;
    qprop; repeat split; intros; try reflexivity; exfalso; lra.
Qed.

Lemma multiplierFor_pos (d : Q) : 0 < multiplierFor d.
Proof.
  unfold multiplierFor.
  destruct (Qleb d 10); [reflexivity|].
  destruct (Qleb d 25); [reflexivity|].
  destruct (Qleb d 50); [reflexivity|].
  destruct (Qleb d 75); reflexivity.
Qed.

(** C3. Every climb of the result carries the distance from its summit to
    the finish, [totalDistance - endDist], and the multiplier that this
    distance selects: 1.0 up to 10 km, 0.8 up to 25 km, 0.6 up to 50 km,
    0.4 up to 75 km and 0.2 beyond, the thresholds being tried in ascending
    order and the first that holds deciding; its final score is its raw
    score times this multiplier. *)
Theorem position_multiplier (points : list Point) (totalDistance : Q) :
  points <> [] ->
  exists fd,
    Profiler.analyzeRoute points totalDistance = Some fd /\
    forall c, In c (Profiler.FileData.climbs fd) ->
      let d := Profiler.Scored.distFromFinish c in
      let m := Profiler.Scored.multiplier c in
      d = totalDistance - Profiler.Scored.endDist c /\
      (d <= 10 -> m = 1.0) /\
      (10 < d -> d <= 25 -> m = 0.8) /\
      (25 < d -> d <= 50 -> m = 0.6) /\
      (50 < d -> d <= 75 -> m = 0.4) /\
      (75 < d -> m = 0.2) /\
      Profiler.Scored.finalScore c = Profiler.Scored.rawScore c * m.
Proof.
  intros Hne. destruct points as [|p0 rest]; [congruence|].
  eexists. split; [reflexivity|]. simpl Profiler.FileData.climbs.
  intros c Hc. unfold Profiler.validClimbs in Hc.
  apply In_sortBy in Hc. unfold mapi in Hc.
  apply In_mapiFrom in Hc. destruct Hc as (j & x & _ & ->).
  simpl.
  pose proof (multiplierFor_cases (totalDistance - Climb.endDist x)) as H.
  intuition.
Qed.

Lemma StronglySorted_filter {A : Type} (R : A -> A -> Prop) (f : A -> bool)
  (l : list A) :
  StronglySorted R l -> StronglySorted R (filter f l).
Proof.
  induction 1 as [|x l Hs IH Hx]; simpl; [constructor|].
  destruct (f x); [|exact IH].
  constructor; [exact IH|].
  rewrite Forall_forall in *. intros y Hy. apply Hx.
  apply filter_In in Hy. apply Hy.
Qed.

Lemma StronglySorted_nth {A : Type} (R : A -> A -> Prop) (l : list A) :
  StronglySorted R l ->
  forall i j a b,
    (i < j)%nat -> nth_error l i = Some a -> nth_error l j = Some b -> R a b.
Proof.
  induction 1 as [|x l Hs IH Hx]; intros i j a b Hij Hi Hj.
  - destruct i; discriminate.
  - destruct j as [|j]; [lia|]. simpl in Hj. destruct i as [|i].
    + injection Hi as <-. rewrite Forall_forall in Hx. apply Hx.
      exact (nth_error_In _ _ Hj).
    + simpl in Hi. apply (IH i j); [lia|exact Hi|exact Hj].
Qed.

Lemma nth_error_mapiFrom {A B : Type} (f : nat -> A -> B) (l : list A) :
  forall i n,
    nth_error (mapiFrom f i l) n = option_map (f (i + n)%nat) (nth_error l n).
Proof.
  induction l as [|x l IH]; intros i n.
  - destruct n; reflexivity.
  - destruct n as [|n]; simpl.
    + rewrite Nat.add_0_r. reflexivity.
    + rewrite IH. replace (S i + n)%nat with (i + S n)%nat by lia. reflexivity.
Qed.

Lemma StronglySorted_mapiFrom {A B : Type} (R : A -> A -> Prop)
  (R' : B -> B -> Prop) (f : nat -> A -> B) (l : list A) :
  (forall i j a b, R a b -> R' (f i a) (f j b)) ->
  StronglySorted R l -> forall i, StronglySorted R' (mapiFrom f i l).
Proof.
  intros Hf. induction 1 as [|x l Hs IH Hx]; intros i; simpl; [constructor|].
  constructor; [apply IH|].
  rewrite Forall_forall in *. intros y Hy.
  apply In_mapiFrom in Hy. destruct Hy as (j & a & Ha & ->). auto.
Qed.

(** The climbs that pass the filter, on an ordered track. *)
Lemma filtered_climbs_ordered (points : list Point) :
  nondecreasing points ->
  let kept := filter (fun c => Qgtb (Climb.gain c) 20) (climbs points) in
  Forall climbSpan kept /\ StronglySorted before kept.
Proof.
  intros Hnd kept. destruct (climbs_ordered points Hnd) as [Hspan Hsorted].
  split.
  - unfold kept. rewrite Forall_forall in *. intros c Hc.
    apply filter_In in Hc. apply Hspan, Hc.
  - apply StronglySorted_filter. exact Hsorted.
Qed.

Lemma climbSpan_length (c : Climb.t) :
  climbSpan c -> Climb.startDist c + CHUNK_SIZE <= Climb.endDist c.
Proof. intros (d & e & f & tl & H). apply H. Qed.

(** On an ordered track the climbs leave [map] already sorted by their
    start, and the sort returns them as they are. *)
Lemma profiler_validClimbs_unsorted (points : list Point) (totalDistance : Q) :
  nondecreasing points ->
  Profiler.validClimbs points totalDistance =
  mapi (Profiler.scoreClimb totalDistance)
       (filter (fun c => Qgtb (Climb.gain c) 20) (climbs points)).
Proof.
  intros Hnd. unfold Profiler.validClimbs. apply sortBy_sorted.
  destruct (filtered_climbs_ordered points Hnd) as [Hspan Hsorted].
  set (kept := filter _ _) in *.
  assert (Hboth : StronglySorted
                    (fun a b => before a b /\ climbSpan a) kept).
  { clear - Hspan Hsorted. induction Hsorted as [|x l Hs IH Hx]; [constructor|].
    inversion Hspan as [|? ? Hxs Hspan']; subst.
    constructor; [exact (IH Hspan')|].
    eapply Forall_impl; [|exact Hx]. simpl. auto. }
  unfold mapi. refine (StronglySorted_mapiFrom _ _ _ _ _ Hboth _).
  intros i j a b [Hab Ha]. simpl.
  apply climbSpan_length in Ha. unfold before in Hab.
  pose proof CHUNK_SIZE_pos. lra.
Qed.

Lemma profiler_validClimbs_nth (points : list Point) (totalDistance : Q)
  (i : nat) (a : Profiler.Scored.t) :
  nondecreasing points ->
  nth_error (Profiler.validClimbs points totalDistance) i = Some a ->
  exists c,
    nth_error (filter (fun c => Qgtb (Climb.gain c) 20) (climbs points)) i
    = Some c /\
    a = Profiler.scoreClimb totalDistance i c.
Proof.
  intros Hnd. rewrite (profiler_validClimbs_unsorted _ _ Hnd).
  unfold mapi. rewrite nth_error_mapiFrom. simpl.
  destruct (nth_error _ i) as [c|]; [|discriminate].
  simpl. intros E. injection E as <-. exists c. auto.
Qed.

(** The climbs of the result of an ordered track do not overlap and start
    one after the other. *)
Lemma profiler_climbs_ordered (points : list Point) (totalDistance : Q) :
  nondecreasing points ->
  forall i j a b,
    (i < j)%nat ->
    nth_error (Profiler.validClimbs points totalDistance) i = Some a ->
    nth_error (Profiler.validClimbs points totalDistance) j = Some b ->
    Profiler.Scored.endDist a <= Profiler.Scored.startDist b /\
    Profiler.Scored.startDist a < Profiler.Scored.startDist b.
Proof.
  intros Hnd i j a b Hij Ha Hb.
  destruct (profiler_validClimbs_nth _ _ _ _ Hnd Ha) as (ca & Hca & ->).
  destruct (profiler_validClimbs_nth _ _ _ _ Hnd Hb) as (cb & Hcb & ->).
  destruct (filtered_climbs_ordered points Hnd) as [Hspan Hsorted].
  pose proof (StronglySorted_nth _ _ Hsorted i j ca cb Hij Hca Hcb) as Hab.
  rewrite Forall_forall in Hspan.
  pose proof (climbSpan_length _ (Hspan ca (nth_error_In _ _ Hca))) as Hlen.
  unfold before in Hab. simpl. pose proof CHUNK_SIZE_pos. lra.
Qed.

(** C9. The page computes the average gradient of a retained climb under a
    guard: it is [(gain / (lengthKm * 1000)) * 100] when [lengthKm > 0] and
    0 otherwise, so that no division by zero takes place.  On a track with
    non-decreasing distances every retained climb is at least one chunk
    (0.2 km) long, so the guarded branch is never taken; there the earlier
    page, which divides without the guard, computes the same value. *)
Theorem average_gradient_guard (points : list Point) (totalDistance : Q) :
  (forall c, In c (Profiler.validClimbs points totalDistance) ->
     Profiler.Scored.lengthKm c
     = Profiler.Scored.endDist c - Profiler.Scored.startDist c /\
     (Profiler.Scored.lengthKm c <= 0 -> Profiler.Scored.gradientAvg c = 0) /\
     (0 < Profiler.Scored.lengthKm c ->
      Profiler.Scored.gradientAvg c
      = (Profiler.Scored.gain c / (Profiler.Scored.lengthKm c * 1000)) * 100)) /\
  (nondecreasing points ->
   (forall c, In c (Profiler.validClimbs points totalDistance) ->
      CHUNK_SIZE <= Profiler.Scored.lengthKm c /\
      Profiler.Scored.gradientAvg c
      = (Profiler.Scored.gain c / (Profiler.Scored.lengthKm c * 1000)) * 100) /\
   (forall c, In c (Tpv.validClimbs points totalDistance) ->
      CHUNK_SIZE <= Tpv.Scored.lengthKm c /\
      Tpv.Scored.gradientAvg c
      = (Tpv.Scored.gain c / (Tpv.Scored.lengthKm c * 1000)) * 100)).
Proof.
  assert (Hguard : forall c, In c (Profiler.validClimbs points totalDistance) ->
     Profiler.Scored.lengthKm c
     = Profiler.Scored.endDist c - Profiler.Scored.startDist c /\
     (Profiler.Scored.lengthKm c <= 0 -> Profiler.Scored.gradientAvg c = 0) /\
     (0 < Profiler.Scored.lengthKm c ->
      Profiler.Scored.gradientAvg c
      = (Profiler.Scored.gain c / (Profiler.Scored.lengthKm c * 1000)) * 100)).
  { intros c Hc. unfold Profiler.validClimbs in Hc.
    apply In_sortBy in Hc. unfold mapi in Hc.
    apply In_mapiFrom in Hc. destruct Hc as (j & x & _ & ->). simpl.
    split; [reflexivity|]. split; intros H.
    - apply Qgtb_le in H. rewrite H. reflexivity.
    - apply Qgtb_gt in H. rewrite H. reflexivity. }
  split; [exact Hguard|]. intros Hnd.
  destruct (filtered_climbs_ordered points Hnd) as [Hspan _].
  rewrite Forall_forall in Hspan. split.
  - intros c Hc. destruct (Hguard c Hc) as (Hlen & _ & Hpos).
    assert (Hsz : CHUNK_SIZE <= Profiler.Scored.lengthKm c).
    { unfold Profiler.validClimbs in Hc.
      apply In_sortBy in Hc. unfold mapi in Hc.
      apply In_mapiFrom in Hc. destruct Hc as (j & x & Hx & ->). simpl.
      pose proof (climbSpan_length _ (Hspan x Hx)). lra. }
    split; [exact Hsz|]. apply Hpos. pose proof CHUNK_SIZE_pos. lra.
  - intros c Hc. unfold Tpv.validClimbs in Hc.
    apply in_map_iff in Hc. destruct Hc as (x & <- & Hx). simpl.
    split; [|reflexivity].
    pose proof (climbSpan_length _ (Hspan x Hx)). lra.
Qed.

(** ** The track that reaches the analysis *)

Lemma nondecreasing_cons (p : Point) (l : list Point) :
  Forall (fun q => dist p <= dist q) l -> nondecreasing l ->
  nondecreasing (p :: l).
Proof.
  unfold nondecreasing. destruct l as [|q l]; [reflexivity|].
  intros Hall Hl. inversion Hall as [|? ? Hpq _]; subst.
  simpl in *. apply andb_true_iff. split; [now apply Qleb_le|exact Hl].
Qed.

Lemma nondecreasing_app (l1 l2 : list Point) (m : Q) :
  nondecreasing l1 -> nondecreasing l2 ->
  Forall (fun p => dist p <= m) l1 -> Forall (fun p => m <= dist p) l2 ->
  nondecreasing (l1 ++ l2).
Proof.
  intros H1 H2 Hle Hge. induction l1 as [|p l1 IH]; [exact H2|].
  inversion Hle as [|? ? Hp Hle']; subst. simpl.
  apply nondecreasing_cons.
  - apply Forall_app. split.
    + exact (nondecreasing_head _ _ H1).
    + eapply Forall_impl; [|exact Hge]. simpl. intros q Hq. lra.
  - apply IH; [exact (nondecreasing_tail _ _ H1)|exact Hle'].
Qed.

Lemma Forall_mapiFrom {A B : Type} (P : A -> Prop) (P' : B -> Prop)
  (f : nat -> A -> B) (l : list A) :
  (forall i a, P a -> P' (f i a)) ->
  Forall P l -> forall i, Forall P' (mapiFrom f i l).
Proof.
  intros Hf. induction 1 as [|x l Hx _ IH]; intros i; simpl; constructor; auto.
Qed.

Lemma nondecreasing_mapiFrom (f : nat -> Point -> Point) (l : list Point) :
  (forall i p, dist (f i p) = dist p) ->
  nondecreasing l -> forall i, nondecreasing (mapiFrom f i l).
Proof.
  intros Hf. induction l as [|p l IH]; intros Hl i; [reflexivity|].
  simpl. apply nondecreasing_cons.
  - apply (Forall_mapiFrom (fun q => dist p <= dist q)).
    + intros j a Ha. rewrite !Hf. exact Ha.
    + exact (nondecreasing_head _ _ Hl).
  - apply IH. exact (nondecreasing_tail _ _ Hl).
Qed.

(** Smoothing changes elevations only. *)
Lemma smoothElevation_onCourse (points : list Point) (windowSize : nat)
  (totalDistance : Q) :
  onCourse points totalDistance ->
  onCourse (smoothElevation points windowSize) totalDistance.
Proof.
  intros [Hnd Hall]. unfold smoothElevation, mapi. split.
  - apply nondecreasing_mapiFrom; [reflexivity|exact Hnd].
  - refine (Forall_mapiFrom _ _ _ _ _ Hall _). intros i a Ha. exact Ha.
Qed.

Lemma length_mapiFrom {A B : Type} (f : nat -> A -> B) (l : list A) :
  forall i, List.length (mapiFrom f i l) = List.length l.
Proof.
  induction l as [|x l IH]; intros i; simpl; [reflexivity|]. now rewrite IH.
Qed.

Lemma smoothElevation_length (points : list Point) (windowSize : nat) :
  List.length (smoothElevation points windowSize) = List.length points.
Proof. unfold smoothElevation, mapi. apply length_mapiFrom. Qed.

Lemma ofNat_S (n : nat) : ofNat (S n) == ofNat n + 1.
Proof.
  unfold ofNat. rewrite Nat2Z.inj_succ, <- Z.add_1_r, inject_Z_plus.
  reflexivity.
Qed.

Lemma ofNat_nonneg (n : nat) : 0 <= ofNat n.
Proof.
  unfold ofNat. change 0 with (inject_Z 0). rewrite <- Zle_Qle. lia.
Qed.

Lemma lapPoints_nondecreasing (lapOffset : Q) (points : list Point) :
  nondecreasing points -> nondecreasing (lapPoints lapOffset points).
Proof.
  induction points as [|p points IH]; intros H; [reflexivity|].
  simpl. apply nondecreasing_cons.
  - pose proof (nondecreasing_head _ _ H) as Hh. unfold lapPoints.
    rewrite Forall_map. eapply Forall_impl; [|exact Hh].
    simpl. intros q Hq. lra.
  - apply IH. exact (nondecreasing_tail _ _ H).
Qed.

Lemma lapLoop_onCourse (baseData : BaseData.t) (n : nat) :
  onCourse (BaseData.points baseData) (BaseData.distance baseData) ->
  0 <= BaseData.distance baseData ->
  forall i acc,
    onCourse acc (ofNat i * BaseData.distance baseData) ->
    onCourse (lapLoop n i baseData acc)
             (ofNat (i + n) * BaseData.distance baseData).
Proof.
  intros [Hnd Hall] Hd. induction n as [|n IH]; intros i acc [Hacc Hbound].
  - simpl. rewrite Nat.add_0_r. split; assumption.
  - simpl. replace (i + S n)%nat with (S i + n)%nat by lia. apply IH.
    pose proof (ofNat_S i) as HS. pose proof (ofNat_nonneg i) as Hi.
    assert (Hmul : 0 <= ofNat i * BaseData.distance baseData)
      by (apply Qmult_le_0_compat; assumption).
    split.
    + apply (nondecreasing_app _ _ (ofNat i * BaseData.distance baseData)).
      * exact Hacc.
      * apply lapPoints_nondecreasing. exact Hnd.
      * eapply Forall_impl; [|exact Hbound]. simpl. tauto.
      * unfold lapPoints. rewrite Forall_map.
        eapply Forall_impl; [|exact Hall]. simpl. intros p Hp. lra.
    + apply Forall_app. split.
      * eapply Forall_impl; [|exact Hbound]. simpl. intros p Hp.
        rewrite HS. lra.
      * unfold lapPoints. rewrite Forall_map.
        eapply Forall_impl; [|exact Hall]. simpl. intros p Hp.
        rewrite HS. lra.
Qed.

(** The effect hands [analyzeRoute] an ordered track that lies on the
    course. *)
Lemma fullPoints_onCourse (baseData : BaseData.t) (laps : nat) :
  onCourse (BaseData.points baseData) (BaseData.distance baseData) ->
  0 <= BaseData.distance baseData ->
  onCourse (fullPoints baseData laps) (totalDistance baseData laps).
Proof.
  intros Hok Hd. unfold fullPoints, totalDistance.
  assert (H0 : onCourse [] (ofNat 0 * BaseData.distance baseData)).
  { split; [reflexivity|constructor]. }
  pose proof (lapLoop_onCourse baseData laps Hok Hd 0%nat [] H0) as [Hnd Hall].
  simpl in *. split; [exact Hnd|].
  eapply Forall_impl; [|exact Hall]. simpl. intros p Hp. lra.
Qed.

Lemma lapLoop_length (baseData : BaseData.t) (n : nat) :
  forall i acc,
    List.length (lapLoop n i baseData acc)
    = (List.length acc + n * List.length (BaseData.points baseData))%nat.
Proof.
  induction n as [|n IH]; intros i acc; simpl; [lia|].
  rewrite IH, length_app. unfold lapPoints. rewrite length_map. lia.
Qed.

Lemma fullPoints_nonempty (baseData : BaseData.t) (laps : nat) :
  BaseData.points baseData <> [] -> (1 <= laps)%nat ->
  fullPoints baseData laps <> [].
Proof.
  intros Hne Hlaps E. apply (f_equal (@List.length Point)) in E.
  unfold fullPoints in E. rewrite lapLoop_length in E. simpl in E.
  destruct (BaseData.points baseData); [congruence|].
  destruct laps; simpl in *; lia.
Qed.

(** ** The climb weighting *)

Lemma tpv_sumFinalScore_nonneg (cs : list Tpv.Scored.t) :
  Forall (fun c => 0 <= Tpv.Scored.finalScore c) cs ->
  0 <= Tpv.sumFinalScore cs.
Proof.
  unfold Tpv.sumFinalScore.
  assert (H : forall acc, 0 <= acc ->
            Forall (fun c => 0 <= Tpv.Scored.finalScore c) cs ->
            0 <= fold_left (fun acc c => acc + Tpv.Scored.finalScore c) cs acc).
  { induction cs as [|c cs IH]; intros acc Hacc Hall; [exact Hacc|].
    inversion Hall as [|? ? Hc Hall']; subst. simpl. apply IH; [lra|exact Hall']. }
  apply H. lra.
Qed.

(** On an ordered track every retained climb has a positive length, hence a
    score that is not negative. *)
Lemma tpv_finalScore_nonneg (points : list Point) (totalDistance : Q) :
  nondecreasing points ->
  Forall (fun c => 0 <= Tpv.Scored.finalScore c)
         (Tpv.validClimbs points totalDistance).
Proof.
  intros Hnd. destruct (filtered_climbs_ordered points Hnd) as [Hspan _].
  unfold Tpv.validClimbs. rewrite Forall_map.
  eapply Forall_impl; [|exact Hspan]. intros c Hc. simpl.
  apply climbSpan_length in Hc. pose proof CHUNK_SIZE_pos as Hpos.
  pose proof (multiplierFor_pos (totalDistance - Climb.endDist c)) as Hm.
  apply Qmult_le_0_compat; [|lra].
  apply Qmult_le_0_compat; [|lra].
  simpl. nra.
Qed.

(** A course of no length has no chunk. *)
Lemma chunks_empty_course (points : list Point) (totalDistance : Q) :
  onCourse points totalDistance -> totalDistance <= 0 -> chunks points = [].
Proof.
  intros [_ Hall] Htd. unfold chunks. apply (chunkLoop_short 0).
  eapply Forall_impl; [|exact Hall]. simpl. intros p Hp.
  pose proof CHUNK_SIZE_pos. lra.
Qed.

(** The weighting of the result of a track that lies on its course: the two
    rules of the block, the cap at 100 and the range. *)
Lemma tpv_weighting_onCourse (points : list Point) (totalDistance : Q) :
  onCourse points totalDistance ->
  let overallScore := Tpv.totalScore points totalDistance in
  let finalZoneScore := Tpv.finalProfileScore points totalDistance in
  let weighting :=
    Tpv.tpvClimbWeighting overallScore finalZoneScore totalDistance in
  (0 < totalDistance -> totalDistance < 20 ->
   weighting == Qmin (overallScore / totalDistance * 100) 100) /\
  (~ (0 < totalDistance /\ totalDistance < 20) ->
   weighting ==
   Qmin (Qmax (overallScore / 100) (Qmin (finalZoneScore / 25) 0.8) * 100)
        100) /\
  0 <= weighting /\ weighting <= 100.
Proof.
  intros Hok overallScore finalZoneScore weighting.
  assert (Hoverall : 0 <= overallScore).
  { apply tpv_sumFinalScore_nonneg, tpv_finalScore_nonneg, Hok. }
  assert (Hfinal0 : totalDistance <= 0 -> finalZoneScore = 0).
  { intros Htd. unfold finalZoneScore, Tpv.finalProfileScore, Tpv.finalClimbs,
      Tpv.validClimbs, climbs.
    rewrite (chunks_empty_course _ _ Hok Htd). reflexivity. }
  unfold weighting, Tpv.tpvClimbWeighting, Tpv.tpvClimbWeightingRatio,
    Tpv.finalZoneMetricCapped, Tpv.finalZoneRatioUncapped, Tpv.overallMetric.
  destruct (Qgtb totalDistance 0) eqn:Epos, (Qltb totalDistance 20) eqn:Elt;
    qprop; simpl andb; cbv iota.
  - split; [intros _ _; reflexivity|]. split; [intros H; exfalso; tauto|].
    split; [|apply Q.le_min_r].
    apply Q.min_glb; [|lra].
    apply Qmult_le_0_compat; [|lra].
    apply Qle_shift_div_l; lra.
  - split; [intros _ H; exfalso; lra|]. split; [intros _; reflexivity|].
    split; [|apply Q.le_min_r].
    apply Q.min_glb; [|lra].
    apply Qmult_le_0_compat; [|lra].
    eapply Qle_trans; [|apply Q.le_max_l]. apply Qle_shift_div_l; lra.
  - split; [intros H; exfalso; lra|]. split.
    + intros _. rewrite (Hfinal0 Epos).
      apply Q.min_compat; [|reflexivity].
      apply Qmult_comp; [|reflexivity].
      apply Q.max_compat; [reflexivity|].
      apply Q.min_compat; reflexivity.
    + split; [|apply Q.le_min_r].
      apply Q.min_glb; [|lra].
      apply Qmult_le_0_compat; [|lra].
      eapply Qle_trans; [|apply Q.le_max_l]. apply Qle_shift_div_l; lra.
  - exfalso. lra.
Qed.

Section Course.

Variable haversineDistance : Q -> Q -> Q -> Q -> Q.

(** The great-circle distance [R * c] is never negative. *)
Hypothesis haversine_nonneg :
  forall lat1 lon1 lat2 lon2, 0 <= haversineDistance lat1 lon1 lat2 lon2.

Lemma withDistFrom_ok (rest : list RawPoint) :
  forall prev t ps final,
    withDistFrom haversineDistance prev t rest = (ps, final) ->
    t <= final /\
    Forall (fun p => t <= dist p /\ dist p <= final) ps /\
    nondecreasing ps /\
    List.length ps = List.length rest.
Proof.
  induction rest as [|p rest IH]; intros prev t ps final H; simpl in H.
  - injection H as <- <-. repeat split; try constructor; lra.
  - destruct (withDistFrom _ p _ rest) as [ps' final'] eqn:E.
    injection H as <- <-.
    destruct (IH _ _ _ _ E) as (Hle & Hall & Hnd & Hlen).
    pose proof (haversine_nonneg (rawLat prev) (rawLon prev) (rawLat p) (rawLon p)).
    repeat split.
    + lra.
    + constructor; [simpl; lra|].
      eapply Forall_impl; [|exact Hall]. simpl. intros q Hq. lra.
    + apply nondecreasing_cons; [|exact Hnd].
      eapply Forall_impl; [|exact Hall]. simpl. intros q Hq. lra.
    + simpl. now rewrite Hlen.
Qed.

(** What [processGPX] stores in [baseData]: a non-empty ordered track from
    distance 0 to [distance]. *)
Lemma buildTrack_ok (trkpts : list RawPoint) (bd : BaseData.t) :
  buildTrack haversineDistance trkpts = inr bd ->
  onCourse (BaseData.points bd) (BaseData.distance bd) /\
  0 <= BaseData.distance bd /\
  BaseData.points bd <> [].
Proof.
  unfold buildTrack. destruct trkpts as [|p0 rest]; [discriminate|].
  unfold pointsWithDist.
  destruct (withDistFrom _ p0 0 rest) as [ps final] eqn:E.
  intros H. injection H as <-. simpl.
  destruct (withDistFrom_ok _ _ _ _ _ E) as (Hle & Hall & Hnd & Hlen).
  split; [|split; [exact Hle|]].
  - apply smoothElevation_onCourse. split.
    + apply nondecreasing_cons; [|exact Hnd].
      eapply Forall_impl; [|exact Hall]. simpl. tauto.
    + constructor; [simpl; lra|exact Hall].
  - intros E'. apply (f_equal (@List.length Point)) in E'.
    rewrite smoothElevation_length in E'. discriminate.
Qed.

(** Every call of [analyzeRoute] by the effect is on an ordered non-empty
    track that lies on the course. *)
Lemma analysis_input_ok (trkpts : list RawPoint) (bd : BaseData.t)
  (laps : nat) :
  buildTrack haversineDistance trkpts = inr bd -> (1 <= laps)%nat ->
  onCourse (fullPoints bd laps) (totalDistance bd laps) /\
  fullPoints bd laps <> [].
Proof.
  intros Hbd Hlaps. destruct (buildTrack_ok _ _ Hbd) as (Hok & Hd & Hne).
  split; [apply fullPoints_onCourse; assumption|].
  apply fullPoints_nonempty; assumption.
Qed.

(** C6. In every analysis result the climbs are in the order of their
    start and do not overlap: of two climbs that are adjacent in the list
    (and so of any two climbs, the first before the second) the first ends
    no later than the second starts, and starts strictly before it. *)
Theorem climbs_do_not_overlap (trkpts : list RawPoint) (bd : BaseData.t)
  (laps : nat) :
  buildTrack haversineDistance trkpts = inr bd -> (1 <= laps)%nat ->
  exists fd,
    Profiler.analyzeRoute (fullPoints bd laps) (totalDistance bd laps)
    = Some fd /\
    (forall i a b,
        nth_error (Profiler.FileData.climbs fd) i = Some a ->
        nth_error (Profiler.FileData.climbs fd) (S i) = Some b ->
        Profiler.Scored.endDist a <= Profiler.Scored.startDist b /\
        Profiler.Scored.startDist a < Profiler.Scored.startDist b) /\
    (forall i j a b,
        (i < j)%nat ->
        nth_error (Profiler.FileData.climbs fd) i = Some a ->
        nth_error (Profiler.FileData.climbs fd) j = Some b ->
        Profiler.Scored.endDist a <= Profiler.Scored.startDist b /\
        Profiler.Scored.startDist a < Profiler.Scored.startDist b).
Proof.
  intros Hbd Hlaps.
  destruct (analysis_input_ok _ _ _ Hbd Hlaps) as [[Hnd _] Hne].
  destruct (fullPoints bd laps) as [|p0 rest] eqn:E; [congruence|].
  eexists. split; [reflexivity|]. simpl Profiler.FileData.climbs.
  split.
  - intros i a b. apply profiler_climbs_ordered; [exact Hnd|lia].
  - intros i j a b. apply profiler_climbs_ordered. exact Hnd.
Qed.

(** C1. In every analysis result the climb weighting is computed by the
    two rules: when [0 < totalDistance < 20] the ratio is the overall score
    divided by the total distance, otherwise it is the greater of the
    overall score divided by 100 and the final-zone score divided by 25,
    the latter capped at 0.8; the weighting is the ratio times 100, capped
    at 100, and it lies between 0 and 100. *)
Theorem climb_weighting_percent (trkpts : list RawPoint) (bd : BaseData.t)
  (laps : nat) :
  buildTrack haversineDistance trkpts = inr bd -> (1 <= laps)%nat ->
  exists fd,
    Tpv.analyzeRoute (fullPoints bd laps) (totalDistance bd laps) = Some fd /\
    let overallScore := Tpv.FileData.totalScore fd in
    let finalZoneScore := Tpv.FileData.finalProfileScore fd in
    let courseLength := Tpv.FileData.totalDistance fd in
    let weighting := Tpv.FileData.tpvClimbWeighting fd in
    (0 < courseLength -> courseLength < 20 ->
     weighting == Qmin (overallScore / courseLength * 100) 100) /\
    (~ (0 < courseLength /\ courseLength < 20) ->
     weighting ==
     Qmin (Qmax (overallScore / 100) (Qmin (finalZoneScore / 25) 0.8) * 100)
          100) /\
    0 <= weighting /\ weighting <= 100.
Proof.
  intros Hbd Hlaps.
  destruct (analysis_input_ok _ _ _ Hbd Hlaps) as [Hok Hne].
  pose proof (tpv_weighting_onCourse _ _ Hok) as H.
  destruct (fullPoints bd laps) as [|p0 rest] eqn:E; [congruence|].
  eexists. split; [reflexivity|]. exact H.
Qed.

End Course.

(** ** The gain of a climb *)

(** In exact arithmetic, on a track with non-decreasing distances, the
    gain accumulated by a detected climb, which is the sum of the gains of
    its chunks, each the elevation at the end of the chunk less the
    elevation at its start, is the elevation of the point at which the
    climb ends less the elevation of the point at which it starts:
    consecutive chunks of a climb share their boundary point, and the sum
    telescopes.  The additions of the page round, and its gain is this
    difference up to their rounding only (see below). *)
Theorem climb_gain_telescopes (points : list Point) (c : Climb.t) :
  nondecreasing points ->
  In c (climbs points) ->
  exists first final p q,
    hd_error (Climb.chunks c) = Some first /\
    last (Climb.chunks c) first = final /\
    In p points /\ In q points /\
    Climb.startDist c = dist p /\ Chunk.startEle first = ele p /\
    Climb.endDist c = dist q /\ Chunk.endEle final = ele q /\
    Forall (fun k => Chunk.gain k = Chunk.endEle k - Chunk.startEle k)
           (Climb.chunks c) /\
    (forall i k1 k2,
        nth_error (Climb.chunks c) i = Some k1 ->
        nth_error (Climb.chunks c) (S i) = Some k2 ->
        Chunk.endDist k1 = Chunk.startDist k2 /\
        Chunk.endEle k1 = Chunk.startEle k2) /\
    Climb.gain c == sumQ (map Chunk.gain (Climb.chunks c)) /\
    Climb.gain c == ele q - ele p.
Proof.
  intros Hnd Hc.
  destruct (climbs_ordered points Hnd) as [Hspan _].
  rewrite Forall_forall in Hspan.
  destruct (Hspan c Hc)
    as (d & e & f & tl & Hck & Hs & Hed & Hld & Hle & Hg & _ & Hch).
  pose proof (aggregate_shape (chunks points)) as Hshape.
  rewrite Forall_forall in Hshape.
  destruct (Hshape c Hc)
    as [(f' & tl' & Hck' & _ & _ & Hsum & _) Hincl].
  pose proof (chunks_ok points) as Hok. rewrite Forall_forall in Hok.
  assert (Hf : In f (Climb.chunks c)) by (rewrite Hck; now left).
  assert (Hl : In (last tl f) (Climb.chunks c)).
  { rewrite Hck. apply last_In. }
  destruct (Hok f (Hincl f Hf)) as (_ & _ & pf & _ & Hpf & _ & Hfd & Hfe & _).
  destruct (Hok _ (Hincl _ Hl)) as (_ & _ & _ & ql & _ & Hql & _ & _ & Hqd & Hqe).
  exists f, (last tl f), pf, ql.
  split; [rewrite Hck; reflexivity|].
  split; [rewrite Hck; apply last_cons_shift|].
  split; [exact Hpf|]. split; [exact Hql|].
  split; [congruence|]. split; [exact Hfe|].
  split; [congruence|]. split; [exact Hqe|].
  split.
  { rewrite Forall_forall. intros k Hk. apply (Hok k (Hincl k Hk)). }
  split.
  { intros i k1 k2 H1 H2. rewrite Hck in H1, H2.
    exact (chained_adjacent _ _ _ i k1 k2 Hch H1 H2). }
  split; [rewrite Hck'; exact Hsum|].
  rewrite Hg, <- Hle, Hqe, Hfe. reflexivity.
Qed.

(** ** Laps *)

Lemma lapLoop_flat (baseData : BaseData.t) (n : nat) :
  forall i acc,
    lapLoop n i baseData acc =
    acc ++ flat_map (fun j => lapPoints (ofNat j * BaseData.distance baseData)
                                        (BaseData.points baseData))
                    (seq i n).
Proof.
  induction n as [|n IH]; intros i acc; simpl.
  - now rewrite app_nil_r.
  - rewrite IH, <- app_assoc. reflexivity.
Qed.

Lemma fullPoints_flat (baseData : BaseData.t) (laps : nat) :
  fullPoints baseData laps =
  flat_map (fun j => lapPoints (ofNat j * BaseData.distance baseData)
                               (BaseData.points baseData))
           (seq 0 laps).
Proof. unfold fullPoints. apply lapLoop_flat. Qed.

Lemma nth_error_flat_map_seq {A : Type} (f : nat -> list A) (len : nat) :
  (forall j, List.length (f j) = len) ->
  forall n s i k,
    (i < n)%nat -> (k < len)%nat ->
    nth_error (flat_map f (seq s n)) (i * len + k) = nth_error (f (s + i)%nat) k.
Proof.
  intros Hlen. induction n as [|n IH]; intros s i k Hi Hk; [lia|].
  simpl. destruct i as [|i].
  - simpl. rewrite nth_error_app1 by (rewrite Hlen; exact Hk).
    now rewrite Nat.add_0_r.
  - rewrite nth_error_app2 by (rewrite Hlen; simpl; lia).
    rewrite Hlen. replace (S i * len + k - len)%nat with (i * len + k)%nat
      by (simpl; lia).
    rewrite IH by lia. f_equal. f_equal. lia.
Qed.

Lemma read_extend (h ext : Store.Heap) (r : Store.Ref) (p : Point) :
  Store.read h r = Some p -> Store.read (h ++ ext) r = Some p.
Proof.
  unfold Store.read. intros H. rewrite nth_error_app1; [exact H|].
  apply nth_error_Some. congruence.
Qed.

Lemma deref_extend (h ext : Store.Heap) (refs : list Store.Ref)
  (pts : list Point) :
  Store.deref h refs = Some pts -> Store.deref (h ++ ext) refs = Some pts.
Proof.
  revert pts. induction refs as [|r refs IH]; intros pts H; [exact H|].
  simpl in *. destruct (Store.read h r) as [p|] eqn:Er; [|discriminate].
  destruct (Store.deref h refs) as [ps|]; [|discriminate].
  rewrite (read_extend _ _ _ _ Er), (IH ps eq_refl). exact H.
Qed.

Lemma deref_fresh (h new : Store.Heap) :
  Store.deref (h ++ new) (seq (List.length h) (List.length new)) = Some new.
Proof.
  revert h. induction new as [|p new IH]; intros h; [reflexivity|].
  simpl. unfold Store.read. rewrite nth_error_app2 by lia.
  rewrite Nat.sub_diag. simpl.
  specialize (IH (h ++ [p])). rewrite <- app_assoc, length_app in IH.
  simpl in IH. rewrite Nat.add_1_r in IH. rewrite IH. reflexivity.
Qed.

Lemma deref_length (h : Store.Heap) (refs : list Store.Ref) (pts : list Point) :
  Store.deref h refs = Some pts -> List.length pts = List.length refs.
Proof.
  revert pts. induction refs as [|r refs IH]; intros pts H; simpl in H.
  - injection H as <-. reflexivity.
  - destruct (Store.read h r); [|discriminate].
    destruct (Store.deref h refs) as [ps|]; [|discriminate].
    injection H as <-. simpl. now rewrite (IH ps eq_refl).
Qed.

(** The [map] of one lap appends its new objects to the store and returns
    their addresses. *)
Lemma store_lapPoints_spec (lapOffset : Q) (h : Store.Heap)
  (refs : list Store.Ref) :
  forall pts ext,
    Store.deref h refs = Some pts ->
    Store.lapPoints lapOffset refs (h ++ ext) =
    Some ((h ++ ext) ++ lapPoints lapOffset pts,
          seq (List.length (h ++ ext)) (List.length refs)).
Proof.
  induction refs as [|r refs IH]; intros pts ext H; simpl in *.
  - injection H as <-. simpl. now rewrite app_nil_r.
  - destruct (Store.read h r) as [p|] eqn:Er; [|discriminate].
    destruct (Store.deref h refs) as [ps|] eqn:Ed; [|discriminate].
    injection H as <-.
    rewrite (read_extend _ _ _ _ Er).
    rewrite <- (app_assoc h ext).
    rewrite (IH ps _ eq_refl). simpl.
    rewrite !length_app. simpl. rewrite Nat.add_1_r, Nat.add_succ_r.
    rewrite <- !app_assoc. reflexivity.
Qed.

Lemma store_lapLoop_spec (h : Store.Heap) (refs : list Store.Ref)
  (pts : list Point) (distance : Q) (n : nat) :
  Store.deref h refs = Some pts ->
  forall i ext full,
    Store.lapLoop n i refs distance (h ++ ext) full =
    Some ((h ++ ext)
            ++ flat_map (fun j => lapPoints (ofNat j * distance) pts) (seq i n),
          full ++ seq (List.length (h ++ ext)) (n * List.length refs)).
Proof.
  intros Hd. induction n as [|n IH]; intros i ext full; simpl.
  - now rewrite !app_nil_r.
  - rewrite (store_lapPoints_spec _ _ _ _ _ Hd).
    rewrite <- (app_assoc h ext). rewrite IH.
    rewrite <- !app_assoc. f_equal. f_equal.
    rewrite seq_app. f_equal. f_equal.
    f_equal. rewrite !length_app. unfold lapPoints. rewrite length_map.
    rewrite (deref_length _ _ _ Hd). lia.
Qed.

(** The effect on the store: the new points are appended, [fullPoints]
    holds their addresses, and read through the store it is the array of
    the model without identities. *)
Lemma store_expand_spec (h : Store.Heap) (refs : list Store.Ref)
  (pts : list Point) (distance : Q) (laps : nat) :
  Store.deref h refs = Some pts ->
  let bd := BaseData.mk pts distance in
  Store.expand refs distance laps h =
  Some (h ++ fullPoints bd laps,
        seq (List.length h) (laps * List.length refs),
        totalDistance bd laps).
Proof.
  intros Hd bd. unfold Store.expand.
  pose proof (store_lapLoop_spec h refs pts distance laps Hd 0%nat [] []) as H.
  rewrite app_nil_r in H. rewrite H. simpl.
  rewrite fullPoints_flat. reflexivity.
Qed.

Lemma lapPoints_length (lapOffset : Q) (points : list Point) :
  List.length (lapPoints lapOffset points) = List.length points.
Proof. unfold lapPoints. apply length_map. Qed.

Lemma fullPoints_one (baseData : BaseData.t) :
  fullPoints baseData 1 =
  lapPoints (ofNat 0 * BaseData.distance baseData) (BaseData.points baseData).
Proof. rewrite fullPoints_flat. simpl. apply app_nil_r. Qed.

Lemma lapPoints_zero_same (distance : Q) (points : list Point) :
  Forall2 samePoint (lapPoints (ofNat 0 * distance) points) points.
Proof.
  induction points as [|p points IH]; simpl; constructor; [|exact IH].
  repeat split; simpl. unfold ofNat. simpl. ring.
Qed.

(** C7. For every base track and every number of laps N >= 1 the effect
    hands on a total distance of N times the distance of the lap; the
    expanded points are N times as many as the base points, the points of
    lap [i] being copies of the base points with [i * distance] added to
    their distance; the first lap of the expansion (for N = 2: its first
    half) is the expansion for a single lap, which has the elevations and
    the distances of the base points; and the expansion leaves every object
    that was in the store, the base points among them, as it was: the
    expanded points are new objects. *)
Theorem lap_expansion (h : Store.Heap) (refs : list Store.Ref)
  (base : list Point) (distance : Q) (laps : nat) :
  Store.deref h refs = Some base ->
  (1 <= laps)%nat ->
  let bd := BaseData.mk base distance in
  exists h' full,
    Store.expand refs distance laps h = Some (h', full, totalDistance bd laps) /\
    Store.deref h' full = Some (fullPoints bd laps) /\
    totalDistance bd laps == ofNat laps * distance /\
    totalDistance bd laps == ofNat laps * totalDistance bd 1 /\
    List.length (fullPoints bd laps) = (laps * List.length base)%nat /\
    (forall i k p,
        (i < laps)%nat -> nth_error base k = Some p ->
        nth_error (fullPoints bd laps) (i * List.length base + k) =
        Some (mkPoint (lat p) (lon p) (ele p) (dist p + ofNat i * distance))) /\
    firstn (List.length base) (fullPoints bd laps) = fullPoints bd 1 /\
    Forall2 samePoint (fullPoints bd 1) base /\
    (forall r, (r < List.length h)%nat -> Store.read h' r = Store.read h r) /\
    Store.deref h' refs = Some base /\
    Forall (fun r => (List.length h <= r)%nat) full.
Proof.
  intros Hd Hlaps bd.
  exists (h ++ fullPoints bd laps),
         (seq (List.length h) (laps * List.length refs)).
  assert (Hlen : List.length (fullPoints bd laps) = (laps * List.length base)%nat).
  { unfold fullPoints. rewrite lapLoop_length. reflexivity. }
  split; [exact (store_expand_spec h refs base distance laps Hd)|].
  split.
  { rewrite <- (deref_length _ _ _ Hd), <- Hlen. apply deref_fresh. }
  split; [unfold totalDistance; simpl; ring|].
  split; [unfold totalDistance, ofNat; simpl; ring|].
  split; [exact Hlen|].
  split.
  { intros i k p Hi Hk. rewrite fullPoints_flat.
    rewrite (nth_error_flat_map_seq _ (List.length base)).
    - simpl. unfold lapPoints. rewrite nth_error_map, Hk. reflexivity.
    - intros j. apply lapPoints_length.
    - exact Hi.
    - apply nth_error_Some. simpl in Hk. congruence. }
  split.
  { rewrite fullPoints_one, fullPoints_flat.
    destruct laps as [|n]; [lia|]. simpl.
    rewrite firstn_app, lapPoints_length, Nat.sub_diag. simpl.
    rewrite app_nil_r. apply firstn_all2. rewrite lapPoints_length. lia. }
  split; [rewrite fullPoints_one; apply lapPoints_zero_same|].
  split.
  { intros r Hr. unfold Store.read. apply nth_error_app1. exact Hr. }
  split; [apply deref_extend; exact Hd|].
  rewrite Forall_forall. intros r Hr. apply in_seq in Hr. lia.
Qed.

(** ** The states of the page *)

Lemma initialState_ok (haversineDistance : Q -> Q -> Q -> Q -> Q) (FD : Type) :
  stateOk haversineDistance (@initialState FD).
Proof. split; [simpl; lia|discriminate]. Qed.

Lemma processGPX_ok (haversineDistance : Q -> Q -> Q -> Q -> Q) (FD : Type)
  (trkpts : list RawPoint) (st : AppState FD) :
  stateOk haversineDistance st ->
  stateOk haversineDistance (processGPX haversineDistance trkpts st).
Proof.
  intros [Hlaps Hbd]. unfold processGPX.
  destruct (buildTrack haversineDistance trkpts) as [e|bd] eqn:E.
  - split; [exact Hlaps|exact Hbd].
  - split; [simpl; lia|]. simpl. intros bd' H. injection H as <-.
    exists trkpts. exact E.
Qed.

Lemma decrementLaps_ok (haversineDistance : Q -> Q -> Q -> Q -> Q) (FD : Type)
  (st : AppState FD) :
  stateOk haversineDistance st -> stateOk haversineDistance (decrementLaps st).
Proof. intros [_ Hbd]. split; [apply Nat.le_max_l|exact Hbd]. Qed.

Lemma incrementLaps_ok (haversineDistance : Q -> Q -> Q -> Q -> Q) (FD : Type)
  (st : AppState FD) :
  stateOk haversineDistance st -> stateOk haversineDistance (incrementLaps st).
Proof. intros [_ Hbd]. split; [apply Nat.le_max_l|exact Hbd]. Qed.

Lemma recalculate_ok (haversineDistance : Q -> Q -> Q -> Q -> Q) (FD : Type)
  (analyzeRoute : list Point -> Q -> option FD) (st : AppState FD) :
  stateOk haversineDistance st ->
  stateOk haversineDistance (recalculate analyzeRoute st).
Proof.
  intros Hok. unfold recalculate.
  destruct (baseData st) as [bd|] eqn:E; [|exact Hok].
  destruct (analyzeRoute _ _); [|exact Hok].
  destruct Hok as [Hlaps Hbd]. split; [exact Hlaps|].
  simpl. intros bd' H. apply Hbd. rewrite E. exact H.
Qed.

(** [analyzeRoute] returns a result on every non-empty array. *)
Lemma profiler_analyzeRoute_total (points : list Point) (totalDistance : Q) :
  points <> [] ->
  exists fd, Profiler.analyzeRoute points totalDistance = Some fd.
Proof.
  destruct points as [|p0 rest]; [congruence|]. intros _.
  eexists. reflexivity.
Qed.

Lemma tpv_analyzeRoute_total (points : list Point) (totalDistance : Q) :
  points <> [] ->
  exists fd, Tpv.analyzeRoute points totalDistance = Some fd.
Proof.
  destruct points as [|p0 rest]; [congruence|]. intros _.
  eexists. reflexivity.
Qed.

(** A document with track points is analysed: its base data are stored for
    one lap and the effect stores the result of [analyzeRoute] on them. *)
Lemma track_is_analysed (haversineDistance : Q -> Q -> Q -> Q -> Q)
  (trkpts : list RawPoint) (st : AppState Profiler.FileData.t) :
  trkpts <> [] ->
  exists bd fd,
    buildTrack haversineDistance trkpts = inr bd /\
    Profiler.analyzeRoute (fullPoints bd 1) (totalDistance bd 1) = Some fd /\
    let st' := update Profiler.analyzeRoute
                      (processGPX haversineDistance trkpts) st in
    baseData st' = Some bd /\ laps st' = 1%nat /\ fileData st' = Some fd.
Proof.
  intros Hne. destruct trkpts as [|p0 rest]; [congruence|].
  destruct (buildTrack haversineDistance (p0 :: rest)) as [e|bd] eqn:E.
  { unfold buildTrack in E. destruct (pointsWithDist _ _). discriminate. }
  assert (Hpts : BaseData.points bd <> []).
  { unfold buildTrack in E. destruct (pointsWithDist _ _) as [wd td] eqn:Ew.
    injection E as <-. simpl. intros E'.
    apply (f_equal (@List.length Point)) in E'.
    rewrite smoothElevation_length in E'.
    unfold pointsWithDist in Ew. destruct (withDistFrom _ _ _ _).
    injection Ew as <- _. discriminate. }
  pose proof (fullPoints_nonempty bd 1 Hpts (le_n 1)) as Hfull.
  destruct (profiler_analyzeRoute_total _ (totalDistance bd 1) Hfull)
    as [fd Hfd].
  exists bd, fd. split; [reflexivity|]. split; [exact Hfd|].
  unfold update, useEffect, processGPX. rewrite E. simpl.
  assert (Hid : Nat.eqb (baseDataId st) (S (baseDataId st)) = false)
    by (apply Nat.eqb_neq; lia).
  rewrite Hid. simpl.
  unfold recalculate. simpl. rewrite Hfd. simpl. auto.
Qed.

(** ** The empty track *)

(** C8. When the document holds no track point, track building stops with
    the error "No track points found": [processGPX] stores no base data, the
    effect that runs the analysis is not triggered, and the state keeps the
    result, the base data and the laps it had; only the error is logged and
    the processing flag is cleared. *)
Theorem empty_track_is_rejected
  (haversineDistance : Q -> Q -> Q -> Q -> Q) (FD : Type)
  (analyzeRoute : list Point -> Q -> option FD) (st : AppState FD) :
  buildTrack haversineDistance [] = inl NoTrackPoints /\
  let st' := update analyzeRoute (processGPX haversineDistance []) st in
  st' = processGPX haversineDistance [] st /\
  fileData st' = fileData st /\
  baseData st' = baseData st /\
  baseDataId st' = baseDataId st /\
  laps st' = laps st /\
  isProcessing st' = false /\
  console st' = console st ++ ["No track points found in GPX file."%string].
Proof.
  split; [reflexivity|].
  unfold update, useEffect, processGPX. simpl.
  rewrite !Nat.eqb_refl. simpl. repeat split.
Qed.

(** ** Scenario B *)

(** The scores of the earlier page when the track has a single climb of
    5 km that gains 250 m and ends at the finish of a course of 50 km. *)
Lemma tpv_single_climb (points : list Point) (c : Climb.t) :
  points <> [] ->
  climbs points = [c] ->
  Climb.endDist c - Climb.startDist c == 5 ->
  Climb.gain c == 250 ->
  Climb.endDist c == 50 ->
  exists fd sc,
    Tpv.analyzeRoute points 50 = Some fd /\
    Tpv.FileData.climbs fd = [sc] /\
    Tpv.Scored.lengthKm sc == 5 /\
    Tpv.Scored.gradientAvg sc == 5 /\
    Tpv.Scored.rawScore sc == 31.25 /\
    Tpv.Scored.multiplier sc = 1.0 /\
    Tpv.Scored.finalScore sc == 31.25 /\
    Tpv.FileData.totalScore fd == 31.25 /\
    Tpv.FileData.finalProfileScore fd == 31.25 /\
    Tpv.FileData.tpvClimbWeighting fd == 80.
Proof.
  intros Hne Hc Hlen Hgain Hend.
  destruct points as [|p0 rest]; [congruence|].
  assert (Hvalid : Tpv.validClimbs (p0 :: rest) 50 = [Tpv.scoreClimb 50 c]).
  { unfold Tpv.validClimbs. rewrite Hc. simpl.
    assert (Hk : Qgtb (Climb.gain c) 20 = true) by (apply Qgtb_gt; lra).
    rewrite Hk. reflexivity. }
  assert (Hg : Tpv.Scored.gradientAvg (Tpv.scoreClimb 50 c) == 5).
  { simpl. rewrite Hlen, Hgain. reflexivity. }
  assert (Hraw : Tpv.Scored.rawScore (Tpv.scoreClimb 50 c) == 31.25).
  { change (Tpv.Scored.rawScore (Tpv.scoreClimb 50 c))
      with (Qpower (Tpv.Scored.gradientAvg (Tpv.scoreClimb 50 c) / 2) 2
            * (Climb.endDist c - Climb.startDist c)).
    rewrite Hg, Hlen. reflexivity. }
  assert (Hm : Tpv.Scored.multiplier (Tpv.scoreClimb 50 c) = 1.0).
  { simpl. apply multiplierFor_cases. lra. }
  assert (Hfin : Tpv.Scored.finalScore (Tpv.scoreClimb 50 c) == 31.25).
  { change (Tpv.Scored.finalScore (Tpv.scoreClimb 50 c))
      with (Tpv.Scored.rawScore (Tpv.scoreClimb 50 c)
            * Tpv.Scored.multiplier (Tpv.scoreClimb 50 c)).
    rewrite Hraw, Hm. reflexivity. }
  assert (Htot : Tpv.totalScore (p0 :: rest) 50 == 31.25).
  { unfold Tpv.totalScore. rewrite Hvalid. unfold Tpv.sumFinalScore. simpl fold_left.
    rewrite Hfin. reflexivity. }
  assert (Hfz : Tpv.finalProfileScore (p0 :: rest) 50 == 31.25).
  { unfold Tpv.finalProfileScore, Tpv.finalClimbs. rewrite Hvalid. simpl filter.
    assert (Hk : Qgeb (Climb.endDist c) (50 - 25) = true) by (apply Qgeb_ge; lra).
    rewrite Hk. unfold Tpv.sumFinalScore. simpl fold_left. rewrite Hfin. reflexivity. }
  eexists. exists (Tpv.scoreClimb 50 c).
  split; [reflexivity|]. simpl Tpv.FileData.climbs.
  split; [exact Hvalid|].
  split; [exact Hlen|]. split; [exact Hg|]. split; [exact Hraw|].
  split; [exact Hm|]. split; [exact Hfin|].
  simpl Tpv.FileData.totalScore. simpl Tpv.FileData.finalProfileScore.
  simpl Tpv.FileData.tpvClimbWeighting.
  split; [exact Htot|]. split; [exact Hfz|].
  unfold Tpv.tpvClimbWeighting, Tpv.tpvClimbWeightingRatio, Tpv.finalZoneMetricCapped,
    Tpv.finalZoneRatioUncapped, Tpv.overallMetric.
  change (Qgtb 50 0) with true. change (Qltb 50 20) with false. simpl andb. cbv iota.
  rewrite Htot, Hfz. reflexivity.
Qed.

(** The scores of the page [PCS profiler.jsx] on the same track. *)
Lemma profiler_single_climb (points : list Point) (c : Climb.t) :
  points <> [] ->
  climbs points = [c] ->
  Climb.endDist c - Climb.startDist c == 5 ->
  Climb.gain c == 250 ->
  Climb.endDist c == 50 ->
  exists fd sc,
    Profiler.analyzeRoute points 50 = Some fd /\
    Profiler.FileData.climbs fd = [sc] /\
    Profiler.Scored.gradientAvg sc == 5 /\
    Profiler.Scored.rawScore sc == 31.25 /\
    Profiler.Scored.multiplier sc = 1.0 /\
    Profiler.Scored.finalScore sc == 31.25 /\
    Profiler.FileData.totalScore fd == 31.25.
Proof.
  intros Hne Hc Hlen Hgain Hend.
  destruct points as [|p0 rest]; [congruence|].
  assert (Hvalid : Profiler.validClimbs (p0 :: rest) 50
                   = [Profiler.scoreClimb 50 0 c]).
  { unfold Profiler.validClimbs. rewrite Hc. simpl filter.
    assert (Hk : Qgtb (Climb.gain c) 20 = true) by (apply Qgtb_gt; lra).
    rewrite Hk. reflexivity. }
  assert (Hg : Profiler.Scored.gradientAvg (Profiler.scoreClimb 50 0 c) == 5).
  { simpl.
    assert (Hk : Qgtb (Climb.endDist c - Climb.startDist c) 0 = true)
      by (apply Qgtb_gt; lra).
    rewrite Hk, Hlen, Hgain. reflexivity. }
  assert (Hraw : Profiler.Scored.rawScore (Profiler.scoreClimb 50 0 c) == 31.25).
  { change (Profiler.Scored.rawScore (Profiler.scoreClimb 50 0 c))
      with (Qpower (Profiler.Scored.gradientAvg (Profiler.scoreClimb 50 0 c) / 2) 2
            * (Climb.endDist c - Climb.startDist c)).
    rewrite Hg, Hlen. reflexivity. }
  assert (Hm : Profiler.Scored.multiplier (Profiler.scoreClimb 50 0 c) = 1.0).
  { simpl. apply multiplierFor_cases. lra. }
  assert (Hfin : Profiler.Scored.finalScore (Profiler.scoreClimb 50 0 c) == 31.25).
  { change (Profiler.Scored.finalScore (Profiler.scoreClimb 50 0 c))
      with (Profiler.Scored.rawScore (Profiler.scoreClimb 50 0 c)
            * Profiler.Scored.multiplier (Profiler.scoreClimb 50 0 c)).
    rewrite Hraw, Hm. reflexivity. }
  eexists. exists (Profiler.scoreClimb 50 0 c).
  split; [reflexivity|]. simpl Profiler.FileData.climbs.
  split; [exact Hvalid|].
  split; [exact Hg|]. split; [exact Hraw|].
  split; [exact Hm|]. split; [exact Hfin|].
  simpl Profiler.FileData.totalScore.
  unfold Profiler.totalScore. rewrite Hvalid.
  unfold Profiler.sumFinalScore. simpl fold_left. rewrite Hfin. reflexivity.
Qed.

(** C2, as the code has it.  For a track with a single climb of 5 km that
    gains exactly 250 m and has its summit at the finish of a course of
    50 km, the analysis yields an average gradient of 5, a raw score of
    [(5 / 2)^2 * 5 = 31.25], a position multiplier of 1.0, a final score and
    an overall score of 31.25, and a climb weighting of 80: the ratio is
    [max (31.25 / 100) (min (31.25 / 25) 0.8) = 0.8]. *)
Theorem scenario_B_scores (points : list Point) (c : Climb.t) :
  points <> [] ->
  climbs points = [c] ->
  Climb.endDist c - Climb.startDist c == 5 ->
  Climb.gain c == 250 ->
  Climb.endDist c == 50 ->
  (exists fd sc,
      Tpv.analyzeRoute points 50 = Some fd /\
      Tpv.FileData.climbs fd = [sc] /\
      Tpv.Scored.gradientAvg sc == 5 /\
      Tpv.Scored.rawScore sc == 31.25 /\
      Tpv.Scored.multiplier sc = 1.0 /\
      Tpv.Scored.finalScore sc == 31.25 /\
      Tpv.FileData.totalScore fd == 31.25 /\
      Tpv.FileData.tpvClimbWeighting fd == 80) /\
  (exists fd sc,
      Profiler.analyzeRoute points 50 = Some fd /\
      Profiler.FileData.climbs fd = [sc] /\
      Profiler.Scored.rawScore sc == 31.25 /\
      Profiler.Scored.multiplier sc = 1.0 /\
      Profiler.Scored.finalScore sc == 31.25 /\
      Profiler.FileData.totalScore fd == 31.25).
Proof.
  intros Hne Hc Hlen Hgain Hend. split.
  - destruct (tpv_single_climb points c Hne Hc Hlen Hgain Hend)
      as (fd & sc & H1 & H2 & _ & H3 & H4 & H5 & H6 & H7 & _ & H8).
    exists fd, sc. repeat split; assumption.
  - destruct (profiler_single_climb points c Hne Hc Hlen Hgain Hend)
      as (fd & sc & H1 & H2 & _ & H3 & H4 & H5 & H6).
    exists fd, sc. repeat split; assumption.
Qed.

(** On the track of scenario B the analysis does not yield the raw score
    62.5, nor the final and overall scores 62.5. *)
Lemma scenario_B_not_62_5 :
  ~ (exists fd sc,
        Tpv.analyzeRoute scenarioB 50 = Some fd /\
        Tpv.FileData.climbs fd = [sc] /\
        Tpv.Scored.rawScore sc == 62.5 /\
        Tpv.Scored.multiplier sc == 1.0 /\
        Tpv.Scored.finalScore sc == 62.5 /\
        Tpv.FileData.totalScore fd == 62.5 /\
        Tpv.FileData.tpvClimbWeighting fd == 80).
Proof.
  intros (fd & sc & Hfd & Hc & Hraw & _).
  vm_compute in Hfd. injection Hfd as <-.
  vm_compute in Hc. injection Hc as <-.
  vm_compute in Hraw. discriminate Hraw.
Qed.

(** ** The theorems at work on the example tracks *)

Lemma axisDistance_nonneg (lat1 lon1 lat2 lon2 : Q) :
  0 <= axisDistance lat1 lon1 lat2 lon2.
Proof.
  unfold axisDistance.
  pose proof (Qabs_nonneg (lat2 - lat1)). pose proof (Qabs_nonneg (lon2 - lon1)).
  lra.
Qed.

Lemma climb_weighting_percent_witness :
  (forall lat1 lon1 lat2 lon2, 0 <= axisDistance lat1 lon1 lat2 lon2) /\
  buildTrack axisDistance sampleTrkpts = inr sampleBase /\
  (1 <= 2)%nat /\
  exists fd,
    Tpv.analyzeRoute (fullPoints sampleBase 2) (totalDistance sampleBase 2)
    = Some fd /\
    let overallScore := Tpv.FileData.totalScore fd in
    let finalZoneScore := Tpv.FileData.finalProfileScore fd in
    let courseLength := Tpv.FileData.totalDistance fd in
    let weighting := Tpv.FileData.tpvClimbWeighting fd in
    (0 < courseLength -> courseLength < 20 ->
     weighting == Qmin (overallScore / courseLength * 100) 100) /\
    (~ (0 < courseLength /\ courseLength < 20) ->
     weighting ==
     Qmin (Qmax (overallScore / 100) (Qmin (finalZoneScore / 25) 0.8) * 100)
          100) /\
    0 <= weighting /\ weighting <= 100.
Proof.
  split; [exact axisDistance_nonneg|].
  split; [vm_compute; reflexivity|].
  split; [lia|].
  apply (climb_weighting_percent axisDistance axisDistance_nonneg
                                 sampleTrkpts sampleBase 2).
  - vm_compute. reflexivity.
  - lia.
Defined.

Lemma scenario_B_scores_witness :
  scenarioB <> [] /\
  climbs scenarioB = [scenarioBClimb] /\
  Climb.endDist scenarioBClimb - Climb.startDist scenarioBClimb == 5 /\
  Climb.gain scenarioBClimb == 250 /\
  Climb.endDist scenarioBClimb == 50 /\
  (exists fd sc,
      Tpv.analyzeRoute scenarioB 50 = Some fd /\
      Tpv.FileData.climbs fd = [sc] /\
      Tpv.Scored.gradientAvg sc == 5 /\
      Tpv.Scored.rawScore sc == 31.25 /\
      Tpv.Scored.multiplier sc = 1.0 /\
      Tpv.Scored.finalScore sc == 31.25 /\
      Tpv.FileData.totalScore fd == 31.25 /\
      Tpv.FileData.tpvClimbWeighting fd == 80) /\
  (exists fd sc,
      Profiler.analyzeRoute scenarioB 50 = Some fd /\
      Profiler.FileData.climbs fd = [sc] /\
      Profiler.Scored.rawScore sc == 31.25 /\
      Profiler.Scored.multiplier sc = 1.0 /\
      Profiler.Scored.finalScore sc == 31.25 /\
      Profiler.FileData.totalScore fd == 31.25).
Proof.
  assert (H1 : scenarioB <> []) by discriminate.
  assert (H2 : climbs scenarioB = [scenarioBClimb])
    by (vm_compute; reflexivity).
  assert (H3 : Climb.endDist scenarioBClimb - Climb.startDist scenarioBClimb
               == 5) by reflexivity.
  assert (H4 : Climb.gain scenarioBClimb == 250) by reflexivity.
  assert (H5 : Climb.endDist scenarioBClimb == 50) by reflexivity.
  repeat (split; [assumption|]).
  exact (scenario_B_scores scenarioB scenarioBClimb H1 H2 H3 H4 H5).
Defined.

Lemma position_multiplier_witness :
  scenarioB <> [] /\
  exists fd,
    Profiler.analyzeRoute scenarioB 50 = Some fd /\
    forall c, In c (Profiler.FileData.climbs fd) ->
      let d := Profiler.Scored.distFromFinish c in
      let m := Profiler.Scored.multiplier c in
      d = 50 - Profiler.Scored.endDist c /\
      (d <= 10 -> m = 1.0) /\
      (10 < d -> d <= 25 -> m = 0.8) /\
      (25 < d -> d <= 50 -> m = 0.6) /\
      (50 < d -> d <= 75 -> m = 0.4) /\
      (75 < d -> m = 0.2) /\
      Profiler.Scored.finalScore c = Profiler.Scored.rawScore c * m.
Proof.
  split; [discriminate|].
  apply (position_multiplier scenarioB 50). discriminate.
Defined.

Lemma chunking_back_to_back_witness :
  nondecreasing shortTrack /\
  (forall k c1 c2,
      nth_error (chunks shortTrack) k = Some c1 ->
      nth_error (chunks shortTrack) (S k) = Some c2 ->
      Chunk.endDist c1 = Chunk.startDist c2) /\
  (forall i j ci cj,
      (i < j)%nat ->
      nth_error (chunks shortTrack) i = Some ci ->
      nth_error (chunks shortTrack) j = Some cj ->
      Chunk.endDist ci <= Chunk.startDist cj) /\
  Forall (fun c => CHUNK_SIZE <= Chunk.endDist c - Chunk.startDist c)
         (chunks shortTrack) /\
  (forall p0 rest,
      shortTrack = p0 :: rest ->
      (forall c cs, chunks shortTrack = c :: cs -> Chunk.startDist c = dist p0) /\
      coveredEnd (dist p0) (chunks shortTrack) <= dist (last shortTrack p0) /\
      dist (last shortTrack p0) - coveredEnd (dist p0) (chunks shortTrack)
      < CHUNK_SIZE).
Proof.
  split; [reflexivity|].
  apply (chunking_back_to_back shortTrack). reflexivity.
Defined.

Lemma uphill_threshold_is_strict_witness :
  Chunk.gradient thresholdChunk == 1.5 /\
  isUphill thresholdChunk = false /\
  aggStep ([], None) thresholdChunk = ([], None) /\
  aggStep ([], Some openClimb) thresholdChunk = ([openClimb], None).
Proof.
  assert (H : Chunk.gradient thresholdChunk == 1.5) by reflexivity.
  split; [exact H|].
  exact (proj1 (proj2 (proj2 (proj2
           (uphill_threshold_is_strict thresholdChunk [] openClimb)))) H).
Defined.

Lemma climbs_do_not_overlap_witness :
  (forall lat1 lon1 lat2 lon2, 0 <= axisDistance lat1 lon1 lat2 lon2) /\
  buildTrack axisDistance sampleTrkpts = inr sampleBase /\
  (1 <= 2)%nat /\
  exists fd,
    Profiler.analyzeRoute (fullPoints sampleBase 2) (totalDistance sampleBase 2)
    = Some fd /\
    (forall i a b,
        nth_error (Profiler.FileData.climbs fd) i = Some a ->
        nth_error (Profiler.FileData.climbs fd) (S i) = Some b ->
        Profiler.Scored.endDist a <= Profiler.Scored.startDist b /\
        Profiler.Scored.startDist a < Profiler.Scored.startDist b) /\
    (forall i j a b,
        (i < j)%nat ->
        nth_error (Profiler.FileData.climbs fd) i = Some a ->
        nth_error (Profiler.FileData.climbs fd) j = Some b ->
        Profiler.Scored.endDist a <= Profiler.Scored.startDist b /\
        Profiler.Scored.startDist a < Profiler.Scored.startDist b).
Proof.
  split; [exact axisDistance_nonneg|].
  split; [vm_compute; reflexivity|].
  split; [lia|].
  apply (climbs_do_not_overlap axisDistance axisDistance_nonneg
                               sampleTrkpts sampleBase 2).
  - vm_compute. reflexivity.
  - lia.
Defined.

Lemma lap_expansion_witness :
  Store.deref sampleHeap sampleRefs = Some sampleHeap /\
  (1 <= 2)%nat /\
  let bd := BaseData.mk sampleHeap 5 in
  exists h' full,
    Store.expand sampleRefs 5 2 sampleHeap = Some (h', full, totalDistance bd 2) /\
    Store.deref h' full = Some (fullPoints bd 2) /\
    totalDistance bd 2 == ofNat 2 * 5 /\
    totalDistance bd 2 == ofNat 2 * totalDistance bd 1 /\
    List.length (fullPoints bd 2) = (2 * List.length sampleHeap)%nat /\
    (forall i k p,
        (i < 2)%nat -> nth_error sampleHeap k = Some p ->
        nth_error (fullPoints bd 2) (i * List.length sampleHeap + k) =
        Some (mkPoint (lat p) (lon p) (ele p) (dist p + ofNat i * 5))) /\
    firstn (List.length sampleHeap) (fullPoints bd 2) = fullPoints bd 1 /\
    Forall2 samePoint (fullPoints bd 1) sampleHeap /\
    (forall r, (r < List.length sampleHeap)%nat ->
               Store.read h' r = Store.read sampleHeap r) /\
    Store.deref h' sampleRefs = Some sampleHeap /\
    Forall (fun r => (List.length sampleHeap <= r)%nat) full.
Proof.
  split; [reflexivity|].
  split; [lia|].
  apply (lap_expansion sampleHeap sampleRefs sampleHeap 5 2).
  - reflexivity.
  - lia.
Defined.

Lemma average_gradient_guard_witness :
  nondecreasing scenarioB /\
  (forall c, In c (Profiler.validClimbs scenarioB 50) ->
     CHUNK_SIZE <= Profiler.Scored.lengthKm c /\
     Profiler.Scored.gradientAvg c
     = (Profiler.Scored.gain c / (Profiler.Scored.lengthKm c * 1000)) * 100) /\
  (forall c, In c (Tpv.validClimbs scenarioB 50) ->
     CHUNK_SIZE <= Tpv.Scored.lengthKm c /\
     Tpv.Scored.gradientAvg c
     = (Tpv.Scored.gain c / (Tpv.Scored.lengthKm c * 1000)) * 100).
Proof.
  assert (H : nondecreasing scenarioB) by (vm_compute; reflexivity).
  split; [exact H|].
  exact (proj2 (average_gradient_guard scenarioB 50) H).
Defined.

Lemma climb_gain_telescopes_witness :
  nondecreasing scenarioB /\
  In scenarioBClimb (climbs scenarioB) /\
  exists first final p q,
    hd_error (Climb.chunks scenarioBClimb) = Some first /\
    last (Climb.chunks scenarioBClimb) first = final /\
    In p scenarioB /\ In q scenarioB /\
    Climb.startDist scenarioBClimb = dist p /\ Chunk.startEle first = ele p /\
    Climb.endDist scenarioBClimb = dist q /\ Chunk.endEle final = ele q /\
    Forall (fun k => Chunk.gain k = Chunk.endEle k - Chunk.startEle k)
           (Climb.chunks scenarioBClimb) /\
    (forall i k1 k2,
        nth_error (Climb.chunks scenarioBClimb) i = Some k1 ->
        nth_error (Climb.chunks scenarioBClimb) (S i) = Some k2 ->
        Chunk.endDist k1 = Chunk.startDist k2 /\
        Chunk.endEle k1 = Chunk.startEle k2) /\
    Climb.gain scenarioBClimb == sumQ (map Chunk.gain (Climb.chunks scenarioBClimb)) /\
    Climb.gain scenarioBClimb == ele q - ele p.
Proof.
  assert (H1 : nondecreasing scenarioB) by (vm_compute; reflexivity).
  assert (H2 : In scenarioBClimb (climbs scenarioB))
    by (left; vm_compute; reflexivity).
  split; [exact H1|]. split; [exact H2|].
  exact (climb_gain_telescopes scenarioB scenarioBClimb H1 H2).
Defined.

(** ** The gain of a climb in double precision *)

Section Rounding.

Import PrimFloat.
Local Open Scope float_scope.
#[local] Set Warnings "-inexact-float".











(** The figures of that track: the two chunks, the climb and the
    difference of the elevations at its ends. *)
Example rounding_track_figures :
  map Double.Chunk.gain (Double.chunks Double.roundingTrack)
  = [10.1; 20.200000000000003] /\
  map Double.Chunk.gradient (Double.chunks Double.roundingTrack)
  = [2.02; 4.040000000000001] /\
  map Double.Climb.gain (Double.climbs Double.roundingTrack)
  = [30.300000000000004] /\
  31.3 - 1 = 30.3.
Proof. repeat split; vm_compute; reflexivity. Qed.

End Rounding.

(** ** The other scenarios of the specification *)

(** Scenario A: a flat track has no climb, no score and no weighting. *)
Example scenario_A :
  exists fd,
    Tpv.analyzeRoute scenarioA 9 = Some fd /\
    Tpv.FileData.climbs fd = [] /\
    Tpv.FileData.totalScore fd == 0 /\
    Tpv.FileData.tpvClimbWeighting fd == 0.
Proof. eexists. repeat split; vm_compute; reflexivity. Qed.

(** Scenario C: an overall score of 45 on a course of 15 km gives the
    weighting [min ((45 / 15) * 100) 100 = 100], whatever the final-zone
    score. *)
Example scenario_C (finalZoneScore : Q) :
  Tpv.tpvClimbWeighting 45 finalZoneScore 15 == 100.
Proof. reflexivity. Qed.

(** ** Off the tracks of the page *)

(** The assumption of non-decreasing distances is needed.  When the inner
    loop runs off the array the outer loop goes on with the next point, and
    on an array whose distances fall back it pushes a chunk that does not
    start where the last one ended; the climb made of the two has a negative
    length and a gain that is not the difference of its end elevations. *)
Example unordered_track :
  ~ nondecreasing unorderedTrack /\
  map (fun k => (Chunk.startDist k, Chunk.endDist k)) (chunks unorderedTrack)
  = [(10, 10.2); (0, 0.2)] /\
  exists c,
    climbs unorderedTrack = [c] /\
    Climb.endDist c - Climb.startDist c < 0 /\
    Climb.gain c == 200 /\
    ele (last unorderedTrack (trackPoint 0 0)) - ele (trackPoint 10 0) == 150.
Proof.
  split; [|split].
  - unfold nondecreasing. vm_compute. discriminate.
  - vm_compute. reflexivity.
  - eexists. split; [vm_compute; reflexivity|].
    repeat split; vm_compute; reflexivity.
Qed.

(** * Further properties of the pages *)

(** ** The multiplier and the scores *)

Lemma multiplierFor_monotone (d1 d2 : Q) :
  d1 <= d2 ->
  multiplierFor d2 <= multiplierFor d1 /\
  0.2 <= multiplierFor d2 /\ multiplierFor d1 <= 1.
Proof.
  intros H. unfold multiplierFor.
  destruct (Qleb d1 10) eqn:A1, (Qleb d1 25) eqn:A2,
           (Qleb d1 50) eqn:A3, (Qleb d1 75) eqn:A4; qprop;
    try (exfalso; lra);
  destruct (Qleb d2 10) eqn:B1, (Qleb d2 25) eqn:B2,
           (Qleb d2 50) eqn:B3, (Qleb d2 75) eqn:B4; qprop;
    try (exfalso; lra); repeat split; lra.
Qed.

(** X1. The positional multiplier never grows with the distance to the
    finish, and it stays between 0.2 and 1. *)
Theorem multiplier_antitone (d1 d2 : Q) :
  d1 <= d2 ->
  multiplierFor d2 <= multiplierFor d1 /\
  0.2 <= multiplierFor d2 /\ multiplierFor d1 <= 1.
Proof. apply multiplierFor_monotone. Qed.

Lemma multiplier_antitone_witness :
  5 <= 30 /\
  multiplierFor 30 <= multiplierFor 5 /\
  0.2 <= multiplierFor 30 /\ multiplierFor 5 <= 1.
Proof.
  assert (H : 5 <= 30) by (vm_compute; discriminate).
  split; [exact H|]. exact (multiplier_antitone 5 30 H).
Defined.

Lemma Qmax_either (x y : Q) : Qmax x y = x \/ Qmax x y = y.
Proof.
  unfold Qmax, GenericMinMax.gmax. destruct (x ?= y); auto.
Qed.

Lemma Qmin_either (x y : Q) : Qmin x y = x \/ Qmin x y = y.
Proof.
  unfold Qmin, GenericMinMax.gmin. destruct (x ?= y); auto.
Qed.

Lemma fold_Qmax_in (xs : list Q) :
  forall x, In (fold_left Qmax xs x) (x :: xs).
Proof.
  induction xs as [|y xs IH]; intros x; [now left|].
  simpl fold_left. destruct (IH (Qmax x y)) as [H|H].
  - rewrite <- H. destruct (Qmax_either x y) as [E|E]; rewrite E; simpl; auto.
  - right. right. exact H.
Qed.

Lemma fold_Qmax_ge (xs : list Q) :
  forall x, x <= fold_left Qmax xs x /\
            Forall (fun y => y <= fold_left Qmax xs x) xs.
Proof.
  induction xs as [|y xs IH]; intros x; simpl.
  - split; [lra|constructor].
  - destruct (IH (Qmax x y)) as [H1 H2].
    pose proof (Q.le_max_l x y). pose proof (Q.le_max_r x y).
    split; [lra|]. constructor; [lra|exact H2].
Qed.

Lemma fold_Qmin_in (xs : list Q) :
  forall x, In (fold_left Qmin xs x) (x :: xs).
Proof.
  induction xs as [|y xs IH]; intros x; [now left|].
  simpl fold_left. destruct (IH (Qmin x y)) as [H|H].
  - rewrite <- H. destruct (Qmin_either x y) as [E|E]; rewrite E; simpl; auto.
  - right. right. exact H.
Qed.

Lemma fold_Qmin_le (xs : list Q) :
  forall x, fold_left Qmin xs x <= x /\
            Forall (fun y => fold_left Qmin xs x <= y) xs.
Proof.
  induction xs as [|y xs IH]; intros x; simpl.
  - split; [lra|constructor].
  - destruct (IH (Qmin x y)) as [H1 H2].
    pose proof (Q.le_min_l x y). pose proof (Q.le_min_r x y).
    split; [lra|]. constructor; [lra|exact H2].
Qed.

(** The climbs of the result, before the sort, in terms of the climbs that
    pass the filter. *)
Lemma profiler_validClimbs_In (points : list Point) (totalDistance : Q)
  (c : Profiler.Scored.t) :
  In c (Profiler.validClimbs points totalDistance) ->
  exists j x,
    In x (climbs points) /\ 20 < Climb.gain x /\
    c = Profiler.scoreClimb totalDistance j x.
Proof.
  intros Hc. unfold Profiler.validClimbs in Hc.
  apply In_sortBy in Hc. unfold mapi in Hc.
  apply In_mapiFrom in Hc. destruct Hc as (j & x & Hx & ->).
  apply filter_In in Hx. destruct Hx as [Hx Hg]. apply Qgtb_gt in Hg.
  exists j, x. auto.
Qed.

(** X2. Every climb of the result gained more than 20 m, has an empty
    name, and is made of at least one chunk; its maximal gradient is the
    gradient of one of its chunks, no chunk of it is steeper, and all of
    them, the steepest included, are steeper than 1.5. *)
Theorem retained_climbs (points : list Point) (totalDistance : Q)
  (c : Profiler.Scored.t) :
  In c (Profiler.validClimbs points totalDistance) ->
  20 < Profiler.Scored.gain c /\
  Profiler.Scored.name c = String.EmptyString /\
  Profiler.Scored.chunks c <> [] /\
  exists g,
    Profiler.Scored.maxGradient c = Some g /\
    1.5 < g /\
    (exists k, In k (Profiler.Scored.chunks c) /\ Chunk.gradient k = g) /\
    (forall k, In k (Profiler.Scored.chunks c) ->
               1.5 < Chunk.gradient k /\ Chunk.gradient k <= g).
Proof.
  intros Hc.
  destruct (profiler_validClimbs_In _ _ _ Hc) as (j & x & Hx & Hg & ->).
  pose proof (aggregate_shape (chunks points)) as Hshape.
  rewrite Forall_forall in Hshape.
  destruct (Hshape x Hx) as [(f & tl & Hck & _ & _ & _ & Hup) _].
  simpl. rewrite Hck. split; [exact Hg|]. split; [reflexivity|].
  split; [discriminate|].
  simpl. eexists. split; [reflexivity|].
  set (g := fold_left Qmax (map Chunk.gradient tl) (Chunk.gradient f)).
  assert (Hin : exists k, In k (f :: tl) /\ Chunk.gradient k = g).
  { pose proof (fold_Qmax_in (map Chunk.gradient tl) (Chunk.gradient f)) as H.
    fold g in H. change (In g (map Chunk.gradient (f :: tl))) in H.
    apply in_map_iff in H. destruct H as (k & Hk & Hkin). exists k. auto. }
  assert (Hall : forall k, In k (f :: tl) ->
                           1.5 < Chunk.gradient k /\ Chunk.gradient k <= g).
  { intros k Hk. rewrite Forall_forall in Hup.
    split; [apply isUphill_gt, Hup, Hk|].
    destruct (fold_Qmax_ge (map Chunk.gradient tl) (Chunk.gradient f))
      as [H1 H2]. fold g in H1, H2.
    destruct Hk as [<-|Hk]; [exact H1|].
    rewrite Forall_forall in H2. apply H2. now apply in_map. }
  split; [|split; assumption].
  destruct Hin as (k & Hk & <-). apply Hall. exact Hk.
Qed.

Lemma retained_climbs_witness :
  In (Profiler.scoreClimb 50 0 scenarioBClimb) (Profiler.validClimbs scenarioB 50) /\
  20 < Profiler.Scored.gain (Profiler.scoreClimb 50 0 scenarioBClimb) /\
  Profiler.Scored.name (Profiler.scoreClimb 50 0 scenarioBClimb)
  = String.EmptyString /\
  Profiler.Scored.chunks (Profiler.scoreClimb 50 0 scenarioBClimb) <> [] /\
  exists g,
    Profiler.Scored.maxGradient (Profiler.scoreClimb 50 0 scenarioBClimb)
    = Some g /\
    1.5 < g /\
    (exists k, In k (Profiler.Scored.chunks (Profiler.scoreClimb 50 0 scenarioBClimb))
               /\ Chunk.gradient k = g) /\
    (forall k, In k (Profiler.Scored.chunks (Profiler.scoreClimb 50 0 scenarioBClimb)) ->
               1.5 < Chunk.gradient k /\ Chunk.gradient k <= g).
Proof.
  assert (H : In (Profiler.scoreClimb 50 0 scenarioBClimb)
                 (Profiler.validClimbs scenarioB 50))
    by (left; vm_compute; reflexivity).
  split; [exact H|].
  exact (retained_climbs scenarioB 50 _ H).
Defined.

(** X3. On a track with non-decreasing distances the identifiers of the
    climbs count from 1 in the order of the list, which is the order of the
    climbs along the course. *)
Theorem climb_ids_count_along_course (points : list Point)
  (totalDistance : Q) (i : nat) (c : Profiler.Scored.t) :
  nondecreasing points ->
  nth_error (Profiler.validClimbs points totalDistance) i = Some c ->
  Profiler.Scored.id c = (i + 1)%nat.
Proof.
  intros Hnd Hc.
  destruct (profiler_validClimbs_nth _ _ _ _ Hnd Hc) as (x & _ & ->).
  reflexivity.
Qed.

Lemma climb_ids_count_along_course_witness :
  nondecreasing scenarioB /\
  nth_error (Profiler.validClimbs scenarioB 50) 0
  = Some (Profiler.scoreClimb 50 0 scenarioBClimb) /\
  Profiler.Scored.id (Profiler.scoreClimb 50 0 scenarioBClimb) = (0 + 1)%nat.
Proof.
  assert (H1 : nondecreasing scenarioB) by (vm_compute; reflexivity).
  assert (H2 : nth_error (Profiler.validClimbs scenarioB 50) 0
               = Some (Profiler.scoreClimb 50 0 scenarioBClimb))
    by (vm_compute; reflexivity).
  split; [exact H1|]. split; [exact H2|].
  exact (climb_ids_count_along_course scenarioB 50 0 _ H1 H2).
Defined.

(** ** The average gradient *)

Lemma chunks_gradient (points : list Point) :
  Forall (fun c => Chunk.gradient c
                   = (Chunk.gain c
                      / ((Chunk.endDist c - Chunk.startDist c) * 1000)) * 100)
         (chunks points).
Proof.
  unfold chunks.
  apply (chunkLoop_runs
           (fun _ cs =>
              Forall (fun c => Chunk.gradient c
                               = (Chunk.gain c
                                  / ((Chunk.endDist c - Chunk.startDist c) * 1000))
                                 * 100) cs)).
  - constructor.
  - intros start rest _ IH. exact IH.
  - intros start rest end_ rest' _ IH. constructor; [reflexivity|exact IH].
Qed.

Lemma fold_Qplus_shift (xs : list Q) :
  forall a, fold_left Qplus xs a == a + sumQ xs.
Proof.
  unfold sumQ. induction xs as [|x xs IH]; intros a; simpl; [ring|].
  rewrite (IH (a + x)), (IH (0 + x)). ring.
Qed.

Lemma sumQ_cons (x : Q) (xs : list Q) : sumQ (x :: xs) == x + sumQ xs.
Proof.
  unfold sumQ at 1. simpl. rewrite fold_Qplus_shift. ring.
Qed.

Lemma coveredEnd_last (tl : list Chunk.t) :
  forall d f, coveredEnd d (f :: tl) = Chunk.endDist (last tl f).
Proof.
  induction tl as [|g tl IH]; intros d f; [reflexivity|].
  change (coveredEnd d (f :: g :: tl))
    with (coveredEnd (Chunk.endDist f) (g :: tl)).
  rewrite IH, last_cons_shift. reflexivity.
Qed.

(** The gain of a chunk is its gradient times its length (in m / 100). *)
Lemma chunk_gain_gradient (k : Chunk.t) :
  CHUNK_SIZE <= Chunk.endDist k - Chunk.startDist k ->
  Chunk.gradient k
  = (Chunk.gain k / ((Chunk.endDist k - Chunk.startDist k) * 1000)) * 100 ->
  Chunk.gain k
  == Chunk.gradient k * 10 * (Chunk.endDist k - Chunk.startDist k).
Proof.
  intros Hsz ->. pose proof CHUNK_SIZE_pos. field. lra.
Qed.

(** Over chunks laid end to end, the sum of the gains lies between the
    least and the greatest gradient times the distance covered. *)
Lemma chained_gain_bounds (lo hi : Q) (cs : list Chunk.t) :
  forall d e,
    chained d e cs ->
    Forall (fun k =>
              CHUNK_SIZE <= Chunk.endDist k - Chunk.startDist k /\
              Chunk.gradient k
              = (Chunk.gain k / ((Chunk.endDist k - Chunk.startDist k) * 1000))
                * 100 /\
              lo < Chunk.gradient k /\ Chunk.gradient k <= hi) cs ->
    lo * 10 * (coveredEnd d cs - d) <= sumQ (map Chunk.gain cs) /\
    sumQ (map Chunk.gain cs) <= hi * 10 * (coveredEnd d cs - d) /\
    (cs <> [] -> lo * 10 * (coveredEnd d cs - d) < sumQ (map Chunk.gain cs)).
Proof.
  pose proof CHUNK_SIZE_pos as Hpos.
  induction cs as [|k cs IH]; intros d e Hch Hall.
  - unfold coveredEnd, sumQ. simpl.
    split; [|split]; [lra|lra|congruence].
  - destruct Hch as (Hd & _ & Hch).
    inversion Hall as [|? ? (Hsz & Hgr & Hlo & Hhi) Hall']; subst.
    destruct (IH _ _ Hch Hall') as (IH1 & IH2 & _).
    change (coveredEnd (Chunk.startDist k) (k :: cs))
      with (coveredEnd (Chunk.endDist k) cs).
    simpl map. rewrite sumQ_cons.
    pose proof (chunk_gain_gradient k Hsz Hgr) as Hgain.
    assert (Hlen : 0 < Chunk.endDist k - Chunk.startDist k) by lra.
    assert (Hlo' : lo * 10 * (Chunk.endDist k - Chunk.startDist k)
                   < Chunk.gain k).
    { rewrite Hgain. apply Qmult_lt_compat_r; lra. }
    assert (Hhi' : Chunk.gain k
                   <= hi * 10 * (Chunk.endDist k - Chunk.startDist k)).
    { rewrite Hgain. apply Qmult_le_compat_r; lra. }
    split; [lra|split; [lra|intros _; lra]].
Qed.

(** The gain of a climb of an ordered track against the gradients of its
    chunks. *)
Lemma climb_gain_between (points : list Point) (c : Climb.t) :
  nondecreasing points ->
  In c (climbs points) ->
  CHUNK_SIZE <= Climb.endDist c - Climb.startDist c /\
  1.5 * 10 * (Climb.endDist c - Climb.startDist c) < Climb.gain c /\
  (forall hi,
      (forall k, In k (Climb.chunks c) -> Chunk.gradient k <= hi) ->
      Climb.gain c <= hi * 10 * (Climb.endDist c - Climb.startDist c)).
Proof.
  intros Hnd Hc.
  destruct (climbs_ordered points Hnd) as [Hspan _].
  rewrite Forall_forall in Hspan.
  destruct (Hspan c Hc)
    as (d & e & f & tl & Hck & Hs & Hed & Hld & _ & _ & Hlen & Hch).
  pose proof (aggregate_shape (chunks points)) as Hshape.
  rewrite Forall_forall in Hshape.
  destruct (Hshape c Hc) as [(f' & tl' & Hck' & _ & _ & Hsum & Hup) Hincl].
  rewrite Hck in Hck'. injection Hck' as <- <-.
  pose proof (chunks_ok points) as Hok. rewrite Forall_forall in Hok.
  pose proof (chunks_gradient points) as Hgr. rewrite Forall_forall in Hgr.
  assert (Hbase : forall hi,
             (forall k, In k (f :: tl) -> Chunk.gradient k <= hi) ->
             Forall (fun k =>
                       CHUNK_SIZE <= Chunk.endDist k - Chunk.startDist k /\
                       Chunk.gradient k
                       = (Chunk.gain k
                          / ((Chunk.endDist k - Chunk.startDist k) * 1000))
                         * 100 /\
                       1.5 < Chunk.gradient k /\ Chunk.gradient k <= hi)
                    (f :: tl)).
  { intros hi Hhi. rewrite Forall_forall. intros k Hk.
    assert (Hk' : In k (chunks points)) by (apply Hincl; rewrite Hck; exact Hk).
    split; [apply (Hok k Hk')|]. split; [apply (Hgr k Hk')|].
    split; [|apply Hhi, Hk].
    rewrite Forall_forall in Hup. apply isUphill_gt, Hup, Hk. }
  assert (Hcov : coveredEnd (Chunk.startDist f) (f :: tl) = Climb.endDist c).
  { rewrite coveredEnd_last, Hld. symmetry. exact Hed. }
  split; [lra|]. split.
  - destruct (fold_Qmax_ge (map Chunk.gradient tl) (Chunk.gradient f))
      as [H1 H2].
    set (g := fold_left Qmax (map Chunk.gradient tl) (Chunk.gradient f)) in *.
    assert (Hhi : forall k, In k (f :: tl) -> Chunk.gradient k <= g).
    { intros k [<-|Hk]; [exact H1|].
      rewrite Forall_forall in H2. apply H2. now apply in_map. }
    destruct (chained_gain_bounds 1.5 g (f :: tl) _ _ Hch (Hbase g Hhi))
      as (_ & _ & Hlt).
    rewrite Hcov, <- Hs in Hlt. rewrite Hsum. apply Hlt. discriminate.
  - intros hi Hhi. rewrite Hck in Hhi.
    destruct (chained_gain_bounds 1.5 hi (f :: tl) _ _ Hch (Hbase hi Hhi))
      as (_ & Hle & _).
    rewrite Hcov, <- Hs in Hle. rewrite Hsum. exact Hle.
Qed.

Lemma gradient_of_gain (gain len : Q) :
  0 < len -> (gain / (len * 1000)) * 100 == gain / (10 * len).
Proof. intros H. field. lra. Qed.

Lemma profiler_gradientAvg_bounds (points : list Point) (totalDistance : Q)
  (c : Profiler.Scored.t) :
  nondecreasing points ->
  In c (Profiler.validClimbs points totalDistance) ->
  1.5 < Profiler.Scored.gradientAvg c /\
  forall g, Profiler.Scored.maxGradient c = Some g ->
            Profiler.Scored.gradientAvg c <= g.
Proof.
  intros Hnd Hc.
  destruct (profiler_validClimbs_In _ _ _ Hc) as (j & x & Hx & _ & ->).
  destruct (climb_gain_between points x Hnd Hx) as (Hsz & Hlo & Hhi).
  pose proof CHUNK_SIZE_pos as Hpos.
  assert (Hlen : 0 < Climb.endDist x - Climb.startDist x) by lra.
  assert (Hguard : Qgtb (Climb.endDist x - Climb.startDist x) 0 = true)
    by (apply Qgtb_gt; exact Hlen).
  simpl. rewrite Hguard. split.
  - rewrite (gradient_of_gain _ _ Hlen).
    apply Qlt_shift_div_l; lra.
  - intros g Hg. rewrite (gradient_of_gain _ _ Hlen).
    apply Qle_shift_div_r; [lra|].
    assert (Hk : forall k, In k (Climb.chunks x) -> Chunk.gradient k <= g).
    { intros k Hk. destruct (Climb.chunks x) as [|f tl]; [contradiction|].
      simpl in Hg. injection Hg as <-.
      destruct (fold_Qmax_ge (map Chunk.gradient tl) (Chunk.gradient f))
        as [H1 H2].
      destruct Hk as [<-|Hk]; [exact H1|].
      rewrite Forall_forall in H2. apply H2. now apply in_map. }
    specialize (Hhi g Hk). lra.
Qed.

(** ** The scores *)

Lemma profiler_sum_shift (cs : list Profiler.Scored.t) :
  forall acc,
    fold_left (fun acc c => acc + Profiler.Scored.finalScore c) cs acc
    == acc + Profiler.sumFinalScore cs.
Proof.
  unfold Profiler.sumFinalScore.
  induction cs as [|c cs IH]; intros acc; simpl; [ring|].
  rewrite (IH (acc + _)), (IH (0 + _)). ring.
Qed.

Lemma profiler_sum_cons (c : Profiler.Scored.t) (cs : list Profiler.Scored.t) :
  Profiler.sumFinalScore (c :: cs)
  == Profiler.Scored.finalScore c + Profiler.sumFinalScore cs.
Proof.
  unfold Profiler.sumFinalScore at 1. simpl. rewrite profiler_sum_shift. ring.
Qed.

Lemma profiler_sum_filter (keep : Profiler.Scored.t -> bool)
  (cs : list Profiler.Scored.t) :
  Forall (fun c => 0 <= Profiler.Scored.finalScore c) cs ->
  0 <= Profiler.sumFinalScore (filter keep cs) /\
  Profiler.sumFinalScore (filter keep cs) <= Profiler.sumFinalScore cs.
Proof.
  induction 1 as [|c cs Hc _ IH]; simpl.
  - unfold Profiler.sumFinalScore. simpl. split; lra.
  - destruct IH as [IH1 IH2]. rewrite profiler_sum_cons.
    destruct (keep c); [rewrite profiler_sum_cons|]; split; lra.
Qed.

(** The measures of a climb of the result of an ordered track. *)
Lemma profiler_climb_measures (points : list Point) (totalDistance : Q)
  (c : Profiler.Scored.t) :
  nondecreasing points ->
  In c (Profiler.validClimbs points totalDistance) ->
  1.5 < Profiler.Scored.gradientAvg c /\
  0 < Profiler.Scored.lengthKm c /\
  Profiler.Scored.rawScore c
  = Qpower (Profiler.Scored.gradientAvg c / 2) 2 * Profiler.Scored.lengthKm c /\
  (0.2 <= Profiler.Scored.multiplier c /\ Profiler.Scored.multiplier c <= 1) /\
  Profiler.Scored.finalScore c
  = Qpower (Profiler.Scored.gradientAvg c / 2) 2 * Profiler.Scored.lengthKm c
    * Profiler.Scored.multiplier c.
Proof.
  intros Hnd Hc.
  destruct (profiler_gradientAvg_bounds points totalDistance c Hnd Hc) as [Havg _].
  destruct (profiler_validClimbs_In _ _ _ Hc) as (j & x & Hx & _ & ->).
  destruct (climb_gain_between points x Hnd Hx) as (Hsz & _ & _).
  pose proof CHUNK_SIZE_pos as Hpos.
  split; [exact Havg|]. split; [simpl; lra|]. split; [reflexivity|].
  split; [|reflexivity]. simpl.
  destruct (multiplierFor_monotone (totalDistance - Climb.endDist x)
              (totalDistance - Climb.endDist x) (Qle_refl _)) as (_ & H1 & H2).
  split; assumption.
Qed.

(** X5. On a track with non-decreasing distances every climb of the result
    has a positive raw score and a positive final score that does not
    exceed the raw score; the final-zone score lies between 0 and the
    total score. *)
Theorem scores_bounds (points : list Point) (totalDistance : Q) :
  nondecreasing points ->
  (forall c, In c (Profiler.validClimbs points totalDistance) ->
     0 < Profiler.Scored.rawScore c /\
     0 < Profiler.Scored.finalScore c /\
     Profiler.Scored.finalScore c <= Profiler.Scored.rawScore c) /\
  0 <= Profiler.finalProfileScore points totalDistance /\
  Profiler.finalProfileScore points totalDistance
  <= Profiler.totalScore points totalDistance.
Proof.
  intros Hnd.
  assert (Hc : forall c, In c (Profiler.validClimbs points totalDistance) ->
     0 < Profiler.Scored.rawScore c /\
     0 < Profiler.Scored.finalScore c /\
     Profiler.Scored.finalScore c <= Profiler.Scored.rawScore c).
  { intros c Hc.
    destruct (profiler_climb_measures points totalDistance c Hnd Hc)
      as (Havg & Hlen & Hraw & Hm & Hfin).
    rewrite Hraw, Hfin.
    assert (Hhalf : 0 < Profiler.Scored.gradientAvg c / 2)
      by (apply Qlt_shift_div_l; lra).
    assert (Hsq : 0 < Qpower (Profiler.Scored.gradientAvg c / 2) 2)
      by (simpl Qpower; apply Qmult_lt_0_compat; exact Hhalf).
    assert (Hr : 0 < Qpower (Profiler.Scored.gradientAvg c / 2) 2
                     * Profiler.Scored.lengthKm c)
      by (apply Qmult_lt_0_compat; assumption).
    destruct Hm as [Hm1 Hm2].
    split; [exact Hr|]. split.
    - apply Qmult_lt_0_compat; [exact Hr|lra].
    - rewrite <- (Qmult_1_r (Qpower _ 2 * _)) at 2.
      apply Qmult_le_l; [exact Hr|exact Hm2]. }
  split; [exact Hc|].
  unfold Profiler.finalProfileScore, Profiler.finalClimbs, Profiler.totalScore.
  apply profiler_sum_filter. rewrite Forall_forall. intros c Hin.
  destruct (Hc c Hin) as (_ & H & _). lra.
Qed.

Lemma scores_bounds_witness :
  nondecreasing scenarioB /\
  (forall c, In c (Profiler.validClimbs scenarioB 50) ->
     0 < Profiler.Scored.rawScore c /\
     0 < Profiler.Scored.finalScore c /\
     Profiler.Scored.finalScore c <= Profiler.Scored.rawScore c) /\
  0 <= Profiler.finalProfileScore scenarioB 50 /\
  Profiler.finalProfileScore scenarioB 50 <= Profiler.totalScore scenarioB 50.
Proof.
  assert (H : nondecreasing scenarioB) by (vm_compute; reflexivity).
  split; [exact H|]. exact (scores_bounds scenarioB 50 H).
Defined.

(** ** The two pages *)

Lemma Forall2_filter {A B : Type} (R : A -> B -> Prop) (f : A -> bool)
  (g : B -> bool) (xs : list A) (ys : list B) :
  (forall a b, R a b -> f a = g b) ->
  Forall2 R xs ys -> Forall2 R (filter f xs) (filter g ys).
Proof.
  intros Hfg. induction 1 as [|a b xs ys Hab _ IH]; simpl; [constructor|].
  rewrite (Hfg a b Hab). destruct (g b); [constructor; assumption|exact IH].
Qed.

Lemma sums_agree (xs : list Tpv.Scored.t) (ys : list Profiler.Scored.t) :
  Forall2 sameScores xs ys ->
  Tpv.sumFinalScore xs = Profiler.sumFinalScore ys.
Proof.
  unfold Tpv.sumFinalScore, Profiler.sumFinalScore. intros H. generalize 0.
  induction H as [|a b xs ys Hab _ IH]; intros acc; simpl; [reflexivity|].
  destruct Hab as (_ & _ & _ & _ & _ & _ & _ & _ & Hfin & _).
  rewrite Hfin. apply IH.
Qed.

Lemma validClimbs_agree (points : list Point) (totalDistance : Q) :
  nondecreasing points ->
  Forall2 sameScores (Tpv.validClimbs points totalDistance)
                     (Profiler.validClimbs points totalDistance).
Proof.
  intros Hnd. rewrite (profiler_validClimbs_unsorted _ _ Hnd).
  unfold Tpv.validClimbs, mapi.
  destruct (filtered_climbs_ordered points Hnd) as [Hspan _].
  generalize 0%nat. induction Hspan as [|x kept Hx _ IH]; intros i; simpl;
    [constructor|].
  constructor; [|apply IH].
  apply climbSpan_length in Hx. pose proof CHUNK_SIZE_pos.
  assert (Hguard : Qgtb (Climb.endDist x - Climb.startDist x) 0 = true)
    by (apply Qgtb_gt; lra).
  unfold sameScores. simpl. rewrite Hguard. repeat split.
Qed.

(** X7. On a track with non-decreasing distances the two pages agree: they
    retain the same climbs with the same lengths, gradients, multipliers
    and scores, and they compute the same total score and the same
    final-zone score. *)
Theorem pages_agree (points : list Point) (totalDistance : Q) :
  nondecreasing points ->
  Forall2 sameScores (Tpv.validClimbs points totalDistance)
                     (Profiler.validClimbs points totalDistance) /\
  Tpv.totalScore points totalDistance
  = Profiler.totalScore points totalDistance /\
  Tpv.finalProfileScore points totalDistance
  = Profiler.finalProfileScore points totalDistance.
Proof.
  intros Hnd. pose proof (validClimbs_agree points totalDistance Hnd) as H.
  split; [exact H|]. split.
  - apply sums_agree. exact H.
  - apply sums_agree. unfold Tpv.finalClimbs, Profiler.finalClimbs.
    apply Forall2_filter; [|exact H].
    intros a b (_ & He & _). rewrite He. reflexivity.
Qed.

Lemma pages_agree_witness :
  nondecreasing scenarioB /\
  Forall2 sameScores (Tpv.validClimbs scenarioB 50)
                     (Profiler.validClimbs scenarioB 50) /\
  Tpv.totalScore scenarioB 50 = Profiler.totalScore scenarioB 50 /\
  Tpv.finalProfileScore scenarioB 50 = Profiler.finalProfileScore scenarioB 50.
Proof.
  assert (H : nondecreasing scenarioB) by (vm_compute; reflexivity).
  split; [exact H|]. exact (pages_agree scenarioB 50 H).
Defined.

(** ** The climb weighting *)

Ltac qcases :=
  repeat first
    [ apply Q.max_case_strong; [intros ? ? ?E; rewrite E; tauto| |]
    | apply Q.min_case_strong; [intros ? ? ?E; rewrite E; tauto| |] ];
  intros.

Lemma tpv_weighting_short (totalScore finalProfileScore totalDistance : Q) :
  0 < totalDistance -> totalDistance < 20 ->
  Tpv.tpvClimbWeighting totalScore finalProfileScore totalDistance
  == Qmin (totalScore / totalDistance * 100) 100.
Proof.
  intros Hpos Hlt.
  unfold Tpv.tpvClimbWeighting, Tpv.tpvClimbWeightingRatio.
  assert (E1 : Qgtb totalDistance 0 = true) by (apply Qgtb_gt; exact Hpos).
  assert (E2 : Qltb totalDistance 20 = true) by (apply Qltb_lt; exact Hlt).
  rewrite E1, E2. reflexivity.
Qed.

Lemma tpv_weighting_long (totalScore finalProfileScore totalDistance : Q) :
  20 <= totalDistance ->
  Tpv.tpvClimbWeighting totalScore finalProfileScore totalDistance
  == Qmax (Qmin totalScore 100) (Qmin (finalProfileScore * 4) 80).
Proof.
  intros Hge.
  unfold Tpv.tpvClimbWeighting, Tpv.tpvClimbWeightingRatio,
    Tpv.finalZoneMetricCapped, Tpv.finalZoneRatioUncapped, Tpv.overallMetric.
  assert (E1 : Qgtb totalDistance 0 = true) by (apply Qgtb_gt; lra).
  assert (E2 : Qltb totalDistance 20 = false) by (apply Qltb_ge; exact Hge).
  rewrite E1, E2. simpl andb. cbv iota.
  assert (Ht : totalScore / 100 == totalScore * (1 # 100)) by field.
  assert (Hf : finalProfileScore / 25 == finalProfileScore * (1 # 25))
    by field.
  rewrite Ht, Hf.
  apply Q.max_case_strong; [intros x y E; rewrite E; tauto| |];
    apply Q.min_case_strong; try (intros x y E; rewrite E; tauto);
    intros H1 H2;
    (apply Q.min_case_strong; [intros x y E; rewrite E; tauto| |]);
    intros H3;
    (apply Q.max_case_strong; [intros x y E; rewrite E; tauto| |]);
    (apply Q.min_case_strong; [intros x y E; rewrite E; tauto| |]);
    try (apply Q.min_case_strong; [intros x y E; rewrite E; tauto| |]);
    intros; lra.
Qed.

(** X8. On a course shorter than 20 km the climb weighting reaches its cap
    of 100 exactly when the total score is at least the length of the
    course in km. *)
Theorem short_course_weighting_cap
  (totalScore finalProfileScore totalDistance : Q) :
  0 < totalDistance -> totalDistance < 20 ->
  (Tpv.tpvClimbWeighting totalScore finalProfileScore totalDistance == 100
   <-> totalDistance <= totalScore).
Proof.
  intros Hpos Hlt. rewrite (tpv_weighting_short _ _ _ Hpos Hlt).
  rewrite Q.min_r_iff. split; intros H.
  - assert (H1 : 1 <= totalScore / totalDistance) by lra.
    apply (Qmult_le_r _ _ totalDistance Hpos) in H1.
    setoid_replace (totalScore / totalDistance * totalDistance)
      with totalScore in H1 by (field; lra). lra.
  - assert (H1 : 1 <= totalScore / totalDistance)
      by (apply Qle_shift_div_l; lra). lra.
Qed.

Lemma short_course_weighting_cap_witness :
  0 < 10 /\ 10 < 20 /\
  (Tpv.tpvClimbWeighting 12 0 10 == 100 <-> 10 <= 12).
Proof.
  split; [reflexivity|]. split; [reflexivity|].
  apply (short_course_weighting_cap 12 0 10); reflexivity.
Defined.

(** X9. On a course of 20 km or more the climb weighting is 100 exactly
    when the total score is at least 100.  The final zone alone lifts the
    weighting to 80 and no further: with a final-zone score of 20 or more
    the weighting is at least 80, and with a total score of at most 80 it
    is at most 80 however large the final-zone score is. *)
Theorem long_course_weighting
  (totalScore finalProfileScore totalDistance : Q) :
  20 <= totalDistance ->
  let w := Tpv.tpvClimbWeighting totalScore finalProfileScore totalDistance in
  (w == 100 <-> 100 <= totalScore) /\
  (totalScore <= 80 -> w <= 80) /\
  (20 <= finalProfileScore -> 80 <= w).
Proof.
  intros Hge w. unfold w. rewrite (tpv_weighting_long _ _ _ Hge).
  split; [|split].
  - qcases; split; intros; lra.
  - intros Hts. qcases; lra.
  - intros Hfs. qcases; lra.
Qed.

Lemma long_course_weighting_witness :
  20 <= 50 /\
  (Tpv.tpvClimbWeighting 31.25 31.25 50 == 100 <-> 100 <= 31.25) /\
  (31.25 <= 80 -> Tpv.tpvClimbWeighting 31.25 31.25 50 <= 80) /\
  (20 <= 31.25 -> 80 <= Tpv.tpvClimbWeighting 31.25 31.25 50).
Proof.
  assert (H : 20 <= 50) by (vm_compute; discriminate).
  split; [exact H|]. exact (long_course_weighting 31.25 31.25 50 H).
Defined.

(** X10. The climb weighting never decreases when the total score and the
    final-zone score grow, whatever the length of the course. *)
Theorem weighting_monotone (t1 t2 f1 f2 totalDistance : Q) :
  t1 <= t2 -> f1 <= f2 ->
  Tpv.tpvClimbWeighting t1 f1 totalDistance
  <= Tpv.tpvClimbWeighting t2 f2 totalDistance.
Proof.
  intros Ht Hf.
  unfold Tpv.tpvClimbWeighting, Tpv.tpvClimbWeightingRatio,
    Tpv.finalZoneMetricCapped, Tpv.finalZoneRatioUncapped, Tpv.overallMetric.
  apply Q.min_le_compat_r.
  destruct (Qgtb totalDistance 0) eqn:E1, (Qltb totalDistance 20) eqn:E2;
    simpl andb; cbv iota.
  - apply Qgtb_gt in E1. apply Qmult_le_compat_r; [|lra].
    apply Qmult_le_compat_r; [exact Ht|].
    apply Qlt_le_weak, Qinv_lt_0_compat, E1.
  - apply Qmult_le_compat_r; [|lra].
    apply Q.max_le_compat.
    + apply Qmult_le_compat_r; [exact Ht|]. vm_compute; discriminate.
    + apply Q.min_le_compat_r. apply Qmult_le_compat_r; [exact Hf|].
      vm_compute; discriminate.
  - apply Qmult_le_compat_r; [|lra].
    apply Q.max_le_compat; [|lra].
    apply Qmult_le_compat_r; [exact Ht|]. vm_compute; discriminate.
  - apply Qmult_le_compat_r; [|lra].
    apply Q.max_le_compat; [|lra].
    apply Qmult_le_compat_r; [exact Ht|]. vm_compute; discriminate.
Qed.

Lemma weighting_monotone_witness :
  10 <= 30 /\ 5 <= 10 /\
  Tpv.tpvClimbWeighting 10 5 50 <= Tpv.tpvClimbWeighting 30 10 50.
Proof.
  assert (H1 : 10 <= 30) by (vm_compute; discriminate).
  assert (H2 : 5 <= 10) by (vm_compute; discriminate).
  split; [exact H1|]. split; [exact H2|].
  exact (weighting_monotone 10 30 5 10 50 H1 H2).
Defined.

(** ** Smoothing and the track *)

Lemma Forall_firstn {A : Type} (P : A -> Prop) (l : list A) :
  Forall P l -> forall n, Forall P (firstn n l).
Proof.
  induction 1 as [|x l Hx _ IH]; intros [|n]; simpl; constructor; auto.
Qed.

Lemma Forall_skipn {A : Type} (P : A -> Prop) (l : list A) :
  Forall P l -> forall n, Forall P (skipn n l).
Proof.
  induction 1 as [|x l Hx Hl IH]; intros [|n]; simpl; auto.
Qed.

Lemma nth_error_window {A : Type} (l : list A) (lo n i : nat) (x : A) :
  nth_error l i = Some x -> (lo <= i)%nat -> (i < lo + n)%nat ->
  In x (firstn n (skipn lo l)).
Proof.
  intros Hx Hlo Hhi.
  apply (nth_error_In _ (i - lo)).
  rewrite nth_error_firstn.
  assert (E : (i - lo <? n)%nat = true) by (apply Nat.ltb_lt; lia).
  rewrite E, nth_error_skipn.
  replace (lo + (i - lo))%nat with i by lia. exact Hx.
Qed.

Lemma smoothElevation_nth (points : list Point) (windowSize i : nat)
  (p : Point) :
  nth_error (smoothElevation points windowSize) i = Some p ->
  exists q window,
    nth_error points i = Some q /\
    In q window /\ incl window points /\
    (List.length window <= 2 * windowSize + 1)%nat /\
    p = mkPoint (lat q) (lon q)
          (fold_left (fun sum p => sum + ele p) window 0
           / ofNat (List.length window))
          (dist q).
Proof.
  unfold smoothElevation, mapi. rewrite nth_error_mapiFrom.
  destruct (nth_error points i) as [q|] eqn:Hq; [|discriminate].
  simpl. intros H. injection H as <-.
  assert (Hi : (i < List.length points)%nat)
    by (apply nth_error_Some; congruence).
  eexists q, _. split; [reflexivity|].
  split; [|split; [|split; [|reflexivity]]].
  - apply (nth_error_window points _ _ i q Hq); lia.
  - unfold incl.
    apply (proj1 (Forall_forall (fun x => In x points) _)).
    apply Forall_firstn, Forall_skipn, Forall_forall. auto.
  - rewrite length_firstn. lia.
Qed.

(** X11. Smoothing keeps the number of points and the position and
    distance of each.  The elevation of a smoothed point is the sum of the
    elevations of a window of the track divided by their number: the window
    holds the point itself, so the divisor is never 0, and at most
    [2 * windowSize + 1] points. *)
Theorem smoothing_windows (points : list Point) (windowSize : nat) :
  List.length (smoothElevation points windowSize) = List.length points /\
  forall i p,
    nth_error (smoothElevation points windowSize) i = Some p ->
    exists q window,
      nth_error points i = Some q /\
      lat p = lat q /\ lon p = lon q /\ dist p = dist q /\
      In q window /\ incl window points /\
      (1 <= List.length window <= 2 * windowSize + 1)%nat /\
      ele p = fold_left (fun sum p => sum + ele p) window 0
              / ofNat (List.length window).
Proof.
  split; [apply smoothElevation_length|].
  intros i p Hp.
  destruct (smoothElevation_nth _ _ _ _ Hp)
    as (q & window & Hq & Hin & Hincl & Hlen & ->).
  exists q, window. cbn [lat lon dist ele].
  repeat (split; [assumption || reflexivity|]).
  split; [|reflexivity]. split; [|exact Hlen].
  destruct window; [contradiction|simpl; lia].
Qed.

Section Track.

Variable haversineDistance : Q -> Q -> Q -> Q -> Q.

Lemma nth_error_last {A : Type} (l : list A) :
  forall x, nth_error (x :: l) (List.length l) = Some (last l x).
Proof.
  induction l as [|y l IH]; intros x; [reflexivity|].
  cbn [List.length nth_error]. rewrite IH. f_equal. symmetry. apply last_cons_shift.
Qed.

Lemma withDistFrom_steps (rest : list RawPoint) :
  forall prev t ps final q0,
    withDistFrom haversineDistance prev t rest = (ps, final) ->
    dist q0 = t ->
    (forall i r r' p p',
       nth_error (prev :: rest) i = Some r ->
       nth_error (prev :: rest) (S i) = Some r' ->
       nth_error (q0 :: ps) i = Some p ->
       nth_error (q0 :: ps) (S i) = Some p' ->
       dist p' = dist p + haversineDistance (rawLat r) (rawLon r)
                                            (rawLat r') (rawLon r')) /\
    final = dist (last ps q0) /\
    Forall2 (fun r p => lat p = rawLat r /\ lon p = rawLon r /\
                        ele p = rawEle r) rest ps.
Proof.
  induction rest as [|r1 rest IH]; intros prev t ps final q0 H Hq0;
    simpl in H.
  - injection H as <- <-. split; [|split; [symmetry; exact Hq0|constructor]].
    intros [|i] r r' p p' _ H; simpl in H; [discriminate|].
    destruct i; discriminate.
  - destruct (withDistFrom _ r1 _ rest) as [ps' final'] eqn:E.
    injection H as <- <-.
    destruct (IH _ _ _ _ (mkPoint (rawLat r1) (rawLon r1) (rawEle r1)
                 (t + haversineDistance (rawLat prev) (rawLon prev)
                                        (rawLat r1) (rawLon r1)))
                 E eq_refl) as (Hstep & Hfin & Hall).
    split; [|split].
    + intros [|i] r r' p p' Hr Hr' Hp Hp'.
      * simpl in Hr, Hr', Hp, Hp'.
        injection Hr as <-. injection Hr' as <-.
        injection Hp as <-. injection Hp' as <-.
        simpl. rewrite Hq0. reflexivity.
      * exact (Hstep i r r' p p' Hr Hr' Hp Hp').
    + rewrite Hfin. f_equal. symmetry. apply last_cons_shift.
    + constructor; [simpl; auto|exact Hall].
Qed.

Lemma Forall2_nth_error {A B : Type} (R : A -> B -> Prop) (xs : list A)
  (ys : list B) :
  Forall2 R xs ys ->
  forall i x y, nth_error xs i = Some x -> nth_error ys i = Some y -> R x y.
Proof.
  induction 1 as [|a b xs ys Hab _ IH]; intros [|i] x y Hx Hy;
    simpl in Hx, Hy; try discriminate.
  - injection Hx as <-. injection Hy as <-. exact Hab.
  - exact (IH i x y Hx Hy).
Qed.

(** X12. A document with track points gives one point per track point,
    at the same latitude and longitude.  The first point lies at distance
    0, each later point lies further than its predecessor by the
    great-circle distance between the two track points, and the distance
    of the track is the distance of its last point. *)
Theorem track_distances (trkpts : list RawPoint) (bd : BaseData.t) :
  buildTrack haversineDistance trkpts = inr bd ->
  List.length (BaseData.points bd) = List.length trkpts /\
  (forall i r p,
     nth_error trkpts i = Some r ->
     nth_error (BaseData.points bd) i = Some p ->
     lat p = rawLat r /\ lon p = rawLon r) /\
  (forall p, nth_error (BaseData.points bd) 0 = Some p -> dist p = 0) /\
  (forall i r r' p p',
     nth_error trkpts i = Some r ->
     nth_error trkpts (S i) = Some r' ->
     nth_error (BaseData.points bd) i = Some p ->
     nth_error (BaseData.points bd) (S i) = Some p' ->
     dist p' = dist p + haversineDistance (rawLat r) (rawLon r)
                                          (rawLat r') (rawLon r')) /\
  (forall p,
     nth_error (BaseData.points bd) (List.length trkpts - 1) = Some p ->
     dist p = BaseData.distance bd).
Proof.
  unfold buildTrack. destruct trkpts as [|r0 rest]; [discriminate|].
  unfold pointsWithDist.
  destruct (withDistFrom _ r0 0 rest) as [ps final] eqn:E.
  intros H. injection H as <-. cbn [BaseData.points BaseData.distance].
  set (q0 := mkPoint (rawLat r0) (rawLon r0) (rawEle r0) 0).
  destruct (withDistFrom_steps _ _ _ _ _ q0 E eq_refl) as (Hstep & Hfin & Hall).
  assert (Hlen : List.length ps = List.length rest)
    by (symmetry; exact (Forall2_length Hall)).
  assert (Hsame : Forall2 (fun r p => lat p = rawLat r /\ lon p = rawLon r /\
                                      ele p = rawEle r) (r0 :: rest) (q0 :: ps))
    by (constructor; [simpl; auto|exact Hall]).
  split; [|split; [|split; [|split]]].
  - rewrite smoothElevation_length. simpl. rewrite Hlen. reflexivity.
  - intros i r p Hr Hp.
    destruct (smoothElevation_nth _ _ _ _ Hp) as (q & w & Hq & _ & _ & _ & ->).
    destruct (Forall2_nth_error _ _ _ Hsame i r q Hr Hq) as (H1 & H2 & _).
    simpl. auto.
  - intros p Hp.
    destruct (smoothElevation_nth _ _ _ _ Hp) as (q & w & Hq & _ & _ & _ & ->).
    simpl in Hq. injection Hq as <-. reflexivity.
  - intros i r r' p p' Hr Hr' Hp Hp'.
    destruct (smoothElevation_nth _ _ _ _ Hp) as (q & w & Hq & _ & _ & _ & ->).
    destruct (smoothElevation_nth _ _ _ _ Hp') as (q' & w' & Hq' & _ & _ & _ & ->).
    simpl. exact (Hstep i r r' q q' Hr Hr' Hq Hq').
  - intros p Hp.
    destruct (smoothElevation_nth _ _ _ _ Hp) as (q & w & Hq & _ & _ & _ & ->).
    simpl. replace (List.length (r0 :: rest) - 1)%nat with (List.length ps)
      in Hq by (simpl; lia).
    rewrite nth_error_last in Hq. injection Hq as <-. symmetry. exact Hfin.
Qed.

End Track.

Lemma track_distances_witness :
  buildTrack axisDistance sampleTrkpts = inr sampleBase /\
  List.length (BaseData.points sampleBase) = List.length sampleTrkpts /\
  (forall i r p,
     nth_error sampleTrkpts i = Some r ->
     nth_error (BaseData.points sampleBase) i = Some p ->
     lat p = rawLat r /\ lon p = rawLon r) /\
  (forall p, nth_error (BaseData.points sampleBase) 0 = Some p -> dist p = 0) /\
  (forall i r r' p p',
     nth_error sampleTrkpts i = Some r ->
     nth_error sampleTrkpts (S i) = Some r' ->
     nth_error (BaseData.points sampleBase) i = Some p ->
     nth_error (BaseData.points sampleBase) (S i) = Some p' ->
     dist p' = dist p + axisDistance (rawLat r) (rawLon r)
                                     (rawLat r') (rawLon r')) /\
  (forall p,
     nth_error (BaseData.points sampleBase) (List.length sampleTrkpts - 1)
     = Some p ->
     dist p = BaseData.distance sampleBase).
Proof.
  assert (H : buildTrack axisDistance sampleTrkpts = inr sampleBase)
    by reflexivity.
  split; [exact H|]. exact (track_distances axisDistance _ _ H).
Defined.

(** ** The summary figures *)

Lemma climbingFrom_bounds (rest : list Point) :
  forall prev acc,
    acc <= climbingFrom prev rest acc /\
    acc + (ele (last rest prev) - ele prev) <= climbingFrom prev rest acc.
Proof.
  induction rest as [|p rest IH]; intros prev acc.
  - simpl. split; lra.
  - cbn [climbingFrom]. rewrite last_cons_shift.
    destruct (Qgtb (ele p - ele prev) 0) eqn:E; qprop;
      destruct (IH p (acc + (ele p - ele prev))) as [H1 H2];
      destruct (IH p acc) as [H3 H4]; split; lra.
Qed.

Lemma climbingFrom_app (l1 l2 : list Point) :
  forall prev acc,
    climbingFrom prev (l1 ++ l2) acc
    = climbingFrom (last l1 prev) l2 (climbingFrom prev l1 acc).
Proof.
  induction l1 as [|p l1 IH]; intros prev acc; [reflexivity|].
  cbn [app climbingFrom]. rewrite IH, last_cons_shift. reflexivity.
Qed.

Lemma ele_last_lapPoints (lapOffset : Q) (rest : list Point) :
  forall prev prev',
    ele prev' = ele prev ->
    ele (last (lapPoints lapOffset rest) prev') = ele (last rest prev).
Proof.
  induction rest as [|p rest IH]; intros prev prev' He; [exact He|].
  unfold lapPoints. cbn [map]. rewrite !last_cons_shift. apply IH. reflexivity.
Qed.

Lemma elevation_range (p0 : Point) (rest : list Point) :
  Forall (fun p => fold_left Qmin (map ele rest) (ele p0) <= ele p /\
                   ele p <= fold_left Qmax (map ele rest) (ele p0))
         (p0 :: rest).
Proof.
  destruct (fold_Qmax_ge (map ele rest) (ele p0)) as [Hx0 Hx].
  destruct (fold_Qmin_le (map ele rest) (ele p0)) as [Hn0 Hn].
  rewrite Forall_map in Hx, Hn.
  constructor; [split; assumption|].
  rewrite Forall_forall in *. intros p Hp. split; auto.
Qed.

(** X13. The summary of a route: the total climbing is never negative;
    the highest and the lowest elevation are elevations of the route that
    bound all the others, and the net gain from the first point to the last
    is at most their difference. *)
Theorem route_summary (points : list Point) (totalDistance : Q)
  (fd : Profiler.FileData.t) :
  Profiler.analyzeRoute points totalDistance = Some fd ->
  0 <= Profiler.FileData.totalClimbing fd /\
  exists maxEle minEle,
    Profiler.FileData.maxEle fd = Some maxEle /\
    Profiler.FileData.minEle fd = Some minEle /\
    Forall (fun p => minEle <= ele p /\ ele p <= maxEle) points /\
    (exists p, In p points /\ ele p = maxEle) /\
    (exists p, In p points /\ ele p = minEle) /\
    Profiler.FileData.totalGain fd <= maxEle - minEle.
Proof.
  unfold Profiler.analyzeRoute. destruct points as [|p0 rest]; [discriminate|].
  intros H. injection H as <-.
  cbn [Profiler.FileData.totalClimbing Profiler.FileData.totalGain
       Profiler.FileData.maxEle Profiler.FileData.minEle
       totalClimbing mathMax mathMin map].
  change (match rest with [] => p0 | _ :: _ => last rest p0 end)
    with (last (p0 :: rest) p0).
  rewrite last_cons_shift.
  destruct (climbingFrom_bounds rest p0 0) as [H1 _].
  split; [exact H1|].
  eexists _, _. split; [reflexivity|]. split; [reflexivity|].
  pose proof (elevation_range p0 rest) as Hall.
  split; [exact Hall|]. split; [|split].
  - pose proof (fold_Qmax_in (map ele rest) (ele p0)) as Hin.
    change (ele p0 :: map ele rest) with (map ele (p0 :: rest)) in Hin.
    apply in_map_iff in Hin. destruct Hin as (p & Hp & Hin). eauto.
  - pose proof (fold_Qmin_in (map ele rest) (ele p0)) as Hin.
    change (ele p0 :: map ele rest) with (map ele (p0 :: rest)) in Hin.
    apply in_map_iff in Hin. destruct Hin as (p & Hp & Hin). eauto.
  - rewrite Forall_forall in Hall.
    destruct (Hall (last rest p0) (last_In rest p0)) as [Ha Hb].
    destruct (Hall p0 (or_introl eq_refl)) as [Hc Hd]. lra.
Qed.

Lemma route_summary_witness :
  exists fd,
    Profiler.analyzeRoute scenarioB 50 = Some fd /\
    0 <= Profiler.FileData.totalClimbing fd /\
    exists maxEle minEle,
      Profiler.FileData.maxEle fd = Some maxEle /\
      Profiler.FileData.minEle fd = Some minEle /\
      Forall (fun p => minEle <= ele p /\ ele p <= maxEle) scenarioB /\
      (exists p, In p scenarioB /\ ele p = maxEle) /\
      (exists p, In p scenarioB /\ ele p = minEle) /\
      Profiler.FileData.totalGain fd <= maxEle - minEle.
Proof.
  eexists. split; [reflexivity|].
  exact (route_summary scenarioB 50 _ eq_refl).
Defined.

(** ** Laps and the summary figures *)

Lemma fullPoints_S (baseData : BaseData.t) (n : nat) :
  fullPoints baseData (S n)
  = fullPoints baseData n
    ++ lapPoints (ofNat n * BaseData.distance baseData)
                 (BaseData.points baseData).
Proof.
  rewrite !fullPoints_flat, seq_S, flat_map_app. simpl. rewrite app_nil_r.
  reflexivity.
Qed.

Lemma fullPoints_ends (baseData : BaseData.t) (p0 : Point)
  (rest : list Point) :
  BaseData.points baseData = p0 :: rest ->
  forall n, exists q0 more,
    fullPoints baseData (S n) = q0 :: more /\
    ele q0 = ele p0 /\ ele (last more q0) = ele (last rest p0).
Proof.
  intros Hpts. induction n as [|n IH].
  - rewrite fullPoints_one, Hpts. unfold lapPoints. cbn [map].
    eexists _, _. split; [reflexivity|]. split; [reflexivity|].
    apply (ele_last_lapPoints (ofNat 0 * BaseData.distance baseData)).
    reflexivity.
  - destruct IH as (q0 & more & E & H0 & Hl).
    rewrite fullPoints_S, E, Hpts. unfold lapPoints. cbn [map app].
    eexists _, _. split; [reflexivity|]. split; [exact H0|].
    rewrite last_app_cons, last_cons_shift.
    apply (ele_last_lapPoints (ofNat (S n) * BaseData.distance baseData)).
    reflexivity.
Qed.

Lemma map_ele_lapPoints (lapOffset : Q) (points : list Point) :
  map ele (lapPoints lapOffset points) = map ele points.
Proof. unfold lapPoints. rewrite map_map. reflexivity. Qed.

Lemma Qmax_absorbs (x y : Q) : y <= x -> Qmax x y = x.
Proof.
  intros H. unfold Qmax, GenericMinMax.gmax.
  destruct (x ?= y) eqn:E; try reflexivity.
  apply Qlt_alt in E. lra.
Qed.

Lemma Qmin_absorbs (x y : Q) : x <= y -> Qmin x y = x.
Proof.
  intros H. unfold Qmin, GenericMinMax.gmin.
  destruct (x ?= y) eqn:E; try reflexivity.
  apply Qgt_alt in E. lra.
Qed.

Lemma fold_Qmax_absorbs (xs : list Q) (x : Q) :
  Forall (fun y => y <= x) xs -> fold_left Qmax xs x = x.
Proof.
  induction 1 as [|y xs Hy _ IH]; [reflexivity|].
  cbn [fold_left]. rewrite (Qmax_absorbs x y Hy). exact IH.
Qed.

Lemma fold_Qmin_absorbs (xs : list Q) (x : Q) :
  Forall (fun y => x <= y) xs -> fold_left Qmin xs x = x.
Proof.
  induction 1 as [|y xs Hy _ IH]; [reflexivity|].
  cbn [fold_left]. rewrite (Qmin_absorbs x y Hy). exact IH.
Qed.

(** The highest and the lowest elevation of any number of laps are those
    of one lap. *)
Lemma laps_elevation_range (baseData : BaseData.t) (p0 : Point)
  (rest : list Point) :
  BaseData.points baseData = p0 :: rest ->
  forall n,
    mathMax (map ele (fullPoints baseData (S n)))
    = mathMax (map ele (p0 :: rest)) /\
    mathMin (map ele (fullPoints baseData (S n)))
    = mathMin (map ele (p0 :: rest)).
Proof.
  intros Hpts. induction n as [|n [IHmax IHmin]].
  - rewrite fullPoints_one, map_ele_lapPoints, Hpts. auto.
  - rewrite fullPoints_S, map_app, map_ele_lapPoints, Hpts.
    destruct (fullPoints baseData (S n)) as [|q0 more]; [discriminate|].
    cbn [map mathMax mathMin app] in *.
    rewrite !fold_left_app.
    injection IHmax as IHmax. injection IHmin as IHmin.
    rewrite IHmax, IHmin.
    pose proof (elevation_range p0 rest) as Hr.
    destruct (fold_Qmax_ge (map ele rest) (ele p0)) as [Hx0 _].
    destruct (fold_Qmin_le (map ele rest) (ele p0)) as [Hn0 _].
    split; f_equal.
    + change (ele p0 :: map ele rest) with (map ele (p0 :: rest)).
      apply fold_Qmax_absorbs. rewrite Forall_map.
      eapply Forall_impl; [|exact Hr]. simpl. tauto.
    + change (ele p0 :: map ele rest) with (map ele (p0 :: rest)).
      apply fold_Qmin_absorbs. rewrite Forall_map.
      eapply Forall_impl; [|exact Hr]. simpl. tauto.
Qed.

Lemma totalClimbing_nonneg (points : list Point) : 0 <= totalClimbing points.
Proof.
  destruct points as [|p0 rest]; [simpl; lra|].
  exact (proj1 (climbingFrom_bounds rest p0 0)).
Qed.

Lemma totalClimbing_app_le (l1 l2 : list Point) :
  totalClimbing l1 <= totalClimbing (l1 ++ l2).
Proof.
  destruct l1 as [|a l1]; [apply totalClimbing_nonneg|].
  cbn [app totalClimbing]. rewrite climbingFrom_app.
  exact (proj1 (climbingFrom_bounds l2 (last l1 a) (climbingFrom a l1 0))).
Qed.

(** More laps never lower the total climbing: the laps added come after
    the others, and the loop only ever adds to its total. *)
Lemma totalClimbing_more_laps (baseData : BaseData.t) (n m : nat) :
  (n <= m)%nat ->
  totalClimbing (fullPoints baseData n) <= totalClimbing (fullPoints baseData m).
Proof.
  induction 1 as [|m _ IH]; [apply Qle_refl|].
  rewrite fullPoints_S.
  pose proof (totalClimbing_app_le
                (fullPoints baseData m)
                (lapPoints (ofNat m * BaseData.distance baseData)
                           (BaseData.points baseData))).
  lra.
Qed.

(** X14. Riding more laps never lowers the total climbing, and it leaves
    the net gain, the highest and the lowest elevation as they are for one
    lap. *)
Theorem more_laps_and_the_summary (baseData : BaseData.t) (n m : nat)
  (p0 : Point) (rest : list Point) :
  BaseData.points baseData = p0 :: rest ->
  (1 <= n)%nat -> (n <= m)%nat ->
  exists fd fd',
    Profiler.analyzeRoute (fullPoints baseData n) (totalDistance baseData n)
    = Some fd /\
    Profiler.analyzeRoute (fullPoints baseData m) (totalDistance baseData m)
    = Some fd' /\
    Profiler.FileData.totalClimbing fd <= Profiler.FileData.totalClimbing fd' /\
    Profiler.FileData.totalGain fd = ele (last rest p0) - ele p0 /\
    Profiler.FileData.totalGain fd' = ele (last rest p0) - ele p0 /\
    Profiler.FileData.maxEle fd = mathMax (map ele (p0 :: rest)) /\
    Profiler.FileData.maxEle fd' = mathMax (map ele (p0 :: rest)) /\
    Profiler.FileData.minEle fd = mathMin (map ele (p0 :: rest)) /\
    Profiler.FileData.minEle fd' = mathMin (map ele (p0 :: rest)).
Proof.
  intros Hpts Hn Hnm.
  pose proof (totalClimbing_more_laps baseData n m Hnm) as Htc.
  destruct n as [|n]; [lia|]. destruct m as [|m]; [lia|].
  destruct (fullPoints_ends _ _ _ Hpts n) as (q0 & more & E & H0 & Hl).
  destruct (fullPoints_ends _ _ _ Hpts m) as (q0' & more' & E' & H0' & Hl').
  destruct (laps_elevation_range _ _ _ Hpts n) as [Hmax Hmin].
  destruct (laps_elevation_range _ _ _ Hpts m) as [Hmax' Hmin'].
  unfold Profiler.analyzeRoute. rewrite E, E' in *.
  eexists _, _. split; [reflexivity|]. split; [reflexivity|].
  cbn [Profiler.FileData.totalClimbing Profiler.FileData.totalGain
       Profiler.FileData.maxEle Profiler.FileData.minEle].
  split; [exact Htc|].
  split; [rewrite last_cons_shift, Hl, H0; reflexivity|].
  split; [rewrite last_cons_shift, Hl', H0'; reflexivity|].
  auto.
Qed.

Lemma more_laps_and_the_summary_witness :
  let bd := BaseData.mk [trackPoint 0 30; trackPoint 1 50; trackPoint 2 10] 2 in
  BaseData.points bd = trackPoint 0 30 :: [trackPoint 1 50; trackPoint 2 10] /\
  (1 <= 1)%nat /\ (1 <= 3)%nat /\
  exists fd fd',
    Profiler.analyzeRoute (fullPoints bd 1) (totalDistance bd 1) = Some fd /\
    Profiler.analyzeRoute (fullPoints bd 3) (totalDistance bd 3) = Some fd' /\
    Profiler.FileData.totalClimbing fd <= Profiler.FileData.totalClimbing fd' /\
    Profiler.FileData.totalGain fd
    = ele (last [trackPoint 1 50; trackPoint 2 10] (trackPoint 0 30))
      - ele (trackPoint 0 30) /\
    Profiler.FileData.totalGain fd'
    = ele (last [trackPoint 1 50; trackPoint 2 10] (trackPoint 0 30))
      - ele (trackPoint 0 30) /\
    Profiler.FileData.maxEle fd
    = mathMax (map ele (trackPoint 0 30 :: [trackPoint 1 50; trackPoint 2 10])) /\
    Profiler.FileData.maxEle fd'
    = mathMax (map ele (trackPoint 0 30 :: [trackPoint 1 50; trackPoint 2 10])) /\
    Profiler.FileData.minEle fd
    = mathMin (map ele (trackPoint 0 30 :: [trackPoint 1 50; trackPoint 2 10])) /\
    Profiler.FileData.minEle fd'
    = mathMin (map ele (trackPoint 0 30 :: [trackPoint 1 50; trackPoint 2 10])).
Proof.
  intros bd. split; [reflexivity|]. split; [lia|]. split; [lia|].
  apply (more_laps_and_the_summary bd 1 3 (trackPoint 0 30)
           [trackPoint 1 50; trackPoint 2 10]); [reflexivity|lia|lia].
Defined.

(** ** Names and the states of the page *)

Lemma nth_error_updateAt {A : Type} (f : A -> A) (xs : list A) :
  forall index i,
    nth_error (updateAt index f xs) i
    = if Nat.eqb i index then option_map f (nth_error xs i)
      else nth_error xs i.
Proof.
  induction xs as [|x xs IH]; intros index i.
  - destruct index, i; simpl; try reflexivity.
    destruct (Nat.eqb i index); reflexivity.
  - destruct index as [|index]; destruct i as [|i]; simpl; try reflexivity.
    apply IH.
Qed.

Lemma length_updateAt {A : Type} (f : A -> A) (xs : list A) :
  forall index, List.length (updateAt index f xs) = List.length xs.
Proof.
  induction xs as [|x xs IH]; intros [|index]; simpl; auto.
Qed.


Lemma Forall2_updateAt {A B : Type} (R : A -> B -> Prop) (f : A -> A)
  (xs : list A) (ys : list B) :
  (forall a b, R a b -> R (f a) b) ->
  Forall2 R xs ys -> forall index, Forall2 R (updateAt index f xs) ys.
Proof.
  intros Hf. induction 1 as [|a b xs ys Hab Hrest IH]; intros [|index]; simpl;
    constructor; auto.
Qed.

Lemma Forall2_refl {A : Type} (R : A -> A -> Prop) (xs : list A) :
  (forall a, R a a) -> Forall2 R xs xs.
Proof. intros HR. induction xs; constructor; auto. Qed.

Lemma withName_same (c : Profiler.Scored.t) :
  c = withName (Profiler.Scored.name c) c.
Proof. destruct c. reflexivity. Qed.

Lemma sameButNames_refl (fd : Profiler.FileData.t) : sameButNames fd fd.
Proof.
  unfold sameButNames. repeat split.
  apply Forall2_refl. exact withName_same.
Qed.

Lemma sameButNames_rename (index : Z) (value : String.string)
  (fd fd' fd0 : Profiler.FileData.t) :
  sameButNames fd fd0 ->
  updateClimbName index value (Some fd) = Some fd' ->
  sameButNames fd' fd0.
Proof.
  intros (H1 & H2 & H3 & H4 & H5 & H6 & H7 & H8 & H9) H.
  unfold updateClimbName in H. injection H as <-.
  unfold sameButNames. simpl. repeat split; try assumption.
  destruct (_ && _)%bool; [|exact H9].
  apply Forall2_updateAt; [|exact H9].
  intros a b Hab. rewrite Hab. destruct b. reflexivity.
Qed.

(** X15. Naming a climb: on a result, an index inside the list of climbs
    gives that climb the name and changes nothing else; any other index
    leaves every climb as it was.  The points, the totals and the scores
    are kept, and without a result there is nothing to name. *)
Theorem naming_a_climb (index : Z) (value : String.string)
  (fd : Profiler.FileData.t) :
  updateClimbName index value None = None /\
  exists fd',
    updateClimbName index value (Some fd) = Some fd' /\
    sameButNames fd' fd /\
    List.length (Profiler.FileData.climbs fd')
    = List.length (Profiler.FileData.climbs fd) /\
    forall i c,
      nth_error (Profiler.FileData.climbs fd) i = Some c ->
      nth_error (Profiler.FileData.climbs fd') i
      = Some (if (Z.of_nat i =? index)%Z then withName value c else c).
Proof.
  split; [reflexivity|]. eexists. split; [reflexivity|].
  split; [|split].
  - eapply sameButNames_rename; [apply sameButNames_refl|reflexivity].
  - simpl. destruct (_ && _)%bool; [apply length_updateAt|reflexivity].
  - intros i c Hc. simpl.
    assert (Hi : (i < List.length (Profiler.FileData.climbs fd))%nat)
      by (apply nth_error_Some; congruence).
    destruct ((0 <=? index)%Z && _)%bool eqn:E.
    + apply andb_prop in E. destruct E as [E1 E2].
      apply Z.leb_le in E1. apply Z.ltb_lt in E2.
      rewrite nth_error_updateAt, Hc.
      destruct (Z.eqb_spec (Z.of_nat i) index) as [Hz|Hz].
      * assert (Hn : i = Z.to_nat index) by lia.
        rewrite <- Hn, Nat.eqb_refl. reflexivity.
      * assert (Hn : Nat.eqb i (Z.to_nat index) = false)
          by (apply Nat.eqb_neq; lia).
        rewrite Hn. reflexivity.
    + rewrite Hc. apply andb_false_iff in E.
      destruct (Z.eqb_spec (Z.of_nat i) index) as [Hz|Hz]; [|reflexivity].
      exfalso. destruct E as [E|E].
      * apply Z.leb_gt in E. lia.
      * apply Z.ltb_ge in E. lia.
Qed.

Lemma profiler_validClimbs_names (points : list Point) (totalDistance : Q) :
  Forall (fun c => Profiler.Scored.name c = String.EmptyString)
         (Profiler.validClimbs points totalDistance).
Proof.
  apply Forall_forall. intros c Hc.
  destruct (profiler_validClimbs_In _ _ _ Hc) as (j & x & _ & _ & ->).
  reflexivity.
Qed.

Lemma upToDate_same (st st' : AppState Profiler.FileData.t) :
  upToDate st ->
  fileData st' = fileData st -> baseData st' = baseData st ->
  laps st' = laps st ->
  upToDate st'.
Proof.
  intros H Hf Hb Hl fd Hfd. rewrite Hf in Hfd. rewrite Hb, Hl. exact (H fd Hfd).
Qed.

Lemma recalculate_fresh (haversineDistance : Q -> Q -> Q -> Q -> Q)
  (st : AppState Profiler.FileData.t) (bd : BaseData.t) :
  stateOk haversineDistance st ->
  baseData st = Some bd ->
  exists fd,
    Profiler.analyzeRoute (fullPoints bd (laps st)) (totalDistance bd (laps st))
    = Some fd /\
    recalculate Profiler.analyzeRoute st
    = mkAppState (Some fd) (baseData st) (baseDataId st) (laps st)
                 (isProcessing st) (console st).
Proof.
  intros [Hlaps Hbd] E. destruct (Hbd bd E) as [trkpts Ht].
  assert (Hne : fullPoints bd (laps st) <> []).
  { apply fullPoints_nonempty; [|exact Hlaps].
    unfold buildTrack in Ht. destruct trkpts as [|r0 rest]; [discriminate|].
    destruct (pointsWithDist haversineDistance (r0 :: rest)) as [w t] eqn:Ew.
    injection Ht as <-. simpl. intros E0.
    apply (f_equal (@List.length Point)) in E0.
    rewrite smoothElevation_length in E0.
    unfold pointsWithDist in Ew.
    destruct (withDistFrom _ r0 0 rest) as [ps final].
    injection Ew as <- _. discriminate. }
  destruct (profiler_analyzeRoute_total _ (totalDistance bd (laps st)) Hne)
    as [fd Hfd].
  exists fd. split; [exact Hfd|]. unfold recalculate. rewrite E, Hfd.
  reflexivity.
Qed.

Lemma recalculate_upToDate (haversineDistance : Q -> Q -> Q -> Q -> Q)
  (st : AppState Profiler.FileData.t) :
  stateOk haversineDistance st ->
  (baseData st = None -> fileData st = None) ->
  upToDate (recalculate Profiler.analyzeRoute st).
Proof.
  intros Hok Hnone. destruct (baseData st) as [bd|] eqn:E.
  - destruct (recalculate_fresh _ _ _ Hok E) as (fd & Hfd & ->).
    intros fd' H. simpl in H. injection H as <-. simpl.
    exists bd, fd. split; [exact E|]. split; [exact Hfd|].
    apply sameButNames_refl.
  - unfold recalculate. rewrite E. intros fd H.
    rewrite (Hnone eq_refl) in H. discriminate.
Qed.

Lemma upToDate_none (st : AppState Profiler.FileData.t) :
  upToDate st -> baseData st = None -> fileData st = None.
Proof.
  intros H E. destruct (fileData st) as [fd|] eqn:Ef; [|reflexivity].
  destruct (H fd Ef) as (bd & _ & Hbd & _). congruence.
Qed.

Lemma update_upToDate (haversineDistance : Q -> Q -> Q -> Q -> Q)
  (f : AppState Profiler.FileData.t -> AppState Profiler.FileData.t)
  (st : AppState Profiler.FileData.t) :
  stateOk haversineDistance (f st) ->
  (baseData (f st) = None -> fileData (f st) = None) ->
  (baseDataId st = baseDataId (f st) -> laps st = laps (f st) ->
   upToDate (f st)) ->
  upToDate (update Profiler.analyzeRoute f st).
Proof.
  intros Hok Hnone Hsame. unfold update, useEffect.
  destruct (Nat.eqb (baseDataId st) (baseDataId (f st))) eqn:E1;
    [destruct (Nat.eqb (laps st) (laps (f st))) eqn:E2|]; simpl.
  - apply Hsame; apply Nat.eqb_eq; assumption.
  - eapply recalculate_upToDate; eassumption.
  - eapply recalculate_upToDate; eassumption.
Qed.

Lemma update_ok (haversineDistance : Q -> Q -> Q -> Q -> Q)
  (f : AppState Profiler.FileData.t -> AppState Profiler.FileData.t)
  (st : AppState Profiler.FileData.t) :
  stateOk haversineDistance (f st) ->
  stateOk haversineDistance (update Profiler.analyzeRoute f st).
Proof.
  intros Hok. unfold update, useEffect.
  destruct (_ && _)%bool; [exact Hok|apply recalculate_ok; exact Hok].
Qed.

Lemma reachable_inv (haversineDistance : Q -> Q -> Q -> Q -> Q)
  (st : AppState Profiler.FileData.t) :
  reachable haversineDistance st ->
  stateOk haversineDistance st /\ upToDate st.
Proof.
  induction 1 as [|trkpts st _ [Hok Hup]|st _ [Hok Hup]|st _ [Hok Hup]
                  |index value st _ [Hok Hup]|st _ [Hok Hup]].
  - split; [apply initialState_ok|]. intros fd H. discriminate.
  - pose proof (processGPX_ok haversineDistance _ trkpts st Hok) as Hok'.
    split; [apply update_ok; exact Hok'|].
    apply (update_upToDate haversineDistance); [exact Hok'| |].
    + unfold processGPX. destruct (buildTrack _ _); simpl; [|discriminate].
      apply upToDate_none, Hup.
    + unfold processGPX. destruct (buildTrack _ _); simpl.
      * intros _ _. eapply upToDate_same; [exact Hup| | |]; reflexivity.
      * intros H. lia.
  - pose proof (decrementLaps_ok haversineDistance _ st Hok) as Hok'.
    split; [apply update_ok; exact Hok'|].
    apply (update_upToDate haversineDistance); [exact Hok'| |].
    + simpl. apply upToDate_none, Hup.
    + intros _ Hl. eapply upToDate_same; [exact Hup| | |]; auto.
  - pose proof (incrementLaps_ok haversineDistance _ st Hok) as Hok'.
    split; [apply update_ok; exact Hok'|].
    apply (update_upToDate haversineDistance); [exact Hok'| |].
    + simpl. apply upToDate_none, Hup.
    + intros _ Hl. eapply upToDate_same; [exact Hup| | |]; auto.
  - assert (Hok' : stateOk haversineDistance (renameClimb index value st))
      by exact Hok.
    split; [apply update_ok; exact Hok'|].
    apply (update_upToDate haversineDistance); [exact Hok'| |].
    + simpl. intros E. rewrite (upToDate_none _ Hup E). reflexivity.
    + intros _ _ fd' Hfd'. simpl in Hfd'.
      destruct (fileData st) as [fd|] eqn:Ef; [|discriminate].
      destruct (Hup fd Ef) as (bd & fd0 & Hbd & Hfd0 & Hsame).
      exists bd, fd0. split; [exact Hbd|]. split; [exact Hfd0|].
      eapply sameButNames_rename; eassumption.
  - assert (Hok' : stateOk haversineDistance (newAnalysis st)) by exact Hok.
    split; [apply update_ok; exact Hok'|].
    apply (update_upToDate haversineDistance); [exact Hok'| |].
    + reflexivity.
    + intros _ _ fd H. discriminate.
Qed.

(** X16. In every state the page reaches there is at least one lap, and
    the result on display, if there is one, is the analysis of the stored
    base data at the current number of laps; it differs from a fresh
    analysis in the names given to its climbs at most. *)
Theorem result_on_display_is_current
  (haversineDistance : Q -> Q -> Q -> Q -> Q)
  (st : AppState Profiler.FileData.t) :
  reachable haversineDistance st ->
  (1 <= laps st)%nat /\
  forall fd,
    fileData st = Some fd ->
    exists bd fd0,
      baseData st = Some bd /\
      Profiler.analyzeRoute (fullPoints bd (laps st))
                            (totalDistance bd (laps st)) = Some fd0 /\
      sameButNames fd fd0.
Proof.
  intros H. destruct (reachable_inv _ _ H) as [[Hlaps _] Hup].
  split; [exact Hlaps|exact Hup].
Qed.

Lemma result_on_display_is_current_witness :
  let st := update Profiler.analyzeRoute (renameClimb 0 "Col"%string)
              (update Profiler.analyzeRoute
                      (processGPX axisDistance sampleTrkpts) initialState) in
  reachable axisDistance st /\
  (1 <= laps st)%nat /\
  forall fd,
    fileData st = Some fd ->
    exists bd fd0,
      baseData st = Some bd /\
      Profiler.analyzeRoute (fullPoints bd (laps st))
                            (totalDistance bd (laps st)) = Some fd0 /\
      sameButNames fd fd0.
Proof.
  intros st.
  assert (H : reachable axisDistance st)
    by (apply reach_renameClimb, reach_processGPX, reach_initial).
  split; [exact H|]. exact (result_on_display_is_current axisDistance st H).
Defined.

(** X17. Once a track is loaded, adding a lap runs the analysis again on
    one lap more: the result on display is replaced by the fresh one, in
    which every climb has an empty name, so names given before are gone. *)
Theorem adding_a_lap_reanalyses (haversineDistance : Q -> Q -> Q -> Q -> Q)
  (st : AppState Profiler.FileData.t) (bd : BaseData.t) :
  reachable haversineDistance st ->
  baseData st = Some bd ->
  let st' := update Profiler.analyzeRoute incrementLaps st in
  laps st' = S (laps st) /\ baseData st' = Some bd /\
  exists fd,
    fileData st' = Some fd /\
    Profiler.analyzeRoute (fullPoints bd (S (laps st)))
                          (totalDistance bd (S (laps st))) = Some fd /\
    Forall (fun c => Profiler.Scored.name c = String.EmptyString)
           (Profiler.FileData.climbs fd).
Proof.
  intros Hreach Hbd st'.
  destruct (reachable_inv _ _ Hreach) as [Hok _].
  pose proof (incrementLaps_ok haversineDistance _ st Hok) as Hok'.
  assert (Hl : laps (incrementLaps st) = S (laps st)).
  { unfold incrementLaps. cbn [laps]. rewrite Nat.max_r by lia. lia. }
  destruct (recalculate_fresh haversineDistance (incrementLaps st) bd Hok' Hbd)
    as (fd & Hfd & Hrec).
  assert (Hst' : st' = recalculate Profiler.analyzeRoute (incrementLaps st)).
  { unfold st', update, useEffect.
    assert (E : Nat.eqb (laps st) (laps (incrementLaps st)) = false)
      by (apply Nat.eqb_neq; lia).
    rewrite E, andb_false_r. reflexivity. }
  rewrite Hst', Hrec. rewrite Hl in *. cbn [laps baseData fileData].
  split; [reflexivity|]. split; [exact Hbd|].
  exists fd. split; [reflexivity|]. split; [exact Hfd|].
  unfold Profiler.analyzeRoute in Hfd.
  destruct (fullPoints bd (S (laps st))); [discriminate|].
  injection Hfd as <-. simpl. apply profiler_validClimbs_names.
Qed.

Lemma adding_a_lap_reanalyses_witness :
  let st := update Profiler.analyzeRoute (renameClimb 0 "Col"%string)
              (update Profiler.analyzeRoute
                      (processGPX axisDistance sampleTrkpts) initialState) in
  reachable axisDistance st /\
  baseData st = Some sampleBase /\
  let st' := update Profiler.analyzeRoute incrementLaps st in
  laps st' = S (laps st) /\ baseData st' = Some sampleBase /\
  exists fd,
    fileData st' = Some fd /\
    Profiler.analyzeRoute (fullPoints sampleBase (S (laps st)))
                          (totalDistance sampleBase (S (laps st))) = Some fd /\
    Forall (fun c => Profiler.Scored.name c = String.EmptyString)
           (Profiler.FileData.climbs fd).
Proof.
  intros st.
  assert (H : reachable axisDistance st)
    by (apply reach_renameClimb, reach_processGPX, reach_initial).
  assert (Hb : baseData st = Some sampleBase) by reflexivity.
  split; [exact H|]. split; [exact Hb|].
  exact (adding_a_lap_reanalyses axisDistance st sampleBase H Hb).
Defined.

Lemma recalculate_laps {FD : Type}
  (analyzeRoute : list Point -> Q -> option FD) (st : AppState FD) :
  laps (recalculate analyzeRoute st) = laps st /\
  baseData (recalculate analyzeRoute st) = baseData st.
Proof.
  unfold recalculate. destruct (baseData st) as [bd|] eqn:E; [|auto].
  destruct (analyzeRoute _ _); simpl; auto.
Qed.

(** X18. Removing a lap never goes below one lap: at one lap the button
    changes nothing, and no analysis is run; with more laps the count
    drops by one and the base data stay. *)
Theorem removing_a_lap {FD : Type}
  (analyzeRoute : list Point -> Q -> option FD) (st : AppState FD) :
  (laps st = 1%nat -> update analyzeRoute decrementLaps st = st) /\
  ((1 < laps st)%nat ->
   laps (update analyzeRoute decrementLaps st) = (laps st - 1)%nat /\
   baseData (update analyzeRoute decrementLaps st) = baseData st).
Proof.
  split.
  - intros H. unfold update, useEffect, decrementLaps. cbn [baseDataId laps].
    rewrite H, !Nat.eqb_refl. destruct st. simpl in *. subst. reflexivity.
  - intros H. unfold update, useEffect.
    assert (Hl : laps (decrementLaps st) = (laps st - 1)%nat).
    { unfold decrementLaps. cbn [laps]. apply Nat.max_r. lia. }
    destruct (_ && _)%bool.
    + split; [exact Hl|reflexivity].
    + destruct (recalculate_laps analyzeRoute (decrementLaps st)) as [H1 H2].
      rewrite H1, H2. split; [exact Hl|reflexivity].
Qed.

Lemma removing_a_lap_witness :
  let st := update Profiler.analyzeRoute
                   (processGPX axisDistance sampleTrkpts) initialState in
  let st2 := update Profiler.analyzeRoute incrementLaps st in
  (laps st = 1%nat /\ update Profiler.analyzeRoute decrementLaps st = st) /\
  ((1 < laps st2)%nat /\
   laps (update Profiler.analyzeRoute decrementLaps st2) = (laps st2 - 1)%nat /\
   baseData (update Profiler.analyzeRoute decrementLaps st2) = baseData st2).
Proof.
  intros st st2.
  assert (H : laps st = 1%nat) by reflexivity.
  assert (H2 : (1 < laps st2)%nat) by (vm_compute; lia).
  split; split.
  - exact H.
  - exact (proj1 (removing_a_lap Profiler.analyzeRoute st) H).
  - exact H2.
  - exact (proj2 (removing_a_lap Profiler.analyzeRoute st2) H2).
Defined.

(** ** The chart *)

Lemma next_multiple (f s : nat) :
  (0 < f)%nat ->
  (s mod f = 0 ->
   (f - s mod f) mod f = 0 /\ (f - S s mod f) mod f = f - 1)%nat /\
  (s mod f <> 0 ->
   (f - s mod f) mod f = S ((f - S s mod f) mod f))%nat.
Proof.
  intros Hf.
  pose proof (Nat.div_mod_eq s f) as Hs.
  pose proof (Nat.mod_upper_bound s f ltac:(lia)) as Hm.
  set (q := (s / f)%nat) in *. set (m := (s mod f)%nat) in *.
  assert (HS : (S s mod f = if Nat.eqb (S m) f then 0 else S m)%nat).
  { destruct (Nat.eqb_spec (S m) f) as [E|E].
    - symmetry. apply (Nat.mod_unique _ _ (S q)); lia.
    - symmetry. apply (Nat.mod_unique _ _ q); lia. }
  rewrite HS. split.
  - intros H0. rewrite H0 in *. rewrite Nat.sub_0_r, Nat.Div0.mod_same.
    split; [reflexivity|].
    destruct (Nat.eqb_spec 1 f) as [E|E].
    + subst f. reflexivity.
    + apply Nat.mod_small. lia.
  - intros H0. rewrite (Nat.mod_small (f - m) f) by lia.
    destruct (Nat.eqb_spec (S m) f) as [E|E].
    + rewrite Nat.sub_0_r, Nat.Div0.mod_same. lia.
    + rewrite (Nat.mod_small (f - S m) f) by lia. lia.
Qed.

Lemma nth_error_filteriFrom_mod {A : Type} (f : nat) (xs : list A) :
  (0 < f)%nat ->
  forall s k,
    nth_error (ElevationChart.filteriFrom (fun i => (i mod f =? 0)%nat) s xs) k
    = nth_error xs ((f - s mod f) mod f + k * f).
Proof.
  intros Hf. induction xs as [|x xs IH]; intros s k.
  - simpl. destruct k; destruct (_ + _)%nat; reflexivity.
  - cbn [ElevationChart.filteriFrom].
    destruct (next_multiple f s Hf) as [H0 H1].
    destruct (Nat.eqb_spec (s mod f) 0) as [E|E].
    + destruct (H0 E) as [Hr Hr']. rewrite Hr.
      destruct k as [|k]; [reflexivity|].
      cbn [nth_error]. rewrite IH, Hr'.
      replace (0 + S k * f)%nat with (S (f - 1 + k * f)) by lia.
      reflexivity.
    + rewrite (H1 E), IH. reflexivity.
Qed.

Lemma nth_error_filteri_mod {A : Type} (f : nat) (xs : list A) (k : nat) :
  (0 < f)%nat ->
  nth_error (ElevationChart.filteri (fun i => (i mod f =? 0)%nat) xs) k
  = nth_error xs (k * f).
Proof.
  intros Hf. unfold ElevationChart.filteri.
  rewrite (nth_error_filteriFrom_mod f xs Hf 0 k).
  rewrite Nat.Div0.mod_0_l, Nat.sub_0_r, Nat.Div0.mod_same. reflexivity.
Qed.

(** X19. Fewer than 500 points are all displayed.  From 500 points on,
    with [factor] the quotient of their number by 500, the [k]-th
    displayed point is the point of index [k * factor]; between 500 and
    999 points are displayed, the first of which is the first point. *)
Theorem displayed_points (points : list Point) :
  ((List.length points < 500)%nat ->
   ElevationChart.displayPoints points = points) /\
  ((500 <= List.length points)%nat ->
   (forall k,
      nth_error (ElevationChart.displayPoints points) k
      = nth_error points (k * (List.length points / 500))) /\
   (500 <= List.length (ElevationChart.displayPoints points))%nat /\
   (List.length (ElevationChart.displayPoints points) <= 999)%nat).
Proof.
  unfold ElevationChart.displayPoints. split; intros H.
  - apply Nat.ltb_lt in H. rewrite H. reflexivity.
  - assert (E : (List.length points <? 500)%nat = false)
      by (apply Nat.ltb_ge; exact H).
    rewrite E.
    pose proof (Nat.div_mod_eq (List.length points) 500) as Hd.
    pose proof (Nat.mod_upper_bound (List.length points) 500 ltac:(lia)) as Hm.
    set (factor := (List.length points / 500)%nat) in *.
    assert (Hf : (0 < factor)%nat) by lia.
    split; [|split].
    + intros k. apply nth_error_filteri_mod. exact Hf.
    + apply nth_error_Some with (n := 499%nat).
      rewrite nth_error_filteri_mod by exact Hf.
      apply nth_error_Some. lia.
    + apply nth_error_None with (n := 999%nat).
      rewrite nth_error_filteri_mod by exact Hf.
      apply nth_error_None. lia.
Qed.

Lemma displayed_points_witness :
  ((List.length scenarioB < 500)%nat /\
   ElevationChart.displayPoints scenarioB = scenarioB) /\
  ((500 <= List.length (repeat (trackPoint 0 0) 1200))%nat /\
   (forall k,
      nth_error (ElevationChart.displayPoints (repeat (trackPoint 0 0) 1200)) k
      = nth_error (repeat (trackPoint 0 0) 1200)
          (k * (List.length (repeat (trackPoint 0 0) 1200) / 500))) /\
   (500 <= List.length
             (ElevationChart.displayPoints (repeat (trackPoint 0 0) 1200)))%nat /\
   (List.length (ElevationChart.displayPoints (repeat (trackPoint 0 0) 1200))
    <= 999)%nat).
Proof.
  assert (H1 : (List.length scenarioB < 500)%nat)
    by (apply Nat.ltb_lt; vm_compute; reflexivity).
  assert (H2 : (500 <= List.length (repeat (trackPoint 0 0) 1200))%nat)
    by (apply Nat.leb_le; vm_compute; reflexivity).
  split; split.
  - exact H1.
  - exact (proj1 (displayed_points scenarioB) H1).
  - exact H2.
  - exact (proj2 (displayed_points (repeat (trackPoint 0 0) 1200)) H2).
Defined.

Lemma ratio_bounds (a b : Q) :
  0 < b -> 0 <= a -> a <= b -> 0 <= a / b /\ a / b <= 1.
Proof.
  intros Hb H0 H1. split.
  - apply Qle_shift_div_l; [exact Hb|lra].
  - apply Qle_shift_div_r; [exact Hb|lra].
Qed.

Lemma ratio_monotone (a a' b : Q) : 0 < b -> a <= a' -> a / b <= a' / b.
Proof.
  intros Hb H. unfold Qdiv. apply Qmult_le_compat_r; [exact H|].
  apply Qlt_le_weak, Qinv_lt_0_compat, Hb.
Qed.

Lemma safeTotalDistance_pos (totalDistance : Q) :
  0 < ElevationChart.safeTotalDistance totalDistance.
Proof.
  unfold ElevationChart.safeTotalDistance.
  destruct (Qgtb totalDistance 0) eqn:E; qprop; lra.
Qed.

Lemma safeEleRange_pos (minEle maxEle : Q) :
  0 < ElevationChart.safeEleRange minEle maxEle.
Proof.
  unfold ElevationChart.safeEleRange.
  destruct (Qgtb (maxEle - minEle) 0) eqn:E; qprop; lra.
Qed.

Lemma getX_frame (totalDistance d : Q) :
  0 <= d -> d <= totalDistance ->
  ElevationChart.hPadding <= ElevationChart.getX totalDistance d /\
  ElevationChart.getX totalDistance d
  <= ElevationChart.width - ElevationChart.hPadding.
Proof.
  intros H0 H1.
  pose proof (safeTotalDistance_pos totalDistance) as Hpos.
  assert (Hd : d <= ElevationChart.safeTotalDistance totalDistance).
  { unfold ElevationChart.safeTotalDistance.
    destruct (Qgtb totalDistance 0) eqn:E; qprop; lra. }
  destruct (ratio_bounds _ _ Hpos H0 Hd) as [Ha Hb].
  unfold ElevationChart.getX, ElevationChart.hPadding, ElevationChart.width.
  split; lra.
Qed.

Lemma getY_frame (minEle maxEle e : Q) :
  minEle <= e -> e <= maxEle ->
  ElevationChart.vPadding <= ElevationChart.getY minEle maxEle e /\
  ElevationChart.getY minEle maxEle e
  <= ElevationChart.height - ElevationChart.vPadding.
Proof.
  intros H0 H1.
  pose proof (safeEleRange_pos minEle maxEle) as Hpos.
  assert (Hd : e - minEle <= ElevationChart.safeEleRange minEle maxEle).
  { unfold ElevationChart.safeEleRange.
    destruct (Qgtb (maxEle - minEle) 0) eqn:E; qprop; lra. }
  assert (Hn : 0 <= e - minEle) by lra.
  destruct (ratio_bounds _ _ Hpos Hn Hd) as [Ha Hb].
  unfold ElevationChart.getY, ElevationChart.vPadding, ElevationChart.height.
  split; lra.
Qed.

Lemma getX_monotone (totalDistance d d' : Q) :
  d <= d' ->
  ElevationChart.getX totalDistance d <= ElevationChart.getX totalDistance d'.
Proof.
  intros H.
  pose proof (ratio_monotone d d' _ (safeTotalDistance_pos totalDistance) H).
  unfold ElevationChart.getX, ElevationChart.hPadding, ElevationChart.width.
  lra.
Qed.

Lemma getY_antitone (minEle maxEle e e' : Q) :
  e <= e' ->
  ElevationChart.getY minEle maxEle e' <= ElevationChart.getY minEle maxEle e.
Proof.
  intros H.
  assert (H' : e - minEle <= e' - minEle) by lra.
  pose proof (ratio_monotone _ _ _ (safeEleRange_pos minEle maxEle) H').
  unfold ElevationChart.getY, ElevationChart.vPadding, ElevationChart.height.
  lra.
Qed.

(** X20. The chart of a result on a course: every point of the track is
    drawn inside the frame, between the horizontal paddings and between
    the vertical ones; points further along the course are drawn further
    to the right and higher points are drawn higher up. *)
Theorem chart_frame (points : list Point) (totalDistance : Q)
  (fd : Profiler.FileData.t) :
  onCourse points totalDistance ->
  Profiler.analyzeRoute points totalDistance = Some fd ->
  exists minEle maxEle,
    Profiler.FileData.minEle fd = Some minEle /\
    Profiler.FileData.maxEle fd = Some maxEle /\
    let getX := ElevationChart.getX (Profiler.FileData.totalDistance fd) in
    let getY := ElevationChart.getY minEle maxEle in
    (forall p,
       In p (Profiler.FileData.points fd) ->
       ElevationChart.hPadding <= getX (dist p) /\
       getX (dist p) <= ElevationChart.width - ElevationChart.hPadding /\
       ElevationChart.vPadding <= getY (ele p) /\
       getY (ele p) <= ElevationChart.height - ElevationChart.vPadding) /\
    (forall p q, dist p <= dist q -> getX (dist p) <= getX (dist q)) /\
    (forall p q, ele p <= ele q -> getY (ele q) <= getY (ele p)).
Proof.
  intros [_ Hall] H. unfold Profiler.analyzeRoute in H.
  destruct points as [|p0 rest]; [discriminate|]. injection H as <-.
  cbn [Profiler.FileData.minEle Profiler.FileData.maxEle
       Profiler.FileData.totalDistance Profiler.FileData.points
       mathMax mathMin map].
  eexists _, _. split; [reflexivity|]. split; [reflexivity|].
  cbv zeta. split; [|split].
  - intros p Hp. pose proof (elevation_range p0 rest) as Hr.
    rewrite Forall_forall in Hall, Hr.
    destruct (Hall p Hp) as [H0 H1]. destruct (Hr p Hp) as [H2 H3].
    destruct (getX_frame totalDistance (dist p) H0 H1).
    destruct (getY_frame _ _ (ele p) H2 H3). auto.
  - intros p q. apply getX_monotone.
  - intros p q. apply getY_antitone.
Qed.

Lemma chart_frame_witness :
  onCourse scenarioB 50 /\
  exists fd,
    Profiler.analyzeRoute scenarioB 50 = Some fd /\
    exists minEle maxEle,
      Profiler.FileData.minEle fd = Some minEle /\
      Profiler.FileData.maxEle fd = Some maxEle /\
      let getX := ElevationChart.getX (Profiler.FileData.totalDistance fd) in
      let getY := ElevationChart.getY minEle maxEle in
      (forall p,
         In p (Profiler.FileData.points fd) ->
         ElevationChart.hPadding <= getX (dist p) /\
         getX (dist p) <= ElevationChart.width - ElevationChart.hPadding /\
         ElevationChart.vPadding <= getY (ele p) /\
         getY (ele p) <= ElevationChart.height - ElevationChart.vPadding) /\
      (forall p q, dist p <= dist q -> getX (dist p) <= getX (dist q)) /\
      (forall p q, ele p <= ele q -> getY (ele q) <= getY (ele p)).
Proof.
  assert (H : onCourse scenarioB 50).
  { split; [vm_compute; reflexivity|].
    apply Forall_forall. intros p Hp. vm_compute in Hp.
    repeat (destruct Hp as [<-|Hp]; [vm_compute; split; discriminate|]).
    contradiction. }
  split; [exact H|]. eexists. split; [reflexivity|].
  exact (chart_frame scenarioB 50 _ H eq_refl).
Defined.

(** *** The overlays of the climbs *)

Lemma climb_ends (points : list Point) (x : Climb.t) :
  nondecreasing points ->
  In x (climbs points) ->
  (exists p q,
     In p points /\ In q points /\
     dist p = Climb.startDist x /\ dist q = Climb.endDist x) /\
  Climb.startDist x + CHUNK_SIZE <= Climb.endDist x.
Proof.
  intros Hnd Hx.
  pose proof (aggregate_shape (chunks points)) as Hshape.
  pose proof (chunks_ok points) as Hok.
  destruct (climbs_ordered points Hnd) as [Hspan _].
  rewrite Forall_forall in Hshape, Hok, Hspan.
  destruct (Hshape x Hx) as [(f & tl & Hck & Hs & He & _) Hincl].
  split; [|exact (climbSpan_length _ (Hspan x Hx))].
  assert (Hf : In f (chunks points)).
  { apply Hincl. rewrite Hck. now left. }
  assert (Hl : In (last tl f) (chunks points)).
  { apply Hincl. rewrite Hck. apply last_In. }
  destruct (Hok f Hf) as (_ & _ & p & _ & Hp & _ & Hpd & _).
  destruct (Hok _ Hl) as (_ & _ & _ & q & _ & Hq & _ & _ & Hqd & _).
  exists p, q. repeat split; try assumption; congruence.
Qed.

Lemma profiler_validClimbs_ends (points : list Point) (totalDistance : Q)
  (c : Profiler.Scored.t) :
  nondecreasing points ->
  In c (Profiler.validClimbs points totalDistance) ->
  (exists p q,
     In p points /\ In q points /\
     dist p = Profiler.Scored.startDist c /\
     dist q = Profiler.Scored.endDist c) /\
  Profiler.Scored.startDist c + CHUNK_SIZE <= Profiler.Scored.endDist c /\
  Profiler.Scored.lengthKm c
  = Profiler.Scored.endDist c - Profiler.Scored.startDist c.
Proof.
  intros Hnd Hc.
  destruct (profiler_validClimbs_In _ _ _ Hc) as (j & x & Hx & _ & ->).
  cbn [Profiler.scoreClimb Profiler.Scored.startDist Profiler.Scored.endDist
       Profiler.Scored.lengthKm].
  destruct (climb_ends points x Hnd Hx) as [Hpq Hlen].
  split; [exact Hpq|]. split; [exact Hlen|reflexivity].
Qed.

Lemma two_members {A : Type} (a b : A) (l : list A) :
  In a l -> In b l -> a <> b -> (2 <= List.length l)%nat.
Proof.
  intros Ha Hb Hab. destruct (in_split a l Ha) as (l1 & l2 & ->).
  apply in_elt_inv in Hb. destruct Hb as [Hb|Hb]; [congruence|].
  rewrite length_app. cbn [List.length].
  assert (H : (1 <= List.length (l1 ++ l2))%nat)
    by (destruct (l1 ++ l2); [contradiction|simpl; lia]).
  rewrite length_app in H. lia.
Qed.

Lemma climbPoints_two (points : list Point) (totalDistance : Q)
  (c : Profiler.Scored.t) :
  nondecreasing points ->
  In c (Profiler.validClimbs points totalDistance) ->
  (2 <= List.length (ElevationChart.climbPoints points c))%nat.
Proof.
  intros Hnd Hc.
  destruct (profiler_validClimbs_ends _ _ _ Hnd Hc)
    as ((p & q & Hp & Hq & Hpd & Hqd) & Hlen & _).
  pose proof CHUNK_SIZE_pos as Hsz.
  apply (two_members p q).
  - apply filter_In. split; [exact Hp|]. apply andb_true_intro. split.
    + apply Qgeb_ge. rewrite Hpd. lra.
    + apply Qleb_le. rewrite Hpd. lra.
  - apply filter_In. split; [exact Hq|]. apply andb_true_intro. split.
    + apply Qgeb_ge. rewrite Hqd. lra.
    + apply Qleb_le. rewrite Hqd. lra.
  - intros E. subst q. rewrite Hpd in Hqd. rewrite <- Hqd in Hlen. lra.
Qed.

Lemma pts_two (climbPoints : list Point) :
  (2 <= List.length climbPoints)%nat ->
  (2 <= List.length (ElevationChart.pts climbPoints))%nat.
Proof.
  intros H. unfold ElevationChart.pts.
  assert (Hstep : (0 < ElevationChart.step climbPoints)%nat)
    by (unfold ElevationChart.step; lia).
  apply (proj1 (nth_error_Some _ 1%nat)).
  rewrite nth_error_filteri_mod by exact Hstep.
  apply nth_error_Some. rewrite Nat.mul_1_l. unfold ElevationChart.step.
  pose proof (Nat.div_lt (List.length climbPoints) 50 ltac:(lia) ltac:(lia)).
  lia.
Qed.

Lemma nearest_fold (midDist : Q) (points : list Point) :
  forall acc,
    let m := fold_left
               (fun prev curr =>
                  if Qltb (ElevationChart.mathAbs (dist curr - midDist))
                          (ElevationChart.mathAbs (dist prev - midDist))
                  then curr else prev)
               points acc in
    (m = acc \/ In m points) /\
    Qabs (dist m - midDist) <= Qabs (dist acc - midDist) /\
    forall p, In p points ->
              Qabs (dist m - midDist) <= Qabs (dist p - midDist).
Proof.
  unfold ElevationChart.mathAbs.
  induction points as [|x points IH]; intros acc; cbn [fold_left].
  - split; [now left|]. split; [lra|]. intros p [].
  - destruct (Qltb (Qabs (dist x - midDist)) (Qabs (dist acc - midDist)))
      eqn:E; qprop.
    + destruct (IH x) as (Hin & Hacc & Hall). cbv zeta in *.
      split; [right; destruct Hin as [->|Hin]; [now left|now right]|].
      split; [lra|]. intros p [<-|Hp]; [exact Hacc|exact (Hall p Hp)].
    + destruct (IH acc) as (Hin & Hacc & Hall). cbv zeta in *.
      split; [destruct Hin as [->|Hin]; [now left|right; now right]|].
      split; [exact Hacc|]. intros p [<-|Hp]; [lra|exact (Hall p Hp)].
Qed.

Lemma midPoint_nearest (points : list Point) (midDist : Q) :
  points <> [] ->
  exists m,
    ElevationChart.midPoint points midDist = Some m /\
    In m points /\
    forall p, In p points ->
              Qabs (dist m - midDist) <= Qabs (dist p - midDist).
Proof.
  intros Hne. destruct points as [|p0 rest]; [congruence|].
  unfold ElevationChart.midPoint. eexists. split; [reflexivity|].
  destruct (nearest_fold midDist (p0 :: rest) p0) as (Hin & _ & Hall).
  cbv zeta in *. split; [|exact Hall].
  destruct Hin as [->|Hin]; [now left|exact Hin].
Qed.

Lemma overlay_drawn (points : list Point) (totalDistance : Q)
  (c : Profiler.Scored.t) (chartDistance minEle maxEle : Q) :
  nondecreasing points ->
  In c (Profiler.validClimbs points totalDistance) ->
  exists o,
    ElevationChart.overlay points chartDistance minEle maxEle c = Some o /\
    ElevationChart.Overlay.id o = Profiler.Scored.id c /\
    ElevationChart.Overlay.color o = ElevationChart.color c /\
    (2 <= List.length (ElevationChart.Overlay.line o))%nat.
Proof.
  intros Hnd Hc.
  pose proof (climbPoints_two _ _ _ Hnd Hc) as Hcp.
  pose proof (pts_two _ Hcp) as Hpts.
  assert (Hne : points <> []).
  { intros ->. unfold ElevationChart.climbPoints in Hcp. simpl in Hcp. lia. }
  destruct (midPoint_nearest points
              (Profiler.Scored.startDist c + Profiler.Scored.lengthKm c / 2)
              Hne) as (m & Hm & _).
  unfold ElevationChart.overlay. cbv zeta.
  assert (E : (List.length (ElevationChart.pts
                              (ElevationChart.climbPoints points c)) <? 2)%nat
              = false) by (apply Nat.ltb_ge; exact Hpts).
  rewrite E, Hm. eexists. split; [reflexivity|].
  cbn [ElevationChart.Overlay.id ElevationChart.Overlay.color
       ElevationChart.Overlay.line].
  split; [reflexivity|]. split; [reflexivity|].
  rewrite length_map. exact Hpts.
Qed.

Lemma dropNull_all {A B : Type} (R : B -> A -> Prop) (f : A -> option B)
  (xs : list A) :
  (forall x, In x xs -> exists y, f x = Some y /\ R y x) ->
  Forall2 R (ElevationChart.dropNull (map f xs)) xs.
Proof.
  induction xs as [|x xs IH]; intros H; [constructor|].
  cbn [map ElevationChart.dropNull].
  destruct (H x (or_introl eq_refl)) as (y & -> & Hy).
  constructor; [exact Hy|]. apply IH. intros x' Hx'. apply H. now right.
Qed.

(** X23. On a track with non-decreasing distances every climb of the
    result is drawn: the test that drops an overlay of fewer than two
    points never applies.  The overlays come in the order of the climbs,
    each with the id and the colour of its climb and a line of at least
    two points. *)
Theorem every_climb_is_drawn (points : list Point) (totalDistance : Q)
  (chartDistance minEle maxEle : Q) :
  nondecreasing points ->
  Forall2 (fun o c =>
             ElevationChart.overlay points chartDistance minEle maxEle c
             = Some o /\
             ElevationChart.Overlay.id o = Profiler.Scored.id c /\
             ElevationChart.Overlay.color o = ElevationChart.color c /\
             (2 <= List.length (ElevationChart.Overlay.line o))%nat)
          (ElevationChart.climbData points
             (Profiler.validClimbs points totalDistance)
             chartDistance minEle maxEle)
          (Profiler.validClimbs points totalDistance).
Proof.
  intros Hnd. unfold ElevationChart.climbData.
  apply dropNull_all. intros c Hc.
  destruct (overlay_drawn points totalDistance c chartDistance minEle maxEle
              Hnd Hc) as (o & Ho & H).
  exists o. split; [exact Ho|]. split; [exact Ho|exact H].
Qed.

Lemma every_climb_is_drawn_witness :
  nondecreasing scenarioB /\
  Forall2 (fun o c =>
             ElevationChart.overlay scenarioB 50 0 250 c = Some o /\
             ElevationChart.Overlay.id o = Profiler.Scored.id c /\
             ElevationChart.Overlay.color o = ElevationChart.color c /\
             (2 <= List.length (ElevationChart.Overlay.line o))%nat)
          (ElevationChart.climbData scenarioB
             (Profiler.validClimbs scenarioB 50) 50 0 250)
          (Profiler.validClimbs scenarioB 50).
Proof.
  assert (H : nondecreasing scenarioB) by (vm_compute; reflexivity).
  split; [exact H|]. exact (every_climb_is_drawn scenarioB 50 50 0 250 H).
Defined.

(** X24. The number of a climb is placed at the track point nearest to
    the middle of the climb, and on a track with non-decreasing distances
    that point lies on the climb, between its start and its end. *)
Theorem number_sits_on_climb (points : list Point) (totalDistance : Q)
  (c : Profiler.Scored.t) :
  nondecreasing points ->
  In c (Profiler.validClimbs points totalDistance) ->
  let midDist :=
    Profiler.Scored.startDist c + Profiler.Scored.lengthKm c / 2 in
  exists m,
    ElevationChart.midPoint points midDist = Some m /\
    In m points /\
    (forall p, In p points ->
               Qabs (dist m - midDist) <= Qabs (dist p - midDist)) /\
    Profiler.Scored.startDist c <= dist m /\
    dist m <= Profiler.Scored.endDist c.
Proof.
  intros Hnd Hc midDist.
  destruct (profiler_validClimbs_ends _ _ _ Hnd Hc)
    as ((p & q & Hp & Hq & Hpd & Hqd) & Hlen & Hkm).
  pose proof CHUNK_SIZE_pos as Hsz.
  assert (Hne : points <> []) by (intros ->; contradiction).
  destruct (midPoint_nearest points midDist Hne) as (m & Hm & Hin & Hall).
  exists m. split; [exact Hm|]. split; [exact Hin|]. split; [exact Hall|].
  pose proof (Hall p Hp) as Hnear.
  assert (Hmid : midDist == Profiler.Scored.startDist c
                            + (Profiler.Scored.endDist c
                               - Profiler.Scored.startDist c) * (1 # 2)).
  { unfold midDist. rewrite Hkm. field. }
  rewrite Hpd in Hnear.
  set (s := Profiler.Scored.startDist c) in *.
  set (e := Profiler.Scored.endDist c) in *.
  assert (Hhalf : Qabs (s - midDist) <= (e - s) * (1 # 2)).
  { apply Qabs_Qle_condition. rewrite Hmid. split; lra. }
  assert (Hm' : Qabs (dist m - midDist) <= (e - s) * (1 # 2)) by lra.
  apply Qabs_Qle_condition in Hm'. rewrite Hmid in Hm'.
  destruct Hm' as [H1 H2]. split; lra.
Qed.

Lemma number_sits_on_climb_witness :
  nondecreasing scenarioB /\
  exists c,
    In c (Profiler.validClimbs scenarioB 50) /\
    let midDist :=
      Profiler.Scored.startDist c + Profiler.Scored.lengthKm c / 2 in
    exists m,
      ElevationChart.midPoint scenarioB midDist = Some m /\
      In m scenarioB /\
      (forall p, In p scenarioB ->
                 Qabs (dist m - midDist) <= Qabs (dist p - midDist)) /\
      Profiler.Scored.startDist c <= dist m /\
      dist m <= Profiler.Scored.endDist c.
Proof.
  assert (H : nondecreasing scenarioB) by (vm_compute; reflexivity).
  split; [exact H|].
  exists (Profiler.scoreClimb 50 0 scenarioBClimb).
  assert (Hc : In (Profiler.scoreClimb 50 0 scenarioBClimb)
                  (Profiler.validClimbs scenarioB 50))
    by (vm_compute; left; reflexivity).
  split; [exact Hc|].
  exact (number_sits_on_climb scenarioB 50 _ H Hc).
Defined.

(** ** What the detection keeps *)

Lemma aggStep_collected (st : AggState) (chunk : Chunk.t) :
  collected (aggStep st chunk)
  = collected st ++ (if isUphill chunk then [chunk] else []).
Proof.
  destruct st as [acc [c|]]; unfold aggStep, collected;
    destruct (isUphill chunk); cbn [fst snd Climb.chunks].
  - rewrite app_assoc. reflexivity.
  - rewrite map_app, concat_app. cbn [map concat].
    rewrite !app_nil_r. reflexivity.
  - rewrite app_nil_r. reflexivity.
  - rewrite !app_nil_r. reflexivity.
Qed.

Lemma fold_aggStep_collected (cs : list Chunk.t) :
  forall st,
    collected (fold_left aggStep cs st) = collected st ++ filter isUphill cs.
Proof.
  induction cs as [|k cs IH]; intros st; cbn [fold_left filter].
  - rewrite app_nil_r. reflexivity.
  - rewrite IH, aggStep_collected, <- app_assoc.
    destruct (isUphill k); reflexivity.
Qed.

Lemma aggregate_collected (cs : list Chunk.t) :
  concat (map Climb.chunks (aggregate cs)) = filter isUphill cs.
Proof.
  unfold aggregate.
  pose proof (fold_aggStep_collected cs ([], None)) as H.
  unfold collected at 2 in H. cbn [fst snd map concat app] in H.
  rewrite <- H. unfold flush, collected.
  destruct (fold_left aggStep cs ([], None)) as [acc [c|]]; cbn [fst snd].
  - rewrite map_app, concat_app. cbn [map concat]. rewrite app_nil_r.
    reflexivity.
  - rewrite app_nil_r. reflexivity.
Qed.

(** X25. The detection loses no uphill chunk and takes no other: the
    chunks of the climbs, put one climb after the other, are exactly the
    chunks steeper than 1.5, in the order of the course. *)
Theorem uphill_chunks_are_the_climbs (points : list Point) :
  concat (map Climb.chunks (climbs points)) = filter isUphill (chunks points).
Proof. apply aggregate_collected. Qed.

Lemma no_uphill_no_climbs (cs : list Chunk.t) :
  filter isUphill cs = [] -> aggregate cs = [].
Proof.
  intros H. pose proof (aggregate_collected cs) as Hc. rewrite H in Hc.
  pose proof (aggregate_shape cs) as Hshape.
  destruct (aggregate cs) as [|c l]; [reflexivity|].
  inversion Hshape as [|? ? [(f & tl & Hck & _) _] _]; subst.
  cbn [map concat] in Hc. rewrite Hck in Hc. discriminate.
Qed.

Lemma StronglySorted_suffix {A : Type} (R : A -> A -> Prop) (l1 l2 : list A) :
  StronglySorted R (l1 ++ l2) -> StronglySorted R l2.
Proof.
  induction l1 as [|x l1 IH]; [auto|].
  intros H. inversion H; subst. auto.
Qed.

Lemma StronglySorted_later {A : Type} (R : A -> A -> Prop)
  (l1 l2 l3 : list A) (p q : A) :
  StronglySorted R (l1 ++ p :: l2 ++ q :: l3) -> R p q.
Proof.
  intros H. apply StronglySorted_suffix in H.
  inversion H as [|? ? _ Hall]; subst.
  rewrite Forall_forall in Hall. apply Hall.
  apply in_or_app. right. now left.
Qed.

(** Every chunk runs from a point of the track to a later one. *)
Lemma chunks_in_order (points : list Point) :
  Forall (fun c => exists l1 p l2 q l3,
                     points = l1 ++ p :: l2 ++ q :: l3 /\
                     Chunk.startEle c = ele p /\ Chunk.endEle c = ele q)
         (chunks points).
Proof.
  unfold chunks.
  enough (H : forall pre,
             Forall (fun c => exists l1 p l2 q l3,
                                pre ++ points = l1 ++ p :: l2 ++ q :: l3 /\
                                Chunk.startEle c = ele p /\
                                Chunk.endEle c = ele q)
                    (chunkLoop points)) by (exact (H [])).
  apply (chunkLoop_runs
           (fun pts cs =>
              forall pre,
                Forall (fun c => exists l1 p l2 q l3,
                                   pre ++ pts = l1 ++ p :: l2 ++ q :: l3 /\
                                   Chunk.startEle c = ele p /\
                                   Chunk.endEle c = ele q) cs)).
  - constructor.
  - intros start rest _ IH pre.
    replace (pre ++ start :: rest) with ((pre ++ [start]) ++ rest)
      by (rewrite <- app_assoc; reflexivity).
    apply IH.
  - intros start rest end_ rest' E IH pre.
    destruct (scan_some _ _ _ _ E) as [_ [skipped [-> _]]].
    constructor.
    + exists pre, start, skipped, end_, rest'. repeat split.
    + replace (pre ++ start :: skipped ++ end_ :: rest')
        with ((pre ++ start :: skipped) ++ end_ :: rest')
        by (rewrite <- app_assoc; reflexivity).
      apply IH.
Qed.

Lemma climbingFrom_never_rises (rest : list Point) :
  forall prev,
    neverRises (prev :: rest) -> climbingFrom prev rest 0 = 0.
Proof.
  unfold neverRises.
  induction rest as [|p rest IH]; intros prev Hflat; [reflexivity|].
  cbn [climbingFrom]. inversion Hflat as [|? ? Hrest Hall]; subst.
  inversion Hall as [|? ? He _]; subst.
  assert (E : Qgtb (ele p - ele prev) 0 = false) by (apply Qgtb_le; lra).
  rewrite E. apply IH. exact Hrest.
Qed.

(** X26. A course that never rises, on which no point is higher than a
    point before it, has no climb: no chunk is uphill, the list of climbs
    is empty, the scores and the climb weighting are 0 and so is the total
    climbing. *)
Theorem course_that_never_rises (points : list Point) (totalDistance : Q) :
  neverRises points ->
  filter isUphill (chunks points) = [] /\
  Profiler.validClimbs points totalDistance = [] /\
  Profiler.totalScore points totalDistance = 0 /\
  Profiler.finalProfileScore points totalDistance = 0 /\
  Tpv.tpvClimbWeighting (Tpv.totalScore points totalDistance)
                        (Tpv.finalProfileScore points totalDistance)
                        totalDistance == 0 /\
  totalClimbing points = 0.
Proof.
  intros Hflat.
  assert (Hno : filter isUphill (chunks points) = []).
  { pose proof (chunks_ok points) as Hok.
    pose proof (chunks_gradient points) as Hgr.
    pose proof (chunks_in_order points) as Hord.
    rewrite Forall_forall in Hok, Hgr, Hord.
    destruct (filter isUphill (chunks points)) as [|k l] eqn:E; [reflexivity|].
    exfalso.
    assert (Hk : In k (filter isUphill (chunks points)))
      by (rewrite E; now left).
    apply filter_In in Hk. destruct Hk as [Hk Hup].
    apply isUphill_gt in Hup.
    destruct (Hok k Hk) as (Hlen & Hgain & _).
    destruct (Hord k Hk) as (l1 & p & l2 & q & l3 & Hpts & Hse & Hee).
    pose proof CHUNK_SIZE_pos as Hsz.
    assert (Hle : ele q <= ele p).
    { unfold neverRises in Hflat. rewrite Hpts in Hflat.
      exact (StronglySorted_later _ _ _ _ _ _ Hflat). }
    rewrite (Hgr k Hk), Hgain, Hee, Hse in Hup.
    set (len := Chunk.endDist k - Chunk.startDist k) in *.
    assert (Hpos : 0 < len * 1000) by lra.
    assert (Hneg : (ele q - ele p) / (len * 1000) <= 0).
    { apply Qle_shift_div_r; [exact Hpos|lra]. }
    lra. }
  assert (Hcl : climbs points = [])
    by (apply no_uphill_no_climbs; exact Hno).
  split; [exact Hno|].
  assert (Hv : Profiler.validClimbs points totalDistance = [])
    by (unfold Profiler.validClimbs; rewrite Hcl; reflexivity).
  assert (Hv' : Tpv.validClimbs points totalDistance = [])
    by (unfold Tpv.validClimbs; rewrite Hcl; reflexivity).
  split; [exact Hv|].
  unfold Profiler.totalScore, Profiler.finalProfileScore, Profiler.finalClimbs,
    Tpv.totalScore, Tpv.finalProfileScore, Tpv.finalClimbs.
  rewrite Hv, Hv'. cbn [filter].
  split; [reflexivity|]. split; [reflexivity|]. split.
  - change (Tpv.sumFinalScore []) with 0.
    unfold Tpv.tpvClimbWeighting, Tpv.tpvClimbWeightingRatio,
      Tpv.finalZoneMetricCapped, Tpv.finalZoneRatioUncapped, Tpv.overallMetric.
    assert (H0 : forall x, 0 / x == 0) by (intros x; unfold Qdiv; ring).
    destruct (Qgtb totalDistance 0), (Qltb totalDistance 20);
      cbn [andb]; rewrite ?H0; reflexivity.
  - destruct points as [|p0 rest]; [reflexivity|].
    apply climbingFrom_never_rises. exact Hflat.
Qed.

Lemma course_that_never_rises_witness :
  let points := [trackPoint 0 10; trackPoint 0 5; trackPoint 1 5;
                 trackPoint 2 2] in
  neverRises points /\
  filter isUphill (chunks points) = [] /\
  Profiler.validClimbs points 1 = [] /\
  Profiler.totalScore points 1 = 0 /\
  Profiler.finalProfileScore points 1 = 0 /\
  Tpv.tpvClimbWeighting (Tpv.totalScore points 1)
                        (Tpv.finalProfileScore points 1) 1 == 0 /\
  totalClimbing points = 0.
Proof.
  intros points.
  assert (H : neverRises points).
  { unfold neverRises, points.
    repeat (constructor; [|repeat constructor; vm_compute; discriminate]).
    constructor. }
  split; [exact H|]. exact (course_that_never_rises points 1 H).
Defined.

(** ** The climbs on the course *)

Lemma lengths_fit (totalDistance scoreDistance : Q) (kept : list Climb.t) :
  StronglySorted before kept ->
  forall lo i,
    Forall (fun c => lo <= Climb.startDist c /\
                     Climb.startDist c <= Climb.endDist c /\
                     Climb.endDist c <= totalDistance) kept ->
    lo <= totalDistance ->
    sumQ (map Profiler.Scored.lengthKm
              (mapiFrom (Profiler.scoreClimb scoreDistance) i kept))
    <= totalDistance - lo.
Proof.
  induction 1 as [|c kept _ IH Hc]; intros lo i Hall Hlo.
  - cbn [mapiFrom map]. unfold sumQ. simpl. lra.
  - inversion Hall as [|? ? (H1 & H2 & H3) Hall']; subst.
    cbn [mapiFrom map]. rewrite sumQ_cons.
    cbn [Profiler.scoreClimb Profiler.Scored.lengthKm].
    assert (Hrest : Forall (fun c' => Climb.endDist c <= Climb.startDist c' /\
                                      Climb.startDist c' <= Climb.endDist c' /\
                                      Climb.endDist c' <= totalDistance) kept).
    { rewrite Forall_forall in *. intros c' Hc'.
      destruct (Hall' c' Hc') as (_ & Ha & Hb).
      split; [exact (Hc c' Hc')|]. split; assumption. }
    pose proof (IH (Climb.endDist c) (S i) Hrest H3). lra.
Qed.

(** X27. In the result of a course the climbs lie on the course: each
    starts at a point of the track and ends at another one at least
    0.2 km further and not beyond the finish, so its distance from the
    finish is not negative; and the lengths of all the climbs together do
    not exceed the length of the course. *)
Theorem climbs_fit_on_course (points : list Point) (totalDistance : Q)
  (fd : Profiler.FileData.t) :
  onCourse points totalDistance ->
  Profiler.analyzeRoute points totalDistance = Some fd ->
  (forall c,
     In c (Profiler.FileData.climbs fd) ->
     0 <= Profiler.Scored.startDist c /\
     Profiler.Scored.startDist c + CHUNK_SIZE <= Profiler.Scored.endDist c /\
     Profiler.Scored.endDist c <= totalDistance /\
     0 <= Profiler.Scored.distFromFinish c /\
     exists p q,
       In p points /\ In q points /\
       dist p = Profiler.Scored.startDist c /\
       dist q = Profiler.Scored.endDist c) /\
  sumQ (map Profiler.Scored.lengthKm (Profiler.FileData.climbs fd))
  <= totalDistance.
Proof.
  intros [Hnd Hall] Hfd. rewrite Forall_forall in Hall.
  assert (Htd : 0 <= totalDistance).
  { destruct points as [|p0 rest]; [discriminate|].
    destruct (Hall p0 (or_introl eq_refl)). lra. }
  assert (Hcl : Profiler.FileData.climbs fd
                = Profiler.validClimbs points totalDistance).
  { unfold Profiler.analyzeRoute in Hfd.
    destruct points; [discriminate|]. injection Hfd as <-. reflexivity. }
  rewrite Hcl. clear Hfd Hcl fd. split.
  - intros c Hc.
    destruct (profiler_validClimbs_ends _ _ _ Hnd Hc)
      as ((p & q & Hp & Hq & Hpd & Hqd) & Hlen & _).
    destruct (Hall p Hp) as [Hp0 _]. destruct (Hall q Hq) as [_ Hq1].
    rewrite Hpd in Hp0. rewrite Hqd in Hq1.
    split; [exact Hp0|]. split; [exact Hlen|]. split; [exact Hq1|].
    split; [|exists p, q; auto].
    destruct (profiler_validClimbs_In _ _ _ Hc) as (j & x & _ & _ & ->).
    cbn [Profiler.scoreClimb Profiler.Scored.distFromFinish
         Profiler.Scored.endDist] in *. lra.
  - assert (Hkept : Forall (fun c => 0 <= Climb.startDist c /\
                                     Climb.startDist c <= Climb.endDist c /\
                                     Climb.endDist c <= totalDistance)
                           (filter (fun c => Qgtb (Climb.gain c) 20)
                                   (climbs points))).
    { apply Forall_forall. intros x Hx.
      apply filter_In in Hx. destruct Hx as [Hx _].
      destruct (climb_ends points x Hnd Hx)
        as ((p & q & Hp & Hq & Hpd & Hqd) & Hlen).
      pose proof CHUNK_SIZE_pos as Hsz.
      destruct (Hall p Hp) as [Hp0 _]. destruct (Hall q Hq) as [_ Hq1].
      rewrite Hpd in Hp0. rewrite Hqd in Hq1.
      split; [exact Hp0|]. split; [lra|exact Hq1]. }
    rewrite (profiler_validClimbs_unsorted _ _ Hnd). unfold mapi.
    destruct (filtered_climbs_ordered points Hnd) as [_ Hsorted].
    pose proof (lengths_fit totalDistance totalDistance _ Hsorted 0 0%nat
                  Hkept Htd). lra.
Qed.

Lemma climbs_fit_on_course_witness :
  onCourse scenarioB 50 /\
  exists fd,
    Profiler.analyzeRoute scenarioB 50 = Some fd /\
    (forall c,
       In c (Profiler.FileData.climbs fd) ->
       0 <= Profiler.Scored.startDist c /\
       Profiler.Scored.startDist c + CHUNK_SIZE <= Profiler.Scored.endDist c /\
       Profiler.Scored.endDist c <= 50 /\
       0 <= Profiler.Scored.distFromFinish c /\
       exists p q,
         In p scenarioB /\ In q scenarioB /\
         dist p = Profiler.Scored.startDist c /\
         dist q = Profiler.Scored.endDist c) /\
    sumQ (map Profiler.Scored.lengthKm (Profiler.FileData.climbs fd)) <= 50.
Proof.
  assert (H : onCourse scenarioB 50).
  { split; [vm_compute; reflexivity|].
    apply Forall_forall. intros p Hp. vm_compute in Hp.
    repeat (destruct Hp as [<-|Hp]; [vm_compute; split; discriminate|]).
    contradiction. }
  split; [exact H|]. eexists. split; [reflexivity|].
  exact (climbs_fit_on_course scenarioB 50 _ H eq_refl).
Defined.
